(** * Calendar_Agendator: the email-to-event pipeline

    A shallow embedding of the two program variants of the repository,

    - [Agendator.py]        (module [Agendator]): the continuous loop,
    - [AgendatorActions.py] (module [AgendatorActions]): the single-shot run,

    and the properties their specification states about them.

    Conventions of the embedding.
    - A Python [str] is a [string]: the sequence of its UTF-8 code units.
      The whitespace [str.strip] removes is that of [str.isspace], the
      characters outside ASCII in their UTF-8 form.
    - A value decoded from JSON is a [json]; a JSON object is an association
      list in insertion order with distinct keys, as a Python [dict].
      A float keeps its lexeme: no floating-point arithmetic is modelled.
    - A call that can raise returns a [result]; a function with effects also
      returns the [effect]s it performed, in order (requests sent, sleeps,
      log records, mailbox and calendar calls).
    - The collaborators (inference service, mailbox, calendar service) are
      oracles passed as arguments: what they answer to each call. *)

From Stdlib Require Import String Ascii List ZArith Lia Bool Arith.
Import ListNotations.
Set Warnings "-register-all".
Open Scope list_scope.
Open Scope string_scope.

(* ================================================================= *)
(** ** Characters and strings *)

Definition dquote : ascii := "034"%char.
Definition newline : ascii := "010"%char.
Definition backslash : ascii := "092"%char.

(** [nl] is the one-character string a Python literal writes as a backslash
    followed by [n]. *)
Definition nl : string := String newline "".

(** A text written with an apostrophe wherever it holds a double quote. *)
Fixpoint text (s : string) : string :=
  match s with
  | "" => ""
  | String c r => String (if Ascii.eqb c "'"%char then dquote else c) (text r)
  end.

Definition code (c : ascii) : nat := nat_of_ascii c.

Definition is_digit (c : ascii) : bool :=
  ((48 <=? code c)%nat && (code c <=? 57)%nat)%bool.

Definition digit_val (c : ascii) : Z := Z.of_nat (code c - 48).

(** [str.isspace] on ASCII: tab, line feed, vertical tab, form feed, carriage
    return, the separators 0x1c-0x1f and the space. *)
Definition is_space (c : ascii) : bool :=
  let n := code c in
  (((9 <=? n)%nat && (n <=? 13)%nat) || ((28 <=? n)%nat && (n <=? 31)%nat)
   || (n =? 32)%nat)%bool.

Definition is_empty (s : string) : bool :=
  match s with "" => true | _ => false end.

(** The whitespace of [str.isspace] outside ASCII, by its UTF-8 code units:
    U+0085 and U+00A0 in two units; U+1680, U+2000 to U+200A, U+2028,
    U+2029, U+202F, U+205F and U+3000 in three. *)
Definition is_space2 (a b : ascii) : bool :=
  ((code a =? 194)%nat && ((code b =? 133)%nat || (code b =? 160)%nat))%bool.

Definition is_space3 (a b c : ascii) : bool :=
  (((code a =? 225)%nat && (code b =? 154)%nat && (code c =? 128)%nat)
   || ((code a =? 226)%nat && (code b =? 128)%nat
       && (((128 <=? code c)%nat && (code c <=? 138)%nat)
           || (code c =? 168)%nat || (code c =? 169)%nat || (code c =? 175)%nat))
   || ((code a =? 226)%nat && (code b =? 129)%nat && (code c =? 159)%nat)
   || ((code a =? 227)%nat && (code b =? 128)%nat && (code c =? 128)%nat))%bool.

(** [s] is one whitespace character. *)
Definition is_space_char (s : string) : bool :=
  match s with
  | String a "" => is_space a
  | String a (String b "") => is_space2 a b
  | String a (String b (String c "")) => is_space3 a b c
  | _ => false
  end.

(** [s.lstrip()], [s.rstrip()] and [s.strip()]. *)
Fixpoint lstrip (s : string) : string :=
  match s with
  | "" => ""
  | String a r =>
      if is_space a then lstrip r
      else
        match r with
        | String b r2 =>
            if is_space2 a b then lstrip r2
            else
              match r2 with
              | String c r3 => if is_space3 a b c then lstrip r3 else s
              | "" => s
              end
        | "" => s
        end
  end.

(** From the right: once the text after [c] is stripped, [c] and what is
    left of it are dropped when together they are one whitespace
    character. *)
Fixpoint rstrip (s : string) : string :=
  match s with
  | "" => ""
  | String c r =>
      let r' := rstrip r in
      if is_space_char (String c r') then "" else String c r'
  end.

Definition strip (s : string) : string := rstrip (lstrip s).

(** [s.startswith(p)] and [s.endswith(p)]. *)
Fixpoint startswith (s p : string) : bool :=
  match p, s with
  | "", _ => true
  | String _ _, "" => false
  | String a p', String b s' => Ascii.eqb a b && startswith s' p'
  end.

Fixpoint endswith (s p : string) : bool :=
  String.eqb s p ||
  match s with
  | "" => false
  | String _ r => endswith r p
  end.

(** The slices [s[n:]] and [s[:-n]] (for [n > 0]). *)
Fixpoint drop (n : nat) (s : string) : string :=
  match n, s with
  | O, _ => s
  | S _, "" => ""
  | S n', String _ r => drop n' r
  end.

Definition drop_last (n : nat) (s : string) : string :=
  substring 0 (String.length s - n) s.

(** [s.replace(old, '')] for a non-empty [old]: the occurrences of [old]
    are removed from left to right, without overlap. [skip] counts the
    characters of a matched occurrence still to be dropped. *)
Fixpoint remove_from (skip : nat) (old s : string) : string :=
  match s with
  | "" => ""
  | String c r =>
      match skip with
      | S k => remove_from k old r
      | O =>
          if startswith s old then remove_from (String.length old - 1) old r
          else String c (remove_from 0 old r)
      end
  end.

Definition remove_all (old s : string) : string := remove_from 0 old s.

(** [needle in hay] for two [str]. *)
Fixpoint contains (hay needle : string) : bool :=
  startswith hay needle ||
  match hay with
  | "" => false
  | String _ r => contains r needle
  end.

(** The same as a proposition. *)
Definition substring_of (needle hay : string) : Prop :=
  exists pre post, hay = pre ++ needle ++ post.

(* ================================================================= *)
(** ** Exceptions and results *)

(** The exception classes the two programs can meet. [RequestException]
    stands for what [requests.post] raises itself (connection error,
    timeout); [HTTPError] for [raise_for_status]; [RequestsJSONDecodeError]
    for [response.json()] on a body that is not JSON (a subclass of both
    [requests.RequestException] and [json.JSONDecodeError]);
    [CollaboratorError] for any exception of a collaborating library
    (imaplib, google-auth, googleapiclient). All are subclasses of
    [Exception]; [json.JSONDecodeError] is a subclass of [ValueError], and
    [ValueError] itself is none of the classes the extraction client
    handles. *)
Inductive exn : Type :=
  | RequestException
  | HTTPError
  | RequestsJSONDecodeError
  | JSONDecodeError
  | KeyError
  | IndexError
  | TypeError
  | AttributeError
  | ValueError
  | OverflowError
  | UnboundLocalError
  | RecursionError
  | CollaboratorError.

(** [isinstance(e, requests.RequestException)]. *)
Definition is_RequestException (e : exn) : bool :=
  match e with
  | RequestException | HTTPError | RequestsJSONDecodeError => true
  | _ => false
  end.

(** [isinstance(e, (KeyError, IndexError, json.JSONDecodeError))]. *)
Definition is_lookup_or_decode_error (e : exn) : bool :=
  match e with
  | KeyError | IndexError | JSONDecodeError | RequestsJSONDecodeError => true
  | _ => false
  end.

Inductive result (A : Type) : Type :=
  | Ok (a : A)
  | Raise (e : exn).
Arguments Ok {A} a.
Arguments Raise {A} e.

Definition bind {A B : Type} (r : result A) (k : A -> result B) : result B :=
  match r with
  | Ok a => k a
  | Raise e => Raise e
  end.

Notation "x <- r ;; k" := (bind r (fun x => k))
  (at level 61, r at next level, right associativity).

(* ================================================================= *)
(** ** JSON values as Python sees them *)

Inductive json : Type :=
  | JNull
  | JBool (b : bool)
  | JInt (n : Z)
  | JFloat (lexeme : string)
  | JStr (s : string)
  | JArr (items : list json)
  | JObj (members : list (string * json)).

(** [d.get(k)] on the members of a [dict]. *)
Fixpoint lookup (k : string) (ms : list (string * json)) : option json :=
  match ms with
  | [] => None
  | (k', v) :: r => if String.eqb k k' then Some v else lookup k r
  end.

Definition has_key (k : string) (ms : list (string * json)) : bool :=
  match lookup k ms with Some _ => true | None => false end.

(** [d[k] = v]: an existing key keeps its place and takes the new value. *)
Fixpoint dict_set (ms : list (string * json)) (k : string) (v : json)
  : list (string * json) :=
  match ms with
  | [] => [(k, v)]
  | (k', v') :: r =>
      if String.eqb k k' then (k', v) :: r else (k', v') :: dict_set r k v
  end.

(* ================================================================= *)
(** ** [json.loads]

    The decoder of Python's [json] module with its default settings: the
    whitespace between tokens is space, tab, line feed and carriage return;
    [NaN], [Infinity] and [-Infinity] are accepted; a control character
    inside a string is refused; of a repeated key the last value is kept.
    The text is read from left to right and the first failure decides the
    exception: [json.JSONDecodeError] where the text is not JSON;
    [ValueError] where an integer literal of more than 4300 digits stands
    for a value ([sys.int_max_str_digits], the limit of [int] on a decimal
    text); [RecursionError] where a container is opened deeper than the
    interpreter allows, and where the scanner meets a syntax error so deep
    that the exception object cannot be built any more. The limits are
    those of CPython 3.11 with its default settings. *)

(** [TBigInt] is an integer literal of more than 4300 digits, [TError] the
    place where the text stops being a sequence of tokens: inside a string
    (a control character, a wrong escape, the end of the text) or not. *)
Inductive token : Type :=
  | TLBrace | TRBrace | TLBracket | TRBracket | TColon | TComma
  | TScalar (v : json)
  | TBigInt
  | TError (in_string : bool).

(** Where the scanner stands inside a number: an optional minus sign, an
    integer part with no leading zero, an optional fraction (a dot and
    digits) and an optional exponent (e or E, an optional sign, digits). *)
Inductive num_state : Type :=
  | NMinus | NZero | NInt | NDot | NFrac
  | NExp (frac : bool) | NExpSign (frac : bool) | NExpDigits.

Inductive lex_mode : Type :=
  | LNormal
  | LSkip (n : nat) (back : option (list ascii))
      (* [n] characters already read ahead; then back to a string body *)
  | LString (acc : list ascii)        (* the body so far, reversed *)
  | LEscape (acc : list ascii)        (* just after a backslash *)
  | LNumber (st : num_state) (acc : list ascii).

Definition is_json_space (c : ascii) : bool :=
  let n := code c in
  ((n =? 32)%nat || (n =? 9)%nat || (n =? 10)%nat || (n =? 13)%nat)%bool.

Definition hex_val (c : ascii) : option Z :=
  let n := code c in
  if ((48 <=? n)%nat && (n <=? 57)%nat)%bool then Some (Z.of_nat (n - 48))
  else if ((97 <=? n)%nat && (n <=? 102)%nat)%bool then Some (Z.of_nat (n - 87))
  else if ((65 <=? n)%nat && (n <=? 70)%nat)%bool then Some (Z.of_nat (n - 55))
  else None.

(** The four hexadecimal digits at the head of [s]. *)
Definition hex4 (s : string) : option Z :=
  match s with
  | String a (String b (String c (String d _))) =>
      match hex_val a, hex_val b, hex_val c, hex_val d with
      | Some x, Some y, Some z, Some w => Some (((x * 16 + y) * 16 + z) * 16 + w)%Z
      | _, _, _, _ => None
      end
  | _ => None
  end.

Definition byte_of (z : Z) : ascii := ascii_of_nat (Z.to_nat z).

(** The UTF-8 code units of a code point (a lone surrogate is written the
    same way as any other three-unit code point). *)
Definition utf8 (cp : Z) : list ascii :=
  if (cp <? 128)%Z then [byte_of cp]
  else if (cp <? 2048)%Z then
    [byte_of (192 + cp / 64); byte_of (128 + cp mod 64)]
  else if (cp <? 65536)%Z then
    [byte_of (224 + cp / 4096); byte_of (128 + (cp / 64) mod 64);
     byte_of (128 + cp mod 64)]
  else
    [byte_of (240 + cp / 262144); byte_of (128 + (cp / 4096) mod 64);
     byte_of (128 + (cp / 64) mod 64); byte_of (128 + cp mod 64)].

(** What follows [\u] in a string: the code units to add and how many
    characters they were written with. A high surrogate followed by an
    escaped low surrogate is one code point. *)
Definition unicode_escape (s : string) : option (list ascii * nat) :=
  match hex4 s with
  | None => None
  | Some hi =>
      let single := Some (utf8 hi, 4) in
      if ((55296 <=? hi) && (hi <=? 56319))%Z then
        match drop 4 s with
        | String b (String u r) =>
            if (Ascii.eqb b backslash && Ascii.eqb u "u"%char)%bool then
              match hex4 r with
              | Some lo =>
                  if ((56320 <=? lo) && (lo <=? 57343))%Z then
                    Some (utf8 (65536 + (hi - 55296) * 1024 + (lo - 56320)), 10)
                  else single
              | None => single
              end
            else single
        | _ => single
        end
      else single
  end.

(** The character an escape letter stands for. *)
Definition simple_escape (c : ascii) : option ascii :=
  if Ascii.eqb c dquote then Some dquote
  else if Ascii.eqb c backslash then Some backslash
  else if Ascii.eqb c "/"%char then Some "/"%char
  else if Ascii.eqb c "b"%char then Some "008"%char
  else if Ascii.eqb c "f"%char then Some "012"%char
  else if Ascii.eqb c "n"%char then Some "010"%char
  else if Ascii.eqb c "r"%char then Some "013"%char
  else if Ascii.eqb c "t"%char then Some "009"%char
  else None.

Definition num_step (st : num_state) (c : ascii) : option num_state :=
  let d := is_digit c in
  let e := (Ascii.eqb c "e"%char || Ascii.eqb c "E"%char)%bool in
  match st with
  | NMinus =>
      if Ascii.eqb c "0"%char then Some NZero else if d then Some NInt else None
  | NZero =>
      if Ascii.eqb c "."%char then Some NDot
      else if e then Some (NExp false) else None
  | NInt =>
      if d then Some NInt
      else if Ascii.eqb c "."%char then Some NDot
      else if e then Some (NExp false) else None
  | NDot => if d then Some NFrac else None
  | NFrac => if d then Some NFrac else if e then Some (NExp true) else None
  | NExp f =>
      if d then Some NExpDigits
      else if (Ascii.eqb c "+"%char || Ascii.eqb c "-"%char)%bool
      then Some (NExpSign f) else None
  | NExpSign _ => if d then Some NExpDigits else None
  | NExpDigits => if d then Some NExpDigits else None
  end.

(** [int(lexeme)] for an optional minus sign followed by digits. *)
Definition int_of_digits (cs : list ascii) : Z :=
  match cs with
  | c :: r =>
      if Ascii.eqb c "-"%char
      then (- fold_left (fun a d => a * 10 + digit_val d) r 0)%Z
      else fold_left (fun a d => a * 10 + digit_val d)%Z cs 0%Z
  | [] => 0%Z
  end.

Definition int_max_str_digits : nat := 4300.

(** The token of an integer literal, written backwards in [acc]. *)
Definition int_token (acc : list ascii) : token :=
  if (int_max_str_digits <? List.length (filter is_digit acc))%nat
  then TBigInt
  else TScalar (JInt (int_of_digits (rev acc))).

Definition float_token (acc : list ascii) : token :=
  TScalar (JFloat (string_of_list_ascii (rev acc))).

(** The number read when the scan stops in state [st] with the characters
    [acc] behind it, and whether the scan stops at the end of that number.
    A dot without a digit after it, or an exponent mark without its digits,
    is no part of the number: the number ends before it, and the text from
    there on starts no token. A lone minus sign is no number. *)
Definition num_flush (st : num_state) (acc : list ascii)
  : option token * bool :=
  match st with
  | NZero | NInt => (Some (int_token acc), true)
  | NFrac | NExpDigits => (Some (float_token acc), true)
  | NMinus => (None, false)
  | NDot => (Some (int_token (tl acc)), false)
  | NExp f =>
      (Some (if f then float_token (tl acc) else int_token (tl acc)), false)
  | NExpSign f =>
      (Some (if f then float_token (tl (tl acc)) else int_token (tl (tl acc))),
       false)
  end.

(** A character met between tokens, [s] being the text from it on: the
    token it yields, if any, and the mode for the text after it. *)
Definition normal_step (c : ascii) (s : string)
  : option (option token * lex_mode) :=
  if is_json_space c then Some (None, LNormal)
  else if Ascii.eqb c "{"%char then Some (Some TLBrace, LNormal)
  else if Ascii.eqb c "}"%char then Some (Some TRBrace, LNormal)
  else if Ascii.eqb c "["%char then Some (Some TLBracket, LNormal)
  else if Ascii.eqb c "]"%char then Some (Some TRBracket, LNormal)
  else if Ascii.eqb c ":"%char then Some (Some TColon, LNormal)
  else if Ascii.eqb c ","%char then Some (Some TComma, LNormal)
  else if Ascii.eqb c dquote then Some (None, LString [])
  else if startswith s "true" then Some (Some (TScalar (JBool true)), LSkip 3 None)
  else if startswith s "false" then Some (Some (TScalar (JBool false)), LSkip 4 None)
  else if startswith s "null" then Some (Some (TScalar JNull), LSkip 3 None)
  else if startswith s "NaN" then Some (Some (TScalar (JFloat "NaN")), LSkip 2 None)
  else if startswith s "Infinity"
  then Some (Some (TScalar (JFloat "Infinity")), LSkip 7 None)
  else if startswith s "-Infinity"
  then Some (Some (TScalar (JFloat "-Infinity")), LSkip 8 None)
  else if Ascii.eqb c "-"%char then Some (None, LNumber NMinus [c])
  else if Ascii.eqb c "0"%char then Some (None, LNumber NZero [c])
  else if is_digit c then Some (None, LNumber NInt [c])
  else None.

Definition emit (t : option token) (ts : list token) : list token :=
  match t with
  | Some x => x :: ts
  | None => ts
  end.

(** The tokens of [s], up to its end or to the first place where it stops
    being a sequence of tokens. *)
Fixpoint lex (m : lex_mode) (s : string) : list token :=
  match s with
  | "" =>
      match m with
      | LNormal | LSkip O None => []
      | LNumber st acc =>
          let '(t, complete) := num_flush st acc in
          emit t (if complete then [] else [TError false])
      | _ => [TError true]
      end
  | String c r =>
      match m with
      | LSkip (S n) back => lex (LSkip n back) r
      | LSkip O (Some acc) | LString acc =>
          if Ascii.eqb c dquote
          then TScalar (JStr (string_of_list_ascii (rev acc))) :: lex LNormal r
          else if Ascii.eqb c backslash then lex (LEscape acc) r
          else if (code c <? 32)%nat then [TError true]
          else lex (LString (c :: acc)) r
      | LEscape acc =>
          if Ascii.eqb c "u"%char then
            match unicode_escape r with
            | Some (units, n) => lex (LSkip n (Some (rev units ++ acc)%list)) r
            | None => [TError true]
            end
          else
            match simple_escape c with
            | Some x => lex (LString (x :: acc)) r
            | None => [TError true]
            end
      | LNumber st acc =>
          match num_step st c with
          | Some st' => lex (LNumber st' (c :: acc)) r
          | None =>
              let '(t, complete) := num_flush st acc in
              emit t (if complete then
                        match normal_step c s with
                        | Some (t', m') => emit t' (lex m' r)
                        | None => [TError false]
                        end
                      else [TError false])
          end
      | LNormal | LSkip O None =>
          match normal_step c s with
          | Some (t, m') => emit t (lex m' r)
          | None => [TError false]
          end
      end
  end.

(** The containers being decoded around the current position: an array with
    its items so far (reversed), or an object with its members so far and the
    key whose value is being read. *)
Inductive frame : Type :=
  | FArr (items : list json)
  | FObj (members : list (string * json)) (key : string).

Inductive parse_state : Type :=
  | PValue (stack : list frame) (may_close : bool)
  | PKey (stack : list frame) (members : list (string * json)) (may_close : bool)
  | PColon (stack : list frame) (members : list (string * json)) (key : string)
  | PAfterItem (stack : list frame) (items : list json)
  | PAfterMember (stack : list frame) (members : list (string * json))
  | PDone (v : json).

(** A complete value [v] goes to the container around it. *)
Definition deliver (v : json) (stack : list frame) : parse_state :=
  match stack with
  | [] => PDone v
  | FArr items :: up => PAfterItem up (v :: items)
  | FObj members key :: up => PAfterMember up (dict_set members key v)
  end.

(** The exception of a syntax error that the scanner raises itself, with
    [depth] containers open: building the [JSONDecodeError] takes three
    more entries of the recursion limit, and it is a [RecursionError] when
    they are not left. *)
Definition scanner_error (nesting depth : nat) : exn :=
  if (nesting <? depth + 3)%nat then RecursionError else JSONDecodeError.

(** The exception where the text does not go on as the state [st] needs: a
    token that does not fit, or the end of the text. Where a value is
    expected and none starts, and after the value of the whole text, the
    error is raised by the Python part of the decoder, outside the
    recursion of the scanner; an error inside a string, or inside an array
    or an object where something else than a value is expected, is raised
    by the scanner, with the containers around it and that one open. *)
Definition misfit (nesting : nat) (st : parse_state) (in_string : bool) : exn :=
  match st with
  | PValue stack _ =>
      if in_string then scanner_error nesting (List.length stack)
      else JSONDecodeError
  | PKey stack _ _ | PColon stack _ _
  | PAfterItem stack _ | PAfterMember stack _ =>
      scanner_error nesting (S (List.length stack))
  | PDone _ => JSONDecodeError
  end.

(** One token. Where a value is expected the [stack] holds every container
    open around it: opening one more is a [RecursionError] when [nesting]
    of them are open already, and an integer literal over the limit of
    digits is a [ValueError]. Anywhere else the token is not read for its
    value. *)
Definition parse_step (nesting : nat) (st : parse_state) (t : token)
  : result parse_state :=
  match st, t with
  | PValue stack _, TScalar v => Ok (deliver v stack)
  | PValue _ _, TBigInt => Raise ValueError
  | PValue stack _, TLBracket =>
      if (nesting <=? List.length stack)%nat then Raise RecursionError
      else Ok (PValue (FArr [] :: stack) true)
  | PValue stack _, TLBrace =>
      if (nesting <=? List.length stack)%nat then Raise RecursionError
      else Ok (PKey stack [] true)
  | PValue (FArr [] :: up) true, TRBracket => Ok (deliver (JArr []) up)
  | PKey stack members _, TScalar (JStr k) => Ok (PColon stack members k)
  | PKey stack members true, TRBrace => Ok (deliver (JObj members) stack)
  | PColon stack members k, TColon => Ok (PValue (FObj members k :: stack) false)
  | PAfterItem stack items, TComma => Ok (PValue (FArr items :: stack) false)
  | PAfterItem stack items, TRBracket => Ok (deliver (JArr (rev items)) stack)
  | PAfterMember stack members, TComma => Ok (PKey stack members false)
  | PAfterMember stack members, TRBrace => Ok (deliver (JObj members) stack)
  | _, TError in_string => Raise (misfit nesting st in_string)
  | _, _ => Raise (misfit nesting st false)
  end.

Fixpoint parse_tokens (nesting : nat) (st : parse_state) (ts : list token)
  : result json :=
  match ts with
  | [] =>
      match st with
      | PDone v => Ok v
      | _ => Raise (misfit nesting st false)
      end
  | t :: r =>
      st' <- parse_step nesting st t ;;
      parse_tokens nesting st' r
  end.

(** The decoder where [nesting] containers can be open at a time. *)
Definition json_decode (nesting : nat) (s : string) : result json :=
  parse_tokens nesting (PValue [] false) (lex LNormal s).

(** The containers the decoder can open when [frames] Python frames are on
    the stack at the call of [json.loads]: the recursion limit is 1000, the
    decoder takes three frames for [loads], [decode] and [raw_decode] and
    one entry of the limit for the call of the scanner, and every container
    opened takes one more. *)
Definition nesting_allowance (frames : nat) : nat := 1000 - frames - 4.

(** The call [json.loads(clean_json_str)] in [get_events_from_email], three
    frames deep when the file is run as a script (the module, the main
    function and [get_events_from_email]): [json_decode text_nesting]. *)
Definition text_nesting : nat := nesting_allowance 3.

(** The call inside [response.json()], one frame deeper. *)
Definition body_nesting : nat := nesting_allowance 4.

(** [json.loads(s)] returns [v]. *)
Definition json_loads (s : string) : option json :=
  match json_decode text_nesting s with
  | Ok v => Some v
  | Raise _ => None
  end.

(* ================================================================= *)
(** ** Python operations on decoded values *)

(** [x[k]] for a [str] key. *)
Definition getitem_key (x : json) (k : string) : result json :=
  match x with
  | JObj ms =>
      match lookup k ms with
      | Some v => Ok v
      | None => Raise KeyError
      end
  | _ => Raise TypeError
  end.

(** [x[0]]. A decoded [dict] has only [str] keys, so the lookup of [0] in it
    is a [KeyError]; of a non-empty [str] only the fact that the result is a
    [str] matters to the programs. *)
Definition getitem_0 (x : json) : result json :=
  match x with
  | JArr (v :: _) => Ok v
  | JArr [] => Raise IndexError
  | JObj _ => Raise KeyError
  | JStr (String c _) => Ok (JStr (String c ""))
  | JStr "" => Raise IndexError
  | _ => Raise TypeError
  end.

(** [x.get(k, default)]: only a [dict] has the method. *)
Definition get_default (x : json) (k : string) (default : json) : result json :=
  match x with
  | JObj ms =>
      match lookup k ms with
      | Some v => Ok v
      | None => Ok default
      end
  | _ => Raise AttributeError
  end.

(** [k in x] for a [str] [k]: a key of a [dict], an item of a [list], a
    substring of a [str]; the other values are not containers. *)
Definition py_in (k : string) (x : json) : result bool :=
  match x with
  | JObj ms => Ok (has_key k ms)
  | JArr items =>
      Ok (existsb (fun v => match v with JStr s => String.eqb s k | _ => false end)
                  items)
  | JStr s => Ok (contains s k)
  | _ => Raise TypeError
  end.

(** The mantissa of a float lexeme holds a non-zero digit, or the lexeme is
    [NaN] or an infinity (underflow to zero is not modelled). *)
Fixpoint float_nonzero (lexeme : string) : bool :=
  match lexeme with
  | "" => false
  | String c r =>
      if (Ascii.eqb c "e"%char || Ascii.eqb c "E"%char)%bool then false
      else if ((49 <=? code c)%nat && (code c <=? 57)%nat)%bool then true
      else if (Ascii.eqb c "N"%char || Ascii.eqb c "I"%char)%bool then true
      else float_nonzero r
  end.

(** The truth value of [x] in [if x:]. *)
Definition truthy (x : json) : bool :=
  match x with
  | JNull => false
  | JBool b => b
  | JInt n => negb (n =? 0)%Z
  | JFloat lexeme => float_nonzero lexeme
  | JStr s => negb (is_empty s)
  | JArr items => match items with [] => false | _ => true end
  | JObj ms => match ms with [] => false | _ => true end
  end.

Fixpoint chars (s : string) : list json :=
  match s with
  | "" => []
  | String c r => JStr (String c "") :: chars r
  end.

(** What [for v in x:] iterates over: the items of a [list], the keys of a
    [dict], the characters of a [str] (here: its code units). *)
Definition iterate (x : json) : result (list json) :=
  match x with
  | JArr items => Ok items
  | JObj ms => Ok (map (fun kv => JStr (fst kv)) ms)
  | JStr s => Ok (chars s)
  | _ => Raise TypeError
  end.

(* ================================================================= *)
(** ** [str.format] with keyword arguments

    The template is read from left to right: a doubled brace is a literal
    brace, a single opening brace starts a replacement field that runs to the
    next closing brace, a single closing brace outside a field is a
    [ValueError]. A field is a keyword name; conversions, format
    specifications and attribute or index access, which the template of this
    program does not use, are not modelled. The values substituted are not
    read again. *)

Inductive fmt_mode : Type :=
  | FLiteral
  | FField (name : list ascii).   (* the name so far, reversed *)

Definition field_value (kwargs : list (string * string)) (name : string)
  : result string :=
  if forallb is_digit (list_ascii_of_string name) then Raise IndexError
  else
    match find (fun kv => String.eqb (fst kv) name) kwargs with
    | Some kv => Ok (snd kv)
    | None => Raise KeyError
    end.

Definition prepend (c : ascii) (r : result string) : result string :=
  s <- r ;; Ok (String c s).

Fixpoint format_from (kwargs : list (string * string)) (m : fmt_mode)
  (template : string) : result string :=
  match template with
  | "" =>
      match m with
      | FLiteral => Ok ""
      | FField _ => Raise ValueError
      end
  | String c r =>
      match m with
      | FLiteral =>
          if Ascii.eqb c "{"%char then
            match r with
            | String c' r' =>
                if Ascii.eqb c' "{"%char
                then prepend c (format_from kwargs FLiteral r')
                else format_from kwargs (FField []) r
            | "" => format_from kwargs (FField []) r
            end
          else if Ascii.eqb c "}"%char then
            match r with
            | String c' r' =>
                if Ascii.eqb c' "}"%char
                then prepend c (format_from kwargs FLiteral r')
                else Raise ValueError
            | "" => Raise ValueError
            end
          else prepend c (format_from kwargs FLiteral r)
      | FField name =>
          if Ascii.eqb c "}"%char then
            v <- field_value kwargs (string_of_list_ascii (rev name)) ;;
            rest <- format_from kwargs FLiteral r ;;
            Ok (v ++ rest)
          else format_from kwargs (FField (c :: name)) r
      end
  end.

Definition format (template : string) (kwargs : list (string * string))
  : result string :=
  format_from kwargs FLiteral template.

(* ================================================================= *)
(** ** Dates *)

(** A calendar date, as [datetime.now()] gives the day of the run. *)
Record date : Type := { d_year : nat; d_month : nat; d_day : nat }.

Definition digit_char (n : nat) : ascii := ascii_of_nat (48 + n mod 10).

Definition pad2 (n : nat) : string :=
  String (digit_char (n / 10)) (String (digit_char n) "").

Definition pad4 (n : nat) : string :=
  String (digit_char (n / 1000)) (String (digit_char (n / 100))
    (String (digit_char (n / 10)) (String (digit_char n) ""))).

(** [d.strftime('%Y-%m-%d')] for a year of four digits. *)
Definition strftime_Ymd (d : date) : string :=
  pad4 (d_year d) ++ "-" ++ pad2 (d_month d) ++ "-" ++ pad2 (d_day d).

(* ================================================================= *)
(** ** The normalized message and the prompt

    [fetch_emails] yields a [dict] with the keys [from], [to], [subject] and
    [body]; a header that is absent is [None], which [str] turns into the
    text [None]. *)

Record email_data : Type := {
  from_ : option string;
  to_ : option string;
  subject : string;
  body : string
}.

Definition str_of (x : option string) : string :=
  match x with
  | Some s => s
  | None => "None"
  end.

(** [GEMINI_PROMPT_TEMPLATE], the same text in both files: the literal
    before the date, the date of the day the module was loaded, and the
    literal after it. *)
Definition template_head : string :=
  "Abaixo está o conteúdo de um e-mail. Verifique se há possíveis reuniões, eventos, tarefas, entregas ou trabalhos que possam ser agendados. Somente considere se houver um horário e/ou dia especificado."
  ++ "Se houver, responda SOMENTE com um objeto JSON contendo uma lista de eventos. Cada evento deve ter 'start_datetime' (formato 'YYYY-MM-DDTHH:MM:SS-03:00') e 'summary' (descrição). "
  ++ "Se não houver eventos, responda com um JSON com uma lista vazia: {{"
  ++ text "'eventos'" ++ ": []}}. "
  ++ "Considere a data de hoje como: ".

Definition template_tail : string :=
  ". Segue o e-mail:" ++ nl ++ nl
  ++ "De: {de}" ++ nl ++ "Para: {para}" ++ nl ++ "Assunto: {assunto}" ++ nl ++ nl
  ++ "Conteúdo:" ++ nl ++ "{conteudo}".

Definition GEMINI_PROMPT_TEMPLATE (today : date) : string :=
  template_head ++ strftime_Ymd today ++ template_tail.

(** The prompt of [get_events_from_email], the same call in both files. *)
Definition build_prompt (today : date) (e : email_data) : result string :=
  format (GEMINI_PROMPT_TEMPLATE today)
    [("de", str_of (from_ e)); ("para", str_of (to_ e));
     ("assunto", subject e); ("conteudo", body e)].

(* ================================================================= *)
(** ** [datetime]: parsing, adding a duration, printing

    [datetime.fromisoformat], [datetime + timedelta] and
    [datetime.isoformat] after the reference implementation of Python 3.7
    to 3.10, which reads back what [isoformat] writes:
    [YYYY-MM-DD], then optionally any one separator and
    [HH[:MM[:SS[.fff[fff]]]]], then optionally a sign and
    [HH:MM[:SS[.ffffff]]]. Later versions of Python accept further ISO-8601
    forms; the model refuses them. *)

Open Scope Z_scope.

Record datetime : Type := {
  year : Z; month : Z; day : Z;
  hour : Z; minute : Z; second : Z; microsecond : Z;
  utcoffset : option Z   (* microseconds east of UTC; [None]: naive *)
}.

Definition is_leap (y : Z) : bool :=
  (y mod 4 =? 0) && (negb (y mod 100 =? 0) || (y mod 400 =? 0)).

Definition days_in_month (y m : Z) : Z :=
  if m =? 2 then (if is_leap y then 29 else 28)
  else if (m =? 4) || (m =? 6) || (m =? 9) || (m =? 11) then 30
  else 31.

Definition days_before_month (y m : Z) : Z :=
  nth (Z.to_nat m) [0; 0; 31; 59; 90; 120; 151; 181; 212; 243; 273; 304; 334] 0
  + (if (2 <? m) && is_leap y then 1 else 0).

Definition days_before_year (y : Z) : Z :=
  let p := y - 1 in p * 365 + p / 4 - p / 100 + p / 400.

(** [date.toordinal()]: day 1 is 0001-01-01. *)
Definition ymd2ord (y m d : Z) : Z :=
  days_before_year y + days_before_month y m + d.

Definition MAXORDINAL : Z := 3652059.

(** [date.fromordinal(n)]. *)
Definition ord2ymd (n : Z) : Z * Z * Z :=
  let n := n - 1 in
  let n400 := n / 146097 in
  let n := n mod 146097 in
  let n100 := n / 36524 in
  let n := n mod 36524 in
  let n4 := n / 1461 in
  let n := n mod 1461 in
  let n1 := n / 365 in
  let n := n mod 365 in
  let y := n400 * 400 + 1 + n100 * 100 + n4 * 4 + n1 in
  if (n1 =? 4) || (n100 =? 4) then (y - 1, 12, 31)
  else
    let leapyear := (n1 =? 3) && (negb (n4 =? 24) || (n100 =? 3)) in
    let m := (n + 50) / 32 in
    let preceding :=
      nth (Z.to_nat m) [0; 0; 31; 59; 90; 120; 151; 181; 212; 243; 273; 304; 334] 0
      + (if (2 <? m) && leapyear then 1 else 0) in
    if n <? preceding then
      let m' := m - 1 in
      let dim := if (m' =? 2) && leapyear then 29 else days_in_month 1 m' in
      (y, m', n - (preceding - dim) + 1)
    else (y, m, n - preceding + 1).

(** The checks of the [datetime] and [timezone] constructors. *)
Definition valid_datetime (dt : datetime) : bool :=
  (1 <=? year dt) && (year dt <=? 9999)
  && (1 <=? month dt) && (month dt <=? 12)
  && (1 <=? day dt) && (day dt <=? days_in_month (year dt) (month dt))
  && (0 <=? hour dt) && (hour dt <=? 23)
  && (0 <=? minute dt) && (minute dt <=? 59)
  && (0 <=? second dt) && (second dt <=? 59)
  && (0 <=? microsecond dt) && (microsecond dt <=? 999999)
  && match utcoffset dt with
     | None => true
     | Some off => (-86400000000 <? off) && (off <? 86400000000)
     end.

Definition digits_val (s : string) : option Z :=
  if negb (is_empty s) && forallb is_digit (list_ascii_of_string s)
  then Some (fold_left (fun a d => a * 10 + digit_val d) (list_ascii_of_string s) 0)
  else None.

(** Two digits at the head of [s] and the text after them. *)
Definition two_digits (s : string) : option (Z * string) :=
  match s with
  | String a (String b r) =>
      if (is_digit a && is_digit b)%bool
      then Some (digit_val a * 10 + digit_val b, r)
      else None
  | _ => None
  end.

Definition expect (c : ascii) (s : string) : option string :=
  match s with
  | String c' r => if Ascii.eqb c c' then Some r else None
  | "" => None
  end.

(** [HH[:MM[:SS[.fff[fff]]]]], the whole of [s]. *)
Definition parse_hh_mm_ss_ff (s : string) : option (Z * Z * Z * Z) :=
  match two_digits s with
  | None => None
  | Some (hh, r) =>
      if is_empty r then Some (hh, 0, 0, 0) else
      match expect ":" r with
      | None => None
      | Some r =>
          match two_digits r with
          | None => None
          | Some (mm, r) =>
              if is_empty r then Some (hh, mm, 0, 0) else
              match expect ":" r with
              | None => None
              | Some r =>
                  match two_digits r with
                  | None => None
                  | Some (ss, r) =>
                      if is_empty r then Some (hh, mm, ss, 0) else
                      match expect "." r with
                      | None => None
                      | Some f =>
                          match digits_val f with
                          | None => None
                          | Some v =>
                              if (String.length f =? 6)%nat then Some (hh, mm, ss, v)
                              else if (String.length f =? 3)%nat
                              then Some (hh, mm, ss, v * 1000)
                              else None
                          end
                      end
                  end
              end
          end
      end
  end.

(** The text before the first [c] in [s], and the text after it. *)
Fixpoint split_at (c : ascii) (s : string) : option (string * string) :=
  match s with
  | "" => None
  | String x r =>
      if Ascii.eqb x c then Some ("", r)
      else
        match split_at c r with
        | Some (a, b) => Some (String x a, b)
        | None => None
        end
  end.

(** The time of day and the offset written in [tstr]: the offset starts at
    the first minus sign, or at the first plus sign when there is no minus. *)
Definition parse_isoformat_time (tstr : string)
  : option (Z * Z * Z * Z * option Z) :=
  let tz :=
    match split_at "-" tstr with
    | Some (a, b) => Some (a, -1, b)
    | None =>
        match split_at "+" tstr with
        | Some (a, b) => Some (a, 1, b)
        | None => None
        end
    end in
  match tz with
  | None =>
      match parse_hh_mm_ss_ff tstr with
      | Some t => Some (t, None)
      | None => None
      end
  | Some (timestr, sign, tzstr) =>
      match parse_hh_mm_ss_ff timestr with
      | None => None
      | Some t =>
          let n := String.length tzstr in
          if ((n =? 5) || (n =? 8) || (n =? 15))%nat then
            match parse_hh_mm_ss_ff tzstr with
            | Some (h, m, sec, us) =>
                Some (t, Some (sign * ((h * 3600 + m * 60 + sec) * 1000000 + us)))
            | None => None
            end
          else None
      end
  end.

Definition parse_isoformat_date (dstr : string) : option (Z * Z * Z) :=
  match digits_val (substring 0 4 dstr), expect "-" (drop 4 dstr) with
  | Some y, Some r =>
      match two_digits r with
      | Some (m, r) =>
          match expect "-" r with
          | Some r =>
              match two_digits r with
              | Some (d, r) => if is_empty r then Some (y, m, d) else None
              | None => None
              end
          | None => None
          end
      | None => None
      end
  | _, _ => None
  end.

(** [datetime.fromisoformat(s)]; [None] stands for [ValueError]. *)
Definition fromisoformat (s : string) : option datetime :=
  match parse_isoformat_date (substring 0 10 s) with
  | None => None
  | Some (y, m, d) =>
      let time :=
        if (String.length s <=? 10)%nat then Some (0, 0, 0, 0, None)
        else parse_isoformat_time (drop 11 s) in
      match time with
      | None => None
      | Some (hh, mm, ss, us, off) =>
          let dt := {| year := y; month := m; day := d;
                       hour := hh; minute := mm; second := ss;
                       microsecond := us; utcoffset := off |} in
          if valid_datetime dt then Some dt else None
      end
  end.

(** [dt + timedelta(hours=h)]: through the ordinal of the day, as Python
    does; [None] stands for [OverflowError]. The offset is kept. *)
Definition add_hours (dt : datetime) (h : Z) : option datetime :=
  let secs := hour dt * 3600 + minute dt * 60 + second dt + h * 3600 in
  let days := ymd2ord (year dt) (month dt) (day dt) + secs / 86400 in
  let secs := secs mod 86400 in
  if (0 <? days) && (days <=? MAXORDINAL) then
    let '(y, m, d) := ord2ymd days in
    Some {| year := y; month := m; day := d;
            hour := secs / 3600; minute := (secs mod 3600) / 60;
            second := secs mod 60;
            microsecond := microsecond dt; utcoffset := utcoffset dt |}
  else None.

Definition zdigit (n : Z) : ascii := ascii_of_nat (48 + Z.to_nat (n mod 10)).

Definition zpad2 (n : Z) : string :=
  String (zdigit (n / 10)) (String (zdigit n) "").

Definition zpad4 (n : Z) : string :=
  String (zdigit (n / 1000)) (String (zdigit (n / 100)) (zpad2 n)).

Definition zpad6 (n : Z) : string :=
  String (zdigit (n / 100000)) (String (zdigit (n / 10000)) (zpad4 n)).

(** The offset as [isoformat] writes it. *)
Definition format_offset (off : Z) : string :=
  let sign := if off <? 0 then "-" else "+" in
  let a := Z.abs off in
  let secs := a / 1000000 in
  let us := a mod 1000000 in
  let ss := secs mod 60 in
  (sign ++ zpad2 (secs / 3600) ++ ":" ++ zpad2 ((secs mod 3600) / 60)
   ++ (if ((ss =? 0) && (us =? 0))%Z then "" else ":" ++ zpad2 ss)
   ++ (if (us =? 0)%Z then "" else "." ++ zpad6 us))%string.

(** [dt.isoformat()]. *)
Definition isoformat (dt : datetime) : string :=
  (zpad4 (year dt) ++ "-" ++ zpad2 (month dt) ++ "-" ++ zpad2 (day dt)
   ++ "T" ++ zpad2 (hour dt) ++ ":" ++ zpad2 (minute dt) ++ ":"
   ++ zpad2 (second dt)
   ++ (if (microsecond dt =? 0)%Z then "" else "." ++ zpad6 (microsecond dt))
   ++ match utcoffset dt with
      | None => ""
      | Some off => format_offset off
      end)%string.

(** The instant a datetime denotes, in microseconds since the start of
    0001-01-01 UTC (for a naive datetime: on its own clock). *)
Definition instant (dt : datetime) : Z :=
  ((ymd2ord (year dt) (month dt) (day dt) - 1) * 86400
   + hour dt * 3600 + minute dt * 60 + second dt) * 1000000
  + microsecond dt
  - match utcoffset dt with Some off => off | None => 0 end.

Close Scope Z_scope.

(* ================================================================= *)
(** ** Effects and collaborators *)

Inductive level : Type := INFO | WARNING | ERROR.

(** The body of the calendar event submitted to the calendar service. *)
Record event_time : Type := { dateTime : json; timeZone : string }.

Record calendar_event : Type := {
  ev_summary : json;
  ev_location : string;
  ev_description : json;
  ev_start : event_time;
  ev_end : event_time
}.

(** What a run does, in order. A log record keeps the fixed text of its
    message, up to the first value formatted into it.
    [CreateCalendarEvent ev b] is no action of its own: it marks that the
    call [create_calendar_event(ev)] made by the main function has returned
    [b]. *)
Inductive effect : Type :=
  | Log (lvl : level) (message : string)
  | Post (prompt : string) (timeout : Z)     (* requests.post to the Gemini URL *)
  | Sleep (seconds : Z)                      (* time.sleep *)
  | ImapConnect (host : string)              (* imaplib.IMAP4_SSL(host) *)
  | ImapLogin (user password : option string)
  | CalendarClient            (* the service-account credentials and build() *)
  | CalendarInsert (event : calendar_event)  (* events().insert(...).execute() *)
  | CreateCalendarEvent (event_info : json) (returned : bool).

(** The answer of the inference service to one request: [requests.post]
    raises (connection error, timeout), or a response arrives. *)
Inductive http_outcome : Type :=
  | PostRaises
  | Response (status : Z) (content : string).

(** The inference service during one call of [get_events_from_email]: the
    answer to the request number [n], counted from 0. *)
Definition gemini_service : Type := nat -> http_outcome.

(** The mailbox during one call of [fetch_emails]: whether the connection
    raises, and what the rest of the [try] block (login, select, search,
    fetch, mark as seen, logout) returns or raises for given credentials.
    The log records written inside that part are not modelled. *)
Record mailbox : Type := {
  connect : option exn;
  session : option string -> option string -> result (list email_data)
}.

(** The calendar service during one call of [create_calendar_event]: whether
    reading the credentials or building the client raises, and whether the
    insertion of a given event raises. *)
Record calendar_call : Type := {
  client : option exn;
  insert : calendar_event -> option exn
}.

(** The settings read from the environment when the module is loaded
    ([os.getenv] gives [None] for a variable that is not set), and the day
    of the run. *)
Record config : Type := {
  EMAIL_USER : option string;
  EMAIL_PASS : option string;
  today : date
}.

Definition IMAP_HOST : string := "imap.gmail.com".

(** [not x] for a value of [os.getenv]: true for [None] and for the empty
    string. *)
Definition not_set (x : option string) : bool :=
  match x with
  | None => true
  | Some s => is_empty s
  end.

(** [response.raise_for_status()]: [HTTPError] for a status from 400 to 599. *)
Definition raise_for_status (status : Z) : result unit :=
  if ((400 <=? status) && (status <? 600))%Z then Raise HTTPError else Ok tt.

(** [response.json()]: of the exceptions of the decoder it turns
    [json.JSONDecodeError] into that of [requests]; the others pass. *)
Definition response_json (content : string) : result json :=
  match json_decode body_nesting content with
  | Ok j => Ok j
  | Raise JSONDecodeError => Raise RequestsJSONDecodeError
  | Raise e => Raise e
  end.

(** [j["candidates"][0]["content"]["parts"][0]["text"]]. *)
Definition envelope_text (j : json) : result json :=
  a <- getitem_key j "candidates" ;;
  b <- getitem_0 a ;;
  c <- getitem_key b "content" ;;
  d <- getitem_key c "parts" ;;
  e <- getitem_0 d ;;
  getitem_key e "text".

(** [json.loads(s)] in [get_events_from_email]. *)
Definition loads (s : string) : result json := json_decode text_nesting s.

(** The test of the main function on a candidate:
    ['start_datetime' in event and 'summary' in event]. *)
Definition event_validator (event : json) : result bool :=
  a <- py_in "start_datetime" event ;;
  if a then py_in "summary" event else Ok false.

Definition empty_list : json := JArr [].

(* ================================================================= *)
(** ** Agendator.py: the continuous loop *)

Module Agendator.

(** [fetch_emails], lines 55-121. *)
Definition fetch_emails (cfg : config) (mb : mailbox)
  : list email_data * list effect :=
  let started := [Log INFO "Conectando ao servidor IMAP..."; ImapConnect IMAP_HOST] in
  match connect mb with
  | Some _ => ([], started ++ [Log ERROR "Erro ao buscar e-mails: "])%list
  | None =>
      let logged := (started ++ [ImapLogin (EMAIL_USER cfg) (EMAIL_PASS cfg)])%list in
      match session mb (EMAIL_USER cfg) (EMAIL_PASS cfg) with
      | Ok emails => (emails, logged)
      | Raise _ => ([], logged ++ [Log ERROR "Erro ao buscar e-mails: "])%list
      end
  end.

(** Line 152:
    [raw_response.strip().replace('```json', '').replace('```', '')]. *)
Definition clean_json_str (raw_response : string) : string :=
  remove_all "```" (remove_all "```json" (strip raw_response)).

(** Lines 152-160: from the cleaning of the raw text to the [return] of
    the candidates. Only a [str] has the method [strip]. *)
Definition clean_and_parse (raw_response : json) : list effect * result json :=
  match raw_response with
  | JStr s =>
      let clean := clean_json_str s in
      if is_empty clean
      then ([Log WARNING "Resposta da IA estava vazia ou inválida."], Ok empty_list)
      else ([], event_data <- loads clean ;; get_default event_data "eventos" empty_list)
  | _ => ([], Raise AttributeError)
  end.

(** Lines 145-160: the [try] block. *)
Definition try_block (prompt : string) (service : gemini_service)
  : list effect * result json :=
  let sent := [Log INFO "Enviando e-mail (Assunto: '"; Post prompt 20] in
  match service 0 with
  | PostRaises => (sent, Raise RequestException)
  | Response status content =>
      match (_ <- raise_for_status status ;;
             j <- response_json content ;;
             envelope_text j) with
      | Raise e => (sent, Raise e)
      | Ok raw_response =>
          let '(tr, r) := clean_and_parse raw_response in
          (sent ++ [Log INFO "Resposta da IA: "] ++ tr, r)%list
      end
  end.

(** [get_events_from_email], lines 125-169. *)
Definition get_events_from_email (cfg : config) (service : gemini_service)
  (email : email_data) : list effect * result json :=
  match build_prompt (today cfg) email with
  | Raise e => ([], Raise e)
  | Ok prompt =>
      match try_block prompt service with
      | (tr, Ok v) => (tr, Ok v)
      | (tr, Raise e) =>
          if is_RequestException e
          then (tr ++ [Log ERROR "Erro na requisição para Gemini: "], Ok empty_list)%list
          else
            match e with
            | KeyError | IndexError =>
                (tr ++ [Log ERROR "Resposta da API Gemini com estrutura inesperada. Resposta: '"],
                 Ok empty_list)%list
            | JSONDecodeError =>
                (tr ++ [Log ERROR "Não foi possível decodificar o JSON da resposta da API. Resposta: '"],
                 Ok empty_list)%list
            | _ => (tr, Raise e)
            end
      end
  end.

(** The event built at lines 181-193. *)
Definition build_event (event_info : json) : result calendar_event :=
  summary <- getitem_key event_info "summary" ;;
  description <- getitem_key event_info "summary" ;;
  start_dt <- getitem_key event_info "start_datetime" ;;
  end_dt <- getitem_key event_info "start_datetime" ;;
  Ok {| ev_summary := summary;
        ev_location := "Remoto";
        ev_description := description;
        ev_start := {| dateTime := start_dt; timeZone := "America/Sao_Paulo" |};
        ev_end := {| dateTime := end_dt; timeZone := "America/Sao_Paulo" |} |}.

(** [create_calendar_event], lines 172-200. *)
Definition create_calendar_event (cal : calendar_call) (event_info : json)
  : bool * list effect :=
  let failed tr := (false, tr ++ [Log ERROR "Erro ao criar evento no Google Calendar: "])%list in
  match getitem_key event_info "summary" with
  | Raise _ => failed []
  | Ok _ =>
      let tr := [Log INFO "Criando evento no calendário: '"; CalendarClient] in
      match client cal with
      | Some _ => failed tr
      | None =>
          match build_event event_info with
          | Raise _ => failed tr
          | Ok event =>
              match insert cal event with
              | Some _ => failed (tr ++ [CalendarInsert event])%list
              | None =>
                  (true, tr ++ [CalendarInsert event;
                                Log INFO "Evento criado com sucesso! Link: "])%list
              end
          end
      end
  end.

(** Lines 212-216: the loop over the candidates of one message. The
    call number [k] of [create_calendar_event] picks the state of the
    calendar service; the result holds the number of the next call. *)
Fixpoint for_events (calendar : nat -> calendar_call) (k : nat)
  (events : list json) : list effect * nat * result unit :=
  match events with
  | [] => ([], k, Ok tt)
  | event :: rest =>
      match event_validator event with
      | Raise e => ([], k, Raise e)
      | Ok true =>
          let '(ok, tr) := create_calendar_event (calendar k) event in
          let '(tr', k', r) := for_events calendar (S k) rest in
          (tr ++ [CreateCalendarEvent event ok] ++ tr', k', r)%list
      | Ok false =>
          let '(tr', k', r) := for_events calendar k rest in
          (Log WARNING "Evento malformado recebido da IA: " :: tr', k', r)
      end
  end.

(** Lines 211-216: [if events:] and the loop. *)
Definition process_events (calendar : nat -> calendar_call) (k : nat)
  (events : json) : list effect * nat * result unit :=
  if truthy events then
    match iterate events with
    | Raise e => ([], k, Raise e)
    | Ok items => for_events calendar k items
    end
  else ([], k, Ok tt).

(** Lines 209-216: the loop over the messages; [i] numbers them. *)
Fixpoint for_emails (cfg : config) (gemini : nat -> gemini_service)
  (calendar : nat -> calendar_call) (i k : nat) (emails : list email_data)
  : list effect * nat * result unit :=
  match emails with
  | [] => ([], k, Ok tt)
  | email :: rest =>
      match get_events_from_email cfg (gemini i) email with
      | (tr, Raise e) => (tr, k, Raise e)
      | (tr, Ok events) =>
          match process_events calendar k events with
          | (tr1, k1, Raise e) => (tr ++ tr1, k1, Raise e)%list
          | (tr1, k1, Ok _) =>
              let '(tr2, k2, r) := for_emails cfg gemini calendar (S i) k1 rest in
              (tr ++ tr1 ++ tr2, k2, r)%list
          end
      end
  end.

(** One turn of the [while True] loop of [main_loop], lines 207-219;
    [main_loop] repeats it until the process is interrupted. *)
Definition main_loop_turn (cfg : config) (mb : mailbox)
  (gemini : nat -> gemini_service) (calendar : nat -> calendar_call) (k : nat)
  : list effect * nat * result unit :=
  let '(emails, tr) := fetch_emails cfg mb in
  match for_emails cfg gemini calendar 0 k emails with
  | (tr1, k1, Raise e) => (tr ++ tr1, k1, Raise e)%list
  | (tr1, k1, Ok _) =>
      (tr ++ tr1 ++ [Log INFO "Aguardando 60 segundos para a próxima verificação...";
                     Sleep 60], k1, Ok tt)%list
  end.

End Agendator.

(* ================================================================= *)
(** ** AgendatorActions.py: the single-shot run *)

Module AgendatorActions.

(** [fetch_emails], lines 53-119. *)
Definition fetch_emails (cfg : config) (mb : mailbox)
  : list email_data * list effect :=
  if (not_set (EMAIL_USER cfg) || not_set (EMAIL_PASS cfg))%bool then
    ([], [Log ERROR "Credenciais de e-mail (EMAIL_USER ou EMAIL_PASS) não foram definidas."])
  else
    let started := [Log INFO "Conectando ao servidor IMAP..."; ImapConnect IMAP_HOST] in
    match connect mb with
    | Some _ => ([], started ++ [Log ERROR "Erro ao buscar e-mails: "])%list
    | None =>
        let logged := (started ++ [ImapLogin (EMAIL_USER cfg) (EMAIL_PASS cfg)])%list in
        match session mb (EMAIL_USER cfg) (EMAIL_PASS cfg) with
        | Ok emails => (emails, logged)
        | Raise _ => ([], logged ++ [Log ERROR "Erro ao buscar e-mails: "])%list
        end
    end.

Definition max_retries : nat := 2.

(** Lines 149-154: the cleaning of the raw text. *)
Definition clean_json_str (raw_response : string) : string :=
  let clean := strip raw_response in
  let clean := if startswith clean "```json" then drop 7 clean else clean in
  let clean := if endswith clean "```" then drop_last 3 clean else clean in
  strip clean.

(** Lines 149-161: from the cleaning of the raw text to the [return] of
    the candidates. Only a [str] has the method [strip]. *)
Definition clean_and_parse (raw_response : json) : list effect * result json :=
  match raw_response with
  | JStr s =>
      let clean := clean_json_str s in
      if is_empty clean
      then ([Log WARNING "Resposta da IA estava vazia após a limpeza."], Ok empty_list)
      else ([], event_data <- loads clean ;; get_default event_data "eventos" empty_list)
  | _ => ([], Raise AttributeError)
  end.

(** Lines 140-161: the [try] block of one attempt. [raw_response] is the
    local variable of that name: [None] as long as it was not assigned. *)
Definition try_block (prompt : string) (answer : http_outcome)
  (raw_response : option json) : list effect * option json * result json :=
  let sent := [Log INFO "Enviando e-mail (Assunto: '"; Post prompt 30] in
  match answer with
  | PostRaises => (sent, raw_response, Raise RequestException)
  | Response status content =>
      match (_ <- raise_for_status status ;;
             j <- response_json content ;;
             envelope_text j) with
      | Raise e => (sent, raw_response, Raise e)
      | Ok raw =>
          let '(tr, r) := clean_and_parse raw in
          (sent ++ [Log INFO "Resposta da IA: "] ++ tr, Some raw, r)%list
      end
  end.

(** Lines 138-173: the loop [for attempt in range(max_retries)] with the
    handlers of its [try] block, and the [return []] after it. The second
    handler formats [raw_response] into its message: when the variable was
    never assigned that raises [UnboundLocalError], which leaves the
    function. *)
Fixpoint for_attempts (prompt : string) (service : gemini_service)
  (raw_response : option json) (attempts : list nat)
  : list effect * result json :=
  match attempts with
  | [] => ([], Ok empty_list)
  | attempt :: rest =>
      match try_block prompt (service attempt) raw_response with
      | (tr, _, Ok v) => (tr, Ok v)
      | (tr, raw_response, Raise e) =>
          if is_RequestException e then
            let warned := (tr ++ [Log WARNING "Erro na requisição para Gemini na tentativa "])%list in
            if (attempt <? max_retries - 1)%nat then
              let '(tr', r) := for_attempts prompt service raw_response rest in
              (warned ++ [Sleep 5] ++ tr', r)%list
            else
              (warned ++ [Log ERROR "Todas as tentativas de conexão com a API Gemini falharam."],
               Ok empty_list)%list
          else if is_lookup_or_decode_error e then
            match raw_response with
            | None => (tr, Raise UnboundLocalError)
            | Some _ =>
                (tr ++ [Log ERROR "Não foi possível processar a resposta da API Gemini: "],
                 Ok empty_list)%list
            end
          else (tr, Raise e)
      end
  end.

(** [get_events_from_email], lines 123-173. *)
Definition get_events_from_email (cfg : config) (service : gemini_service)
  (email : email_data) : list effect * result json :=
  match build_prompt (today cfg) email with
  | Raise e => ([], Raise e)
  | Ok prompt => for_attempts prompt service None (seq 0 max_retries)
  end.

(** [datetime.fromisoformat(x)]: [TypeError] unless [x] is a [str]. *)
Definition parse_start (x : json) : result datetime :=
  match x with
  | JStr s =>
      match fromisoformat s with
      | Some dt => Ok dt
      | None => Raise ValueError
      end
  | _ => Raise TypeError
  end.

(** [start_time + timedelta(hours=1)]. *)
Definition plus_one_hour (dt : datetime) : result datetime :=
  match add_hours dt 1 with
  | Some dt' => Ok dt'
  | None => Raise OverflowError
  end.

(** Lines 186-197: the end of the event and the event. *)
Definition build_event (event_info : json) : result calendar_event :=
  start_time_str <- getitem_key event_info "start_datetime" ;;
  start_time <- parse_start start_time_str ;;
  end_time <- plus_one_hour start_time ;;
  let end_time_str := isoformat end_time in
  summary <- getitem_key event_info "summary" ;;
  description <- get_default event_info "summary" (JStr "") ;;
  Ok {| ev_summary := summary;
        ev_location := "Remoto";
        ev_description := description;
        ev_start := {| dateTime := start_time_str; timeZone := "America/Sao_Paulo" |};
        ev_end := {| dateTime := JStr end_time_str; timeZone := "America/Sao_Paulo" |} |}.

(** [create_calendar_event], lines 177-204. *)
Definition create_calendar_event (cal : calendar_call) (event_info : json)
  : bool * list effect :=
  let failed tr := (false, tr ++ [Log ERROR "Erro ao criar evento no Google Calendar: "])%list in
  match getitem_key event_info "summary" with
  | Raise _ => failed []
  | Ok _ =>
      let tr := [Log INFO "Criando evento no calendário: '"; CalendarClient] in
      match client cal with
      | Some _ => failed tr
      | None =>
          match build_event event_info with
          | Raise _ => failed tr
          | Ok event =>
              match insert cal event with
              | Some _ => failed (tr ++ [CalendarInsert event])%list
              | None =>
                  (true, tr ++ [CalendarInsert event;
                                Log INFO "Evento criado com sucesso! Link: "])%list
              end
          end
      end
  end.

(** Lines 215-219: the loop over the candidates of one message. The
    call number [k] of [create_calendar_event] picks the state of the
    calendar service; the result holds the number of the next call. *)
Fixpoint for_events (calendar : nat -> calendar_call) (k : nat)
  (events : list json) : list effect * nat * result unit :=
  match events with
  | [] => ([], k, Ok tt)
  | event :: rest =>
      match event_validator event with
      | Raise e => ([], k, Raise e)
      | Ok true =>
          let '(ok, tr) := create_calendar_event (calendar k) event in
          let '(tr', k', r) := for_events calendar (S k) rest in
          (tr ++ [CreateCalendarEvent event ok] ++ tr', k', r)%list
      | Ok false =>
          let '(tr', k', r) := for_events calendar k rest in
          (Log WARNING "Evento malformado recebido da IA: " :: tr', k', r)
      end
  end.

(** Lines 214-219: [if events:] and the loop. *)
Definition process_events (calendar : nat -> calendar_call) (k : nat)
  (events : json) : list effect * nat * result unit :=
  if truthy events then
    match iterate events with
    | Raise e => ([], k, Raise e)
    | Ok items => for_events calendar k items
    end
  else ([], k, Ok tt).

(** Lines 212-219: the loop over the messages; [i] numbers them. *)
Fixpoint for_emails (cfg : config) (gemini : nat -> gemini_service)
  (calendar : nat -> calendar_call) (i k : nat) (emails : list email_data)
  : list effect * nat * result unit :=
  match emails with
  | [] => ([], k, Ok tt)
  | email :: rest =>
      match get_events_from_email cfg (gemini i) email with
      | (tr, Raise e) => (tr, k, Raise e)
      | (tr, Ok events) =>
          match process_events calendar k events with
          | (tr1, k1, Raise e) => (tr ++ tr1, k1, Raise e)%list
          | (tr1, k1, Ok _) =>
              let '(tr2, k2, r) := for_emails cfg gemini calendar (S i) k1 rest in
              (tr ++ tr1 ++ tr2, k2, r)%list
          end
      end
  end.

(** [main], lines 207-221. *)
Definition main (cfg : config) (mb : mailbox)
  (gemini : nat -> gemini_service) (calendar : nat -> calendar_call)
  : list effect * result unit :=
  let start := [Log INFO "🚀 Agendador Inteligente iniciando uma verificação..."] in
  let '(emails, tr) := fetch_emails cfg mb in
  match for_emails cfg gemini calendar 0 0 emails with
  | (tr1, _, Raise e) => (start ++ tr ++ tr1, Raise e)%list
  | (tr1, _, Ok _) =>
      (start ++ tr ++ tr1 ++ [Log INFO "✅ Verificação concluída."], Ok tt)%list
  end.

End AgendatorActions.

(* ================================================================= *)
(** ** Observations on a run *)

Definition is_post (e : effect) : bool :=
  match e with Post _ _ => true | _ => false end.

(** The number of requests sent to the inference service. *)
Definition posts (tr : list effect) : nat := List.length (filter is_post tr).

(** The durations slept, in order. *)
Definition sleeps (tr : list effect) : list Z :=
  flat_map (fun e => match e with Sleep n => [n] | _ => [] end) tr.

(** The events submitted to the calendar service, in order. *)
Definition inserted (tr : list effect) : list calendar_event :=
  flat_map (fun e => match e with CalendarInsert ev => [ev] | _ => [] end) tr.

(** The calls of [create_calendar_event] made by the main function, each
    with what it returned. *)
Definition reports (tr : list effect) : list (json * bool) :=
  flat_map (fun e => match e with
                     | CreateCalendarEvent ev b => [(ev, b)]
                     | _ => []
                     end) tr.

Definition is_connect (e : effect) : bool :=
  match e with ImapConnect _ => true | _ => false end.

(** The number of records a run logged at a level. *)
Definition logged (lvl : level) (tr : list effect) : nat :=
  List.length (filter (fun e => match e, lvl with
                                | Log INFO _, INFO => true
                                | Log WARNING _, WARNING => true
                                | Log ERROR _, ERROR => true
                                | _, _ => false
                                end) tr).

(** The placeholders of the prompt template. *)
Definition placeholders : list string :=
  ["{de}"; "{para}"; "{assunto}"; "{conteudo}"].

(** [template_head] once formatted: the doubled braces of the JSON example
    are single. *)
Definition rendered_head : string :=
  "Abaixo está o conteúdo de um e-mail. Verifique se há possíveis reuniões, eventos, tarefas, entregas ou trabalhos que possam ser agendados. Somente considere se houver um horário e/ou dia especificado."
  ++ "Se houver, responda SOMENTE com um objeto JSON contendo uma lista de eventos. Cada evento deve ter 'start_datetime' (formato 'YYYY-MM-DDTHH:MM:SS-03:00') e 'summary' (descrição). "
  ++ "Se não houver eventos, responda com um JSON com uma lista vazia: {"
  ++ text "'eventos'" ++ ": []}. "
  ++ "Considere a data de hoje como: ".

(** The text of the prompt before the first value formatted into it. *)
Definition prompt_head (today : date) : string :=
  rendered_head ++ strftime_Ymd today
  ++ (". Segue o e-mail:" ++ nl ++ nl ++ "De: ").

(** Every opening brace of [s] stands right before a double quote. *)
Fixpoint lbrace_before_dquote (s : string) : bool :=
  match s with
  | "" => true
  | String c r =>
      (if Ascii.eqb c "{"%char
       then match r with
            | String c' _ => Ascii.eqb c' dquote
            | "" => false
            end
       else true) && lbrace_before_dquote r
  end.

Fixpoint no_brace (s : string) : bool :=
  match s with
  | "" => true
  | String c r =>
      negb (Ascii.eqb c "{"%char) && negb (Ascii.eqb c "}"%char) && no_brace r
  end.

(** [p] stands in [s] at the offset [n] (for a [p] that is not empty). *)
Definition occurs_at (p s : string) (n : nat) : bool :=
  startswith (drop n s) p.

(** The [len] characters from the offset [n] on lie inside the value [v]
    that starts at the offset [o]. *)
Definition within (n len o : nat) (v : string) : Prop :=
  o <= n /\ n + len <= o + String.length v.

(* ================================================================= *)
(** ** Conditions the properties are stated with *)

(** The answer [o] is a response with a success status whose envelope holds
    the model output [raw]. *)
Definition answers_text (o : http_outcome) (raw : json) : Prop :=
  exists status content j,
    o = Response status content
    /\ raise_for_status status = Ok tt
    /\ response_json content = Ok j
    /\ envelope_text j = Ok raw.

(** The answer [o] is a transport failure or a response with an error
    status. *)
Definition fails (o : http_outcome) : Prop :=
  o = PostRaises
  \/ exists status content,
       o = Response status content /\ raise_for_status status = Raise HTTPError.

(** The candidate passes the test of the main function. *)
Definition validated (event : json) : Prop := event_validator event = Ok true.

(** The code-fence marker. *)
Definition fence : string := "```".

(** Every character of [s] is ASCII whitespace. *)
Fixpoint blank (s : string) : bool :=
  match s with
  | "" => true
  | String c r => is_space c && blank r
  end.

(** [s] starts with a whitespace character. *)
Definition space_led (s : string) : bool :=
  match s with
  | "" => false
  | String a r =>
      is_space a
      || match r with
         | "" => false
         | String b r2 =>
             is_space2 a b
             || match r2 with
                | "" => false
                | String c _ => is_space3 a b c
                end
         end
  end.

(** The days before each month of a common year, as [ord2ymd] and
    [days_before_month] tabulate them. *)
Definition month_table : list Z :=
  [0; 0; 31; 59; 90; 120; 151; 181; 212; 243; 273; 304; 334]%Z.

(** The month and the day of the day number [r] (from 0) of a year, as
    [ord2ymd] finds them, are a date of the calendar and count back to
    [r]. *)
Definition month_day_check (leap : bool) (r : Z) : bool :=
  (let m := (r + 50) / 32 in
   let preceding := nth (Z.to_nat m) month_table 0
                    + (if (2 <? m) && leap then 1 else 0) in
   let '(m', d) :=
     if r <? preceding then
       let m' := m - 1 in
       let dim := if (m' =? 2) && leap then 29 else days_in_month 1 m' in
       (m', r - (preceding - dim) + 1)
     else (m, r - preceding + 1) in
   (nth (Z.to_nat m') month_table 0 + (if (2 <? m') && leap then 1 else 0) + d
    =? r + 1)
   && (1 <=? m') && (m' <=? 12) && (1 <=? d)
   && (d <=? (if (m' =? 2) && leap then 29 else days_in_month 1 m')))%Z.

(** Every character of [s] is whitespace of JSON: a space, a tab, a line
    feed or a carriage return. *)
Fixpoint json_blank (s : string) : bool :=
  match s with
  | "" => true
  | String c r => is_json_space c && json_blank r
  end.

(** The characters the scanner has read ahead are in the text. *)
Definition read_ahead_fits (m : lex_mode) (s : string) : Prop :=
  match m with
  | LSkip n _ => n <= String.length s
  | _ => True
  end.

(** What [get_events_from_email] is to return when the model's output,
    freed of its fences, is [payload]: the empty list for an empty payload
    and for one that [json.loads] refuses with [json.JSONDecodeError], the
    value under ["eventos"] of the decoded payload otherwise (with the
    empty list as default), and any other exception as it is. *)
Definition candidates_of_payload (payload : string) : result json :=
  if is_empty payload then Ok empty_list
  else
    match loads payload with
    | Ok event_data => get_default event_data "eventos" empty_list
    | Raise JSONDecodeError => Ok empty_list
    | Raise e => Raise e
    end.

(* ================================================================= *)
(** ** Inputs of the examples *)

(** A configuration with both mailbox credentials, and one without a user
    name. *)
Definition cfg0 : config :=
  {| EMAIL_USER := Some "user@example.com"; EMAIL_PASS := Some "secret";
     today := {| d_year := 2025; d_month := 3; d_day := 1 |} |}.

Definition no_user : config :=
  {| EMAIL_USER := None; EMAIL_PASS := Some "secret";
     today := {| d_year := 2025; d_month := 3; d_day := 1 |} |}.

(** A message. *)
Definition email0 : email_data :=
  {| from_ := Some "ana@example.com"; to_ := Some "rui@example.com";
     subject := "Reunião"; body := "Amanhã às 10h." |}.

(** A mailbox that holds that message. *)
Definition mailbox_up : mailbox :=
  {| connect := None; session := fun _ _ => Ok [email0] |}.

(** The hexadecimal digit of [n], for [n] below 16. *)
Definition hex_digit (n : nat) : ascii :=
  if (n <? 10)%nat then ascii_of_nat (48 + n) else ascii_of_nat (87 + n).

(** The characters of [s] as they stand inside a JSON string. *)
Fixpoint json_escape (s : string) : string :=
  match s with
  | "" => ""
  | String c r =>
      (if Ascii.eqb c dquote then String backslash (String dquote "")
       else if Ascii.eqb c backslash then String backslash (String backslash "")
       else if Ascii.eqb c newline then String backslash "n"
       else if (code c <? 32)%nat
       then String backslash "u00"
            ++ String (hex_digit (code c / 16)) (String (hex_digit (code c mod 16)) "")
       else String c "")
      ++ json_escape r
  end.

(** The body of a response of the inference service whose model output is
    the text [t]. *)
Definition envelope (t : string) : string :=
  text "{'candidates': [{'content': {'parts': [{'text': '"
  ++ json_escape t ++ text "'}]}}]}".

(** An inference service that answers every request with the text [t]; one
    that answers none; one that answers from the second request on. *)
Definition service_text (t : string) : gemini_service :=
  fun _ => Response 200 (envelope t).

Definition all_requests_fail : gemini_service := fun _ => PostRaises.

Definition second_request_answers : gemini_service :=
  fun n => match n with
           | 0 => PostRaises
           | _ => Response 200 (envelope (text "{'eventos': [7]}"))
           end.

(** A calendar service that accepts every event, and one that refuses every
    event. *)
Definition calendar_up : calendar_call :=
  {| client := None; insert := fun _ => None |}.

Definition calendar_down : calendar_call :=
  {| client := None; insert := fun _ => Some CollaboratorError |}.

(** The calendar service fails at the second call only. *)
Definition second_call_fails : nat -> calendar_call :=
  fun k => match k with
           | 1 => calendar_down
           | _ => calendar_up
           end.

(** The candidate [{"start_datetime": start, "summary": summary}]. *)
Definition candidate (start summary : string) : json :=
  JObj [("start_datetime", JStr start); ("summary", JStr summary)].

(** A candidate whose two values are [null]. *)
Definition null_candidate : json :=
  JObj [("start_datetime", JNull); ("summary", JNull)].

Definition batch_of_three : list json :=
  [candidate "2025-03-01T09:00:00-03:00" "A";
   candidate "2025-03-02T09:00:00-03:00" "B";
   candidate "2025-03-03T09:00:00-03:00" "C"].

(** The start of the example of the specification,
    2025-03-01T09:00:00-03:00. *)
Definition example_start : datetime :=
  {| year := 2025; month := 3; day := 1; hour := 9; minute := 0; second := 0;
     microsecond := 0; utcoffset := Some (-10800000000)%Z |}.

(** [n] times the digit 1, and [n] opening brackets. *)
Fixpoint ones (n : nat) : string :=
  match n with
  | O => ""
  | S k => String "1" (ones k)
  end.

Fixpoint brackets (n : nat) : string :=
  match n with
  | O => ""
  | S k => String "[" (brackets k)
  end.

(** An opening bracket and an integer of 4301 digits. *)
Definition oversized_integer : string := String "[" (ones 4301).

(** A model output whose summary holds code fences. *)
Definition fence_inside : string :=
  text "{'eventos': [{'start_datetime': '2025-01-01T10:00:00-03:00', 'summary': 'Rever ```make``` na ata'}]}".

(** The fenced answers of the specification: one candidate, and an empty
    list with blanks around the fences. *)
Definition fenced_example : string :=
  "```json" ++ nl
  ++ text "{'eventos':[{'start_datetime':'2025-01-01T10:00:00-03:00','summary':'Sync'}]}"
  ++ nl ++ "```".

Definition fenced_empty_list : string :=
  " ```json" ++ nl ++ text "{'eventos': []}" ++ nl ++ "``` " ++ nl.

(** A payload between plain fences, without [json] after the opening one. *)
Definition plain_fenced : string :=
  "```" ++ nl
  ++ text "{'eventos':[{'start_datetime':'2025-01-01T10:00:00-03:00','summary':'Sync'}]}"
  ++ nl ++ "```".

(** A payload between fences with a form feed before it. *)
Definition form_feed_fenced : string :=
  "```json" ++ String "012" (text "{'eventos':[{'start_datetime':'2025-01-01T10:00:00-03:00','summary':'Sync'}]}")
  ++ nl ++ "```".

(* ================================================================= *)
(** ** Conditions on what a call submits *)

(** The event [e] carries what [create_calendar_event] copies from the
    candidate [event_info]: its summary, also as description, its start, the
    fixed location and the fixed time zone. *)
Definition submission_of (event_info : json) (e : calendar_event) : Prop :=
  getitem_key event_info "summary" = Ok (ev_summary e)
  /\ ev_description e = ev_summary e
  /\ getitem_key event_info "start_datetime" = Ok (dateTime (ev_start e))
  /\ ev_location e = "Remoto"
  /\ timeZone (ev_start e) = "America/Sao_Paulo"
  /\ timeZone (ev_end e) = "America/Sao_Paulo".

(** What a call of [create_calendar_event] that returned [ok] and left the
    effects [tr] did with the candidate: either nothing was submitted and
    the call returned [False], or one event was submitted and the call
    returned whether the service took it. One error is logged exactly when
    the call returns [False]. *)
Definition one_submission (cal : calendar_call) (event_info : json)
  (ok : bool) (tr : list effect) : Prop :=
  logged ERROR tr = (if ok then 0 else 1)
  /\ ((inserted tr = [] /\ ok = false)
      \/ exists e, inserted tr = [e] /\ submission_of event_info e
                   /\ ok = match insert cal e with None => true | Some _ => false end).

(** The start of [e] is a text that [datetime.fromisoformat] reads, and its
    end is the ISO text of the datetime one hour later. *)
Definition hour_long (e : calendar_event) : Prop :=
  exists s dt dt',
    dateTime (ev_start e) = JStr s
    /\ fromisoformat s = Some dt
    /\ add_hours dt 1 = Some dt'
    /\ dateTime (ev_end e) = JStr (isoformat dt')
    /\ (instant dt' = instant dt + 3600 * 1000000)%Z.

(** The event of one hour that a candidate with the start [start] and the
    summary [summary] stands for, [finish] being the text of its end. *)
Definition hour_event (start summary finish : string) : calendar_event :=
  {| ev_summary := JStr summary;
     ev_location := "Remoto";
     ev_description := JStr summary;
     ev_start := {| dateTime := JStr start; timeZone := "America/Sao_Paulo" |};
     ev_end := {| dateTime := JStr finish; timeZone := "America/Sao_Paulo" |} |}.

(** A timed candidate is a triple of a start, a summary and an end, the end
    being the ISO text of the datetime one hour after the start. *)
Definition timed (c : string * string * string) : Prop :=
  let '(start, _, finish) := c in
  exists dt dt',
    fromisoformat start = Some dt
    /\ add_hours dt 1 = Some dt'
    /\ finish = isoformat dt'.

Definition candidate_of (c : string * string * string) : json :=
  let '(start, summary, _) := c in candidate start summary.

(** The calendar service, in the state [cal], takes the event [e]: the
    client is built and the insertion returns. *)
Definition accepted (cal : calendar_call) (e : calendar_event) : bool :=
  match client cal, insert cal e with
  | None, None => true
  | _, _ => false
  end.

(** What a batch of timed candidates is to leave when the calls of the
    calendar service start at number [k]: one report for every candidate,
    [True] exactly when the service took its event at its own call, and one
    insertion request for every candidate whose client was built. *)
Fixpoint outcomes (calendar : nat -> calendar_call) (k : nat)
  (batch : list (string * string * string)) : list (json * bool) :=
  match batch with
  | [] => []
  | (start, summary, finish) :: rest =>
      (candidate start summary,
       accepted (calendar k) (hour_event start summary finish))
      :: outcomes calendar (S k) rest
  end.

Fixpoint submissions (calendar : nat -> calendar_call) (k : nat)
  (batch : list (string * string * string)) : list calendar_event :=
  match batch with
  | [] => []
  | (start, summary, finish) :: rest =>
      match client (calendar k) with
      | None => hour_event start summary finish :: submissions calendar (S k) rest
      | Some _ => submissions calendar (S k) rest
      end
  end.

(** The batch of three of the examples with the ends of its events. *)
Definition timed_batch_of_three : list (string * string * string) :=
  [("2025-03-01T09:00:00-03:00", "A", "2025-03-01T10:00:00-03:00");
   ("2025-03-02T09:00:00-03:00", "B", "2025-03-02T10:00:00-03:00");
   ("2025-03-03T09:00:00-03:00", "C", "2025-03-03T10:00:00-03:00")].

(** A value that is not a [list]. *)
Definition not_a_list (x : json) : bool :=
  match x with JArr _ => false | _ => true end.

Definition is_text (x : json) : bool :=
  match x with JStr _ => true | _ => false end.

(* ================================================================= *)
(** ** The mailbox session of [fetch_emails]

    The [try] block of [fetch_emails] in detail: the calls made on the IMAP
    connection, in order, and the messages read from what the server hands
    out. The server, the parser of [email] and the codecs are not part of
    the program: a server is given by what each of its calls returns or
    raises, a message by what the program reads of it, and the codecs by a
    function from bytes and a codec name to the text, or to the exception
    [bytes.decode] raises. *)

Module Imap.

(** A value that is a [str] or a [bytes]. *)
Inductive str_or_bytes : Type :=
  | PyStr (s : string)
  | PyBytes (b : string).

(** A part of a message, as [walk] yields it. [get_payload] is
    [get_payload(decode=True)]: the bytes, or [None]. *)
Record part : Type := {
  get_content_type : string;
  get_payload : option string;
  get_content_charset : option string
}.

(** A parsed message. [Subject] is [decode_header(msg["Subject"])[0]], a
    pair of the text or the bytes and the name of the encoding, or the
    exception the expression raises ([decode_header] raises [TypeError] when
    the header is absent). [as_part] is the message itself where the program
    calls [get_payload] and [get_content_charset] on it. *)
Record message : Type := {
  Subject : result (str_or_bytes * option string);
  From : option string;
  To : option string;
  is_multipart : bool;
  walk : list part;
  as_part : part
}.

(** An item of the data of a [fetch] response: a tuple, whose second
    component parses to a message, or anything else. *)
Inductive response_part : Type :=
  | Tuple (msg : message)
  | NotTuple.

(** The server during one call of [fetch_emails]. *)
Record server : Type := {
  connect : result unit;                                 (* IMAP4_SSL(host) *)
  login : option string -> option string -> result unit;
  select : result unit;
  search : string -> result (string * list (option string));
  fetch : string -> result (string * list response_part);
  store : string -> result unit;
  logout : result unit
}.

(** [b.decode(codec)]. *)
Definition codecs : Type := string -> string -> result string.

(** The calls on the connection and the log records, in order. A log record
    keeps the fixed text of its message, up to the first value formatted
    into it. *)
Inductive event : Type :=
  | ILog (lvl : level) (message : string)
  | Connect (host : string)
  | Login (user password : option string)
  | Select (mailbox : string) (readonly : bool)
  | Search (criteria : string)
  | Fetch (message_set message_parts : string)
  | Store (message_set command flags : string)
  | Logout.

(** A computation that leaves events behind and returns or raises. *)
Definition session (A : Type) : Type := list event * result A.

Definition sret {A : Type} (a : A) : session A := ([], Ok a).

Definition sbind {A B : Type} (m : session A) (k : A -> session B)
  : session B :=
  match m with
  | (tr, Ok a) => let '(tr', r) := k a in ((tr ++ tr')%list, r)
  | (tr, Raise e) => (tr, Raise e)
  end.

Notation "x <~ m ;; k" := (sbind m (fun x => k))
  (at level 61, m at next level, right associativity).

(** A call on the connection, a log record, a computation without effect. *)
Definition call {A : Type} (ev : event) (r : result A) : session A := ([ev], r).

Definition log (lvl : level) (message : string) : session unit :=
  ([ILog lvl message], Ok tt).

Definition lift {A : Type} (r : result A) : session A := ([], r).

(** [x or 'utf-8'] for a codec name that may be [None]. *)
Definition or_utf8 (x : option string) : string :=
  match x with
  | Some s => if is_empty s then "utf-8" else s
  | None => "utf-8"
  end.

(** [p.get_payload(decode=True).decode(codec)]: [None] has no method
    [decode]. *)
Definition decode_payload (decode : codecs) (p : part) (codec : string)
  : result string :=
  match get_payload p with
  | None => Raise AttributeError
  | Some b => decode b codec
  end.

(** The loop over [msg.walk()]: the text of the first part of type
    [text/plain] whose payload decodes; [body] stays empty if there is
    none. [codec_of] is the codec the variant decodes a part with. *)
Fixpoint first_text_plain (decode : codecs) (codec_of : part -> string)
  (parts : list part) : string :=
  match parts with
  | [] => ""
  | p :: rest =>
      if String.eqb (get_content_type p) "text/plain" then
        match decode_payload decode p (codec_of p) with
        | Ok s => s
        | Raise _ => first_text_plain decode codec_of rest
        end
      else first_text_plain decode codec_of rest
  end.

(** The value of [body] before it is stripped. *)
Definition body_of (decode : codecs) (codec_of : part -> string)
  (msg : message) : string :=
  if is_multipart msg then first_text_plain decode codec_of (walk msg)
  else
    match decode_payload decode (as_part msg) (codec_of (as_part msg)) with
    | Ok s => s
    | Raise _ => ""
    end.

(** From the parsed message to the dictionary appended to
    [fetched_emails]. *)
Definition read_message (decode : codecs) (codec_of : part -> string)
  (msg : message) : result email_data :=
  chunk <- Subject msg ;;
  subject <- match fst chunk with
             | PyBytes b => decode b (or_utf8 (snd chunk))
             | PyStr s => Ok s
             end ;;
  Ok {| from_ := From msg; to_ := To msg; subject := subject;
        body := strip (body_of decode codec_of msg) |}.

(** The loop over the data of one [fetch] response. *)
Fixpoint for_response_parts (decode : codecs) (codec_of : part -> string)
  (msg_data : list response_part) (fetched_emails : list email_data)
  : result (list email_data) :=
  match msg_data with
  | [] => Ok fetched_emails
  | Tuple msg :: rest =>
      m <- read_message decode codec_of msg ;;
      for_response_parts decode codec_of rest (fetched_emails ++ [m])%list
  | NotTuple :: rest =>
      for_response_parts decode codec_of rest fetched_emails
  end.

(** The loop over the identifiers: fetch, read, mark as seen. *)
Fixpoint for_email_ids (decode : codecs) (codec_of : part -> string)
  (srv : server) (email_ids : list string) (fetched_emails : list email_data)
  : session (list email_data) :=
  match email_ids with
  | [] => sret fetched_emails
  | email_id :: rest =>
      answer <~ call (Fetch email_id "(RFC822)") (fetch srv email_id) ;;
      if String.eqb (fst answer) "OK" then
        fetched_emails <~ lift (for_response_parts decode codec_of (snd answer)
                                  fetched_emails) ;;
        _ <~ call (Store email_id "+FLAGS" "\Seen") (store srv email_id) ;;
        for_email_ids decode codec_of srv rest fetched_emails
      else for_email_ids decode codec_of srv rest fetched_emails
  end.

(** The whitespace of [bytes.split()]. *)
Definition is_bytes_space (c : ascii) : bool :=
  (((9 <=? code c)%nat && (code c <=? 13)%nat) || (code c =? 32)%nat)%bool.

(** [b.split()]: the maximal runs without whitespace; [word] is the run
    being read. *)
Fixpoint split_from (word : string) (b : string) : list string :=
  match b with
  | "" => if is_empty word then [] else [word]
  | String c r =>
      if is_bytes_space c then
        if is_empty word then split_from "" r else word :: split_from "" r
      else split_from (word ++ String c "") r
  end.

Definition split (b : string) : list string := split_from "" b.

(** [dt - timedelta(days=1)]: through the ordinal of the day;
    [OverflowError] before the first day. *)
Definition minus_one_day (dt : datetime) : result datetime :=
  let days := (ymd2ord (year dt) (month dt) (day dt) - 1)%Z in
  if ((0 <? days) && (days <=? MAXORDINAL))%Z then
    let '(y, m, d) := ord2ymd days in
    Ok {| year := y; month := m; day := d;
          hour := hour dt; minute := minute dt; second := second dt;
          microsecond := microsecond dt; utcoffset := utcoffset dt |}
  else Raise OverflowError.

(** [%b] in the C locale, which the program does not change. *)
Definition month_abbr (m : Z) : string :=
  nth (Z.to_nat m)
      [""; "Jan"; "Feb"; "Mar"; "Apr"; "May"; "Jun";
       "Jul"; "Aug"; "Sep"; "Oct"; "Nov"; "Dec"] "".

(** [dt.strftime("%d-%b-%Y")] for a year of four digits. *)
Definition strftime_dbY (dt : datetime) : string :=
  zpad2 (day dt) ++ "-" ++ month_abbr (month dt) ++ "-" ++ zpad4 (year dt).

(** [x[0]] for a list. *)
Definition first {A : Type} (x : list A) : result A :=
  match x with
  | a :: _ => Ok a
  | [] => Raise IndexError
  end.

(** [not x] for a [bytes] or [None]. *)
Definition falsy (x : option string) : bool :=
  match x with
  | Some b => is_empty b
  | None => true
  end.

(** The [try] block once the connection is made: from [login] to the
    [return] of the messages. [now] is [datetime.now()]. *)
Definition logged_in (decode : codecs) (codec_of : part -> string)
  (user password : option string) (now : datetime) (srv : server)
  : session (list email_data) :=
  _ <~ call (Login user password) (login srv user password) ;;
  _ <~ call (Select "inbox" false) (select srv) ;;
  date_since <~ lift (minus_one_day now) ;;
  let date_str := strftime_dbY date_since in
  let search_criteria :=
    "(UNSEEN SINCE " ++ String dquote date_str ++ String dquote ")" in
  answer <~ call (Search search_criteria) (search srv search_criteria) ;;
  let status := fst answer in
  let messages := snd answer in
  nothing <~ lift (if negb (String.eqb status "OK") then Ok true
                   else m <- first messages ;; Ok (falsy m)) ;;
  if nothing : bool then
    _ <~ log INFO "Nenhum e-mail novo encontrado nas últimas 24 horas." ;;
    _ <~ call Logout (logout srv) ;;
    sret []
  else
    email_ids <~ lift (m <- first messages ;;
                       match m with
                       | Some b => Ok (split b)
                       | None => Raise AttributeError
                       end) ;;
    _ <~ log INFO "Encontrado(s) " ;;
    fetched_emails <~ for_email_ids decode codec_of srv email_ids [] ;;
    _ <~ call Logout (logout srv) ;;
    sret fetched_emails.

(** The body of the [try] statement. *)
Definition try_block (decode : codecs) (codec_of : part -> string)
  (cfg : config) (now : datetime) (srv : server)
  : session (list email_data) :=
  _ <~ log INFO "Conectando ao servidor IMAP..." ;;
  _ <~ call (Connect IMAP_HOST) (connect srv) ;;
  logged_in decode codec_of (EMAIL_USER cfg) (EMAIL_PASS cfg) now srv.

(** The [try] statement: any exception is logged and the result is the
    empty list. *)
Definition try_except (decode : codecs) (codec_of : part -> string)
  (cfg : config) (now : datetime) (srv : server)
  : list email_data * list event :=
  match try_block decode codec_of cfg now srv with
  | (tr, Ok fetched_emails) => (fetched_emails, tr)
  | (tr, Raise _) => ([], tr ++ [ILog ERROR "Erro ao buscar e-mails: "])%list
  end.

(** Agendator.py, lines 55-121: every payload is decoded with the default
    codec of [bytes.decode]. *)
Module Agendator.

Definition fetch_emails (decode : codecs) (cfg : config) (now : datetime)
  (srv : server) : list email_data * list event :=
  try_except decode (fun _ => "utf-8") cfg now srv.

End Agendator.

(** AgendatorActions.py, lines 53-119: the credentials are checked first,
    and a payload is decoded with the charset its part declares. *)
Module AgendatorActions.

Definition fetch_emails (decode : codecs) (cfg : config) (now : datetime)
  (srv : server) : list email_data * list event :=
  if (not_set (EMAIL_USER cfg) || not_set (EMAIL_PASS cfg))%bool then
    ([], [ILog ERROR "Credenciais de e-mail (EMAIL_USER ou EMAIL_PASS) não foram definidas."])
  else try_except decode (fun p => or_utf8 (get_content_charset p)) cfg now srv.

End AgendatorActions.

(** The identifiers marked as seen, and the identifiers fetched, in order. *)
Definition stored (tr : list event) : list string :=
  flat_map (fun e => match e with Store i _ _ => [i] | _ => [] end) tr.

Definition fetched (tr : list event) : list string :=
  flat_map (fun e => match e with Fetch i _ => [i] | _ => [] end) tr.

(** The criteria searched with. *)
Definition searches (tr : list event) : list string :=
  flat_map (fun e => match e with Search c => [c] | _ => [] end) tr.

Definition errors (tr : list event) : nat :=
  List.length (filter (fun e => match e with ILog ERROR _ => true | _ => false end) tr).

Definition logouts (tr : list event) : nat :=
  List.length (filter (fun e => match e with Logout => true | _ => false end) tr).

End Imap.

(* ================================================================= *)
(** ** Conditions on a mailbox session *)

(** The server answers the fetch of [email_id] with the status [OK]. *)
Definition fetch_is_ok (srv : Imap.server) (email_id : string) : bool :=
  match Imap.fetch srv email_id with
  | Ok answer => String.eqb (fst answer) "OK"
  | Raise _ => false
  end.

(** The messages among the data of the fetch of [email_id]. *)
Definition messages_of (srv : Imap.server) (email_id : string)
  : list Imap.message :=
  match Imap.fetch srv email_id with
  | Ok answer =>
      if String.eqb (fst answer) "OK" then
        flat_map (fun p => match p with
                           | Imap.Tuple msg => [msg]
                           | Imap.NotTuple => []
                           end) (snd answer)
      else []
  | Raise _ => []
  end.

(** No part that the program reads of [msg] declares a charset. *)
Definition no_charset (msg : Imap.message) : bool :=
  (forallb (fun p => Imap.falsy (Imap.get_content_charset p)) (Imap.walk msg)
   && Imap.falsy (Imap.get_content_charset (Imap.as_part msg)))%bool.

(** The marks follow the fetches: the identifiers fetched with the status
    [OK] are the identifiers marked as seen, in order, but for the last one
    when the session failed before marking it; and when no error was logged
    the result holds one message for each message of the responses, each
    with a stripped body. *)
Definition marks_follow_fetches (srv : Imap.server)
  (emails : list email_data) (tr : list Imap.event) : Prop :=
  (exists pending,
     filter (fetch_is_ok srv) (Imap.fetched tr)
     = (Imap.stored tr ++ pending)%list
     /\ List.length pending <= 1
     /\ (Imap.errors tr = 0 -> pending = []))
  /\ (Imap.errors tr = 0 ->
      List.length emails
      = List.length (flat_map (messages_of srv) (Imap.fetched tr)))
  /\ Forall (fun m => strip (body m) = body m) emails.

(** A session logs at most one error. When it logs one, it returns no
    message, and it has not closed the connection unless the failure is that
    of [logout] itself; when it logs none, it has closed the connection
    once. *)
Definition fails_as_a_whole (srv : Imap.server)
  (emails : list email_data) (tr : list Imap.event) : Prop :=
  Imap.errors tr <= 1
  /\ (Imap.errors tr = 1 ->
      emails = [] /\ (Imap.logout srv = Ok tt -> Imap.logouts tr = 0))
  /\ (Imap.errors tr = 0 -> Imap.logouts tr = 1).

(** The criterion [c] asks for the unseen messages since the day before
    [now]: the date it names is that of the instant 24 hours before [now]. *)
Definition since_the_day_before (now : datetime) (c : string) : Prop :=
  exists d,
    Imap.minus_one_day now = Ok d
    /\ c = "(UNSEEN SINCE " ++ String dquote (Imap.strftime_dbY d)
           ++ String dquote ")"
    /\ (instant d = instant now - 86400 * 1000000)%Z
    /\ (1 <= month d <= 12)%Z
    /\ (1 <= day d <= days_in_month (year d) (month d))%Z.

(** The mailbox of the run, as the main functions see it, when the server
    is [srv]. *)
Definition as_mailbox (decode : Imap.codecs)
  (codec_of : Imap.part -> string) (now : datetime) (srv : Imap.server)
  : mailbox :=
  {| connect := match Imap.connect srv with
                | Ok _ => None
                | Raise e => Some e
                end;
     session := fun user password =>
       snd (Imap.logged_in decode codec_of user password now srv) |}.

(* ================================================================= *)
(** ** A server for the examples *)

(** The morning of 2025-03-01. *)
Definition now0 : datetime :=
  {| year := 2025; month := 3; day := 1; hour := 8; minute := 0; second := 0;
     microsecond := 0; utcoffset := None |}.

(** The UTF-8 encoding of the character whose ISO-8859-1 code is [c]. *)
Definition latin1_char (c : ascii) : string :=
  if (code c <? 128)%nat then String c ""
  else String (ascii_of_nat (192 + code c / 64))
         (String (ascii_of_nat (128 + code c mod 64)) "").

Fixpoint latin1_text (b : string) : string :=
  match b with
  | "" => ""
  | String c r => latin1_char c ++ latin1_text r
  end.

(** Codecs for the examples: [utf-8] on bytes below 128, which it leaves
    as they are, and [iso-8859-1]. On other bytes the example codec for
    [utf-8] fails, as the real one does on a byte above 127 that no
    continuation byte follows; other names are unknown codecs, a
    [LookupError], of which [KeyError] is a kind. *)
Definition toy_codecs : Imap.codecs :=
  fun b codec =>
    if String.eqb codec "utf-8" then
      if forallb (fun c => (code c <? 128)%nat) (list_ascii_of_string b)
      then Ok b else Raise ValueError
    else if String.eqb codec "iso-8859-1" then Ok (latin1_text b)
    else Raise KeyError.

(** The bytes of [café] in ISO-8859-1. *)
Definition latin1_cafe : string := "caf" ++ String (ascii_of_nat 233) "".

(** A message of one part, with a subject, a payload and the charset its
    content type declares; and a message without a subject. *)
Definition plain_message (subject payload : string) (charset : option string)
  : Imap.message :=
  {| Imap.Subject := Ok (Imap.PyStr subject, None);
     Imap.From := Some "ana@example.com";
     Imap.To := Some "rui@example.com";
     Imap.is_multipart := false;
     Imap.walk := [];
     Imap.as_part := {| Imap.get_content_type := "text/plain";
                        Imap.get_payload := Some payload;
                        Imap.get_content_charset := charset |} |}.

Definition no_subject : Imap.message :=
  {| Imap.Subject := Raise TypeError;
     Imap.From := Some "ana@example.com";
     Imap.To := None;
     Imap.is_multipart := false;
     Imap.walk := [];
     Imap.as_part := {| Imap.get_content_type := "text/plain";
                        Imap.get_payload := Some "Sexta, 18h.";
                        Imap.get_content_charset := None |} |}.

(** A server that finds the identifiers 1 and 2, answers the fetch of 1
    with one message and the fetch of 2 with [second]. *)
Definition two_ids_server
  (second : result (string * list Imap.response_part)) : Imap.server :=
  {| Imap.connect := Ok tt;
     Imap.login := fun _ _ => Ok tt;
     Imap.select := Ok tt;
     Imap.search := fun _ => Ok ("OK", [Some "1 2"]);
     Imap.fetch := fun i =>
       if String.eqb i "1"
       then Ok ("OK", [Imap.Tuple (plain_message "Reunião" "Segunda, 10h." None);
                       Imap.NotTuple])
       else second;
     Imap.store := fun _ => Ok tt;
     Imap.logout := Ok tt |}.

(* ================================================================= *)
(** * Properties *)

Lemma append_assoc (a b c : string) : (a ++ b) ++ c = a ++ b ++ c.
Proof. induction a; simpl; congruence. Qed.

Lemma append_nil_r (a : string) : a ++ "" = a.
Proof. induction a; simpl; congruence. Qed.

Lemma substring_of_intro (pre needle post : string) :
  substring_of needle (pre ++ needle ++ post).
Proof. exists pre, post. reflexivity. Qed.

Lemma substring_of_app_r (needle a b : string) :
  substring_of needle b -> substring_of needle (a ++ b).
Proof.
  intros (pre & post & ->). exists (a ++ pre), post.
  now rewrite append_assoc.
Qed.

Lemma substring_of_last (pre needle : string) : substring_of needle (pre ++ needle).
Proof. exists pre, "". now rewrite append_nil_r. Qed.

(** *** Formatting *)

Lemma format_from_app (kw : list (string * string)) (n : nat) :
  forall a, (String.length a <= n)%nat -> forall b,
    (forall x, format_from kw FLiteral a = Ok x ->
       format_from kw FLiteral (a ++ b)
       = (y <- format_from kw FLiteral b ;; Ok (x ++ y)))
    /\ (forall name x, format_from kw (FField name) a = Ok x ->
       format_from kw (FField name) (a ++ b)
       = (y <- format_from kw FLiteral b ;; Ok (x ++ y))).
Proof.
  induction n as [|n IH]; intros a Hlen b.
  - destruct a; [|simpl in Hlen; lia]. split.
    + simpl. intros x [= <-]. destruct (format_from kw FLiteral b); reflexivity.
    + simpl. intros name x [=].
  - destruct a as [|c r].
    + split.
      * simpl. intros x [= <-]. destruct (format_from kw FLiteral b); reflexivity.
      * simpl. intros name x [=].
    + simpl in Hlen. assert (Hr : (String.length r <= n)%nat) by lia.
      split.
      * intros x. simpl.
        destruct (Ascii.eqb c "{") eqn:Eo.
        { destruct r as [|c' r'].
          - simpl. intros [=].
          - simpl. destruct (Ascii.eqb c' "{") eqn:Eo'.
            + unfold prepend. destruct (format_from kw FLiteral r') as [x'|] eqn:E'; simpl; [|intros [=]].
              intros [= <-].
              assert (Hr' : (String.length r' <= n)%nat) by (simpl in Hr; lia).
              rewrite (proj1 (IH r' Hr' b) _ E').
              destruct (format_from kw FLiteral b); reflexivity.
            + intros H. apply (proj2 (IH (String c' r') Hr b) [] x) in H.
              exact H. }
        destruct (Ascii.eqb c "}") eqn:Ec.
        { destruct r as [|c' r'].
          - simpl. intros [=].
          - simpl. destruct (Ascii.eqb c' "}") eqn:Ec'; [|intros [=]].
            unfold prepend. destruct (format_from kw FLiteral r') as [x'|] eqn:E'; simpl; [|intros [=]].
            intros [= <-].
            assert (Hr' : (String.length r' <= n)%nat) by (simpl in Hr; lia).
            rewrite (proj1 (IH r' Hr' b) _ E').
            destruct (format_from kw FLiteral b); reflexivity. }
        unfold prepend. destruct (format_from kw FLiteral r) as [x'|] eqn:E'; simpl; [|intros [=]].
        intros [= <-]. rewrite (proj1 (IH r Hr b) _ E').
        destruct (format_from kw FLiteral b); reflexivity.
      * intros name x. simpl.
        destruct (Ascii.eqb c "}") eqn:Ec.
        { destruct (field_value kw _) as [v|]; simpl; [|intros [=]].
          destruct (format_from kw FLiteral r) as [x'|] eqn:E'; simpl; [|intros [=]].
          intros [= <-]. rewrite (proj1 (IH r Hr b) _ E').
          destruct (format_from kw FLiteral b); simpl; [|reflexivity].
          now rewrite append_assoc. }
        intros H. exact (proj2 (IH r Hr b) _ _ H).
Qed.

Lemma format_app (kw : list (string * string)) (a b x : string) :
  format a kw = Ok x ->
  format (a ++ b) kw = (y <- format b kw ;; Ok (x ++ y)).
Proof.
  unfold format. intros H.
  exact (proj1 (format_from_app kw (String.length a) a (le_n _) b) x H).
Qed.

Lemma format_no_brace (kw : list (string * string)) (s : string) :
  no_brace s = true -> format s kw = Ok s.
Proof.
  unfold format. induction s as [|c r IH]; simpl; [reflexivity|].
  intros H. apply andb_prop in H as [H Hr]. apply andb_prop in H as [Ho Hc].
  destruct (Ascii.eqb c "{"); [discriminate|].
  destruct (Ascii.eqb c "}"); [discriminate|].
  rewrite (IH Hr). reflexivity.
Qed.

Lemma digit_char_no_brace (n : nat) : no_brace (String (digit_char n) "") = true.
Proof.
  unfold digit_char.
  assert (H : (n mod 10 < 10)%nat) by (apply Nat.mod_upper_bound; lia).
  destruct (n mod 10) as [|[|[|[|[|[|[|[|[|[|k]]]]]]]]]]; try reflexivity; lia.
Qed.

Lemma no_brace_app (a b : string) :
  no_brace (a ++ b) = (no_brace a && no_brace b)%bool.
Proof.
  induction a as [|c r IH]; simpl; [reflexivity|].
  rewrite IH. now rewrite !andb_assoc.
Qed.

Lemma no_brace_digit (n : nat) (r : string) :
  no_brace (String (digit_char n) r) = no_brace r.
Proof.
  change (String (digit_char n) r) with (String (digit_char n) "" ++ r).
  now rewrite no_brace_app, digit_char_no_brace.
Qed.

Lemma pad2_no_brace (n : nat) : no_brace (pad2 n) = true.
Proof. unfold pad2. now rewrite !no_brace_digit. Qed.

Lemma pad4_no_brace (n : nat) : no_brace (pad4 n) = true.
Proof. unfold pad4. now rewrite !no_brace_digit. Qed.

Lemma strftime_no_brace (d : date) : no_brace (strftime_Ymd d) = true.
Proof.
  unfold strftime_Ymd.
  now rewrite !no_brace_app, pad4_no_brace, !pad2_no_brace.
Qed.

Lemma lbrace_before_dquote_app (a b : string) :
  lbrace_before_dquote a = true -> lbrace_before_dquote b = true ->
  lbrace_before_dquote (a ++ b) = true.
Proof.
  intros Ha Hb. induction a as [|c r IH]; simpl in *; [exact Hb|].
  apply andb_prop in Ha as [Hc Hr]. rewrite (IH Hr), andb_true_r.
  destruct (Ascii.eqb c "{"); [|reflexivity].
  destruct r; [discriminate|exact Hc].
Qed.

Lemma no_brace_lbrace (s : string) :
  no_brace s = true -> lbrace_before_dquote s = true.
Proof.
  induction s as [|c r IH]; simpl; [reflexivity|].
  intros H. apply andb_prop in H as [H Hr]. apply andb_prop in H as [Ho _].
  rewrite (IH Hr). destruct (Ascii.eqb c "{"); [discriminate|reflexivity].
Qed.

(** A text whose opening braces all stand before a double quote holds no
    placeholder. *)
Lemma lbrace_before_dquote_contains (s p : string) :
  In p placeholders -> lbrace_before_dquote s = true -> contains s p = false.
Proof.
  intros Hp. induction s as [|c r IH]; simpl.
  - intros _. simpl in Hp. decompose [or] Hp; subst; try reflexivity; contradiction.
  - intros H. apply andb_prop in H as [Hc Hr]. rewrite (IH Hr), orb_false_r.
    simpl in Hp.
    destruct (Ascii.eqb c "{") eqn:Eo.
    + destruct r as [|c' r']; [discriminate|].
      apply Ascii.eqb_eq in Hc, Eo. subst c' c.
      decompose [or] Hp; subst; try contradiction; reflexivity.
    + decompose [or] Hp; subst; try contradiction; cbn [startswith];
        rewrite Ascii.eqb_sym, Eo; reflexivity.
Qed.

Lemma prompt_head_lbrace (today : date) :
  lbrace_before_dquote (prompt_head today) = true.
Proof.
  unfold prompt_head.
  apply lbrace_before_dquote_app; [reflexivity|].
  apply lbrace_before_dquote_app; [|reflexivity].
  apply no_brace_lbrace, strftime_no_brace.
Qed.

Lemma build_prompt_eq (today : date) (e : email_data) :
  build_prompt today e
  = Ok (prompt_head today ++ str_of (from_ e)
        ++ (nl ++ "Para: ") ++ str_of (to_ e)
        ++ (nl ++ "Assunto: ") ++ subject e
        ++ (nl ++ nl ++ "Conteúdo:" ++ nl) ++ body e).
Proof.
  unfold build_prompt, GEMINI_PROMPT_TEMPLATE, prompt_head.
  set (kw := [("de", _); _; _; _]).
  rewrite (format_app kw template_head _ rendered_head) by reflexivity.
  rewrite (format_app kw (strftime_Ymd today) _ (strftime_Ymd today))
    by apply format_no_brace, strftime_no_brace.
  assert (Ht : format template_tail kw
               = Ok ((". Segue o e-mail:" ++ nl ++ nl ++ "De: ")
                     ++ str_of (from_ e) ++ (nl ++ "Para: ") ++ str_of (to_ e)
                     ++ (nl ++ "Assunto: ") ++ subject e
                     ++ (nl ++ nl ++ "Conteúdo:" ++ nl) ++ body e ++ "")).
  { reflexivity. }
  rewrite Ht, append_nil_r. cbn [bind]. now rewrite !append_assoc.
Qed.

(** No occurrence of a placeholder begins inside [F], whatever follows
    [F]. *)
Lemma lbrace_before_dquote_sealed (F p t : string) (k : nat) :
  In p placeholders -> lbrace_before_dquote F = true ->
  k < String.length F -> startswith (drop k F ++ t) p = false.
Proof.
  intros Hp. revert k. induction F as [|c r IH]; intros k H Hk;
    [cbn in Hk; lia|].
  cbn [lbrace_before_dquote] in H. apply andb_prop in H as [Hc Hr].
  destruct k as [|k].
  - cbn [drop append]. simpl in Hp.
    destruct (Ascii.eqb c "{") eqn:Eo.
    + destruct r as [|c' r']; [discriminate|].
      apply Ascii.eqb_eq in Hc, Eo. subst c' c.
      decompose [or] Hp; subst; try contradiction; reflexivity.
    + decompose [or] Hp; subst; try contradiction; cbn [startswith];
        rewrite Ascii.eqb_sym, Eo; reflexivity.
  - cbn [drop]. apply IH; [exact Hr|cbn in Hk; lia].
Qed.

Lemma drop_app_le (n : nat) (a b : string) :
  n <= String.length a -> drop n (a ++ b) = drop n a ++ b.
Proof.
  revert a. induction n as [|n IH]; intros a H; [reflexivity|].
  destruct a as [|c r]; [cbn in H; lia|]. cbn. apply IH. cbn in H. lia.
Qed.

Lemma drop_app_ge (n : nat) (a b : string) :
  String.length a <= n -> drop n (a ++ b) = drop (n - String.length a) b.
Proof.
  revert n. induction a as [|c r IH]; intros n H.
  - cbn. now rewrite Nat.sub_0_r.
  - destruct n as [|n]; [cbn in H; lia|]. cbn. apply IH. cbn in H. lia.
Qed.

Lemma length_drop (n : nat) (s : string) :
  String.length (drop n s) = String.length s - n.
Proof.
  revert s. induction n as [|n IH]; intros s; [cbn; lia|].
  destruct s as [|c r]; [reflexivity|]. cbn. apply IH.
Qed.

Lemma startswith_length (s p : string) :
  startswith s p = true -> String.length p <= String.length s.
Proof.
  revert s. induction p as [|a p IH]; intros s H; [cbn; lia|].
  destruct s as [|b s]; [discriminate|]. cbn in H.
  apply andb_prop in H as [_ H]. apply IH in H. cbn. lia.
Qed.

(** An occurrence that begins in [x] ends in [x] when the character after
    [x] is none of [p]. *)
Lemma startswith_before_break (x rest p : string) (c : ascii) :
  forallb (fun a => negb (Ascii.eqb a c)) (list_ascii_of_string p) = true ->
  startswith (x ++ String c rest) p = true ->
  String.length p <= String.length x.
Proof.
  revert x. induction p as [|a p IH]; intros x Hc H; [cbn; lia|].
  cbn [list_ascii_of_string forallb] in Hc. apply andb_prop in Hc as [Ha Hc].
  destruct x as [|b x]; cbn [append startswith] in H.
  - apply andb_prop in H as [H _]. rewrite H in Ha. discriminate.
  - apply andb_prop in H as [_ H]. apply (IH _ Hc) in H. cbn. lia.
Qed.

Lemma occurs_after_fixed (F rest p : string) (n : nat) :
  In p placeholders -> lbrace_before_dquote F = true ->
  occurs_at p (F ++ rest) n = true ->
  String.length F <= n /\ occurs_at p rest (n - String.length F) = true.
Proof.
  unfold occurs_at. intros Hp HF H.
  destruct (Nat.lt_ge_cases n (String.length F)) as [Hn|Hn].
  - rewrite drop_app_le in H by lia.
    now rewrite (lbrace_before_dquote_sealed F p rest n Hp HF Hn) in H.
  - split; [exact Hn|]. now rewrite drop_app_ge in H.
Qed.

Lemma occurs_in_value (v rest p : string) (c : ascii) (n : nat) :
  forallb (fun a => negb (Ascii.eqb a c)) (list_ascii_of_string p) = true ->
  occurs_at p (v ++ String c rest) n = true ->
  n + String.length p <= String.length v
  \/ (String.length v <= n
      /\ occurs_at p (String c rest) (n - String.length v) = true).
Proof.
  unfold occurs_at. intros Hc H.
  destruct (Nat.lt_ge_cases n (String.length v)) as [Hn|Hn].
  - left. rewrite drop_app_le in H by lia.
    apply (startswith_before_break _ _ _ _ Hc) in H.
    rewrite length_drop in H. lia.
  - right. split; [exact Hn|]. now rewrite drop_app_ge in H.
Qed.

Lemma occurs_in_last_value (v p : string) (n : nat) :
  In p placeholders -> occurs_at p v n = true ->
  n + String.length p <= String.length v.
Proof.
  unfold occurs_at. intros Hp H.
  pose proof (startswith_length _ _ H) as Hl. rewrite length_drop in Hl.
  assert (0 < String.length p)
    by (simpl in Hp; decompose [or] Hp; subst; try contradiction; cbn; lia).
  lia.
Qed.

Lemma newline_in_no_placeholder (p : string) :
  In p placeholders ->
  forallb (fun a => negb (Ascii.eqb a newline)) (list_ascii_of_string p) = true.
Proof.
  intros Hp. simpl in Hp.
  decompose [or] Hp; subst; try contradiction; reflexivity.
Qed.

(** Claim C5. For every normalized message, with whatever characters
    (braces included) in its sender, recipient, subject and body, the Prompt
    Builder does not fail, and the prompt it produces is the formatted head
    of the template followed by the four values, each verbatim, between the
    fixed separators (a header that is absent is embedded as the text
    [None]): so each value is a substring of the prompt. No placeholder is
    left unsubstituted: wherever one of the tokens [{de}], [{para}],
    [{assunto}], [{conteudo}] stands in the prompt, it stands inside one of
    the four values, as a part of the message itself. *)
Theorem prompt_embeds_message_and_leaves_no_placeholder
  (today : date) (e : email_data) :
  let de := match from_ e with Some s => s | None => "None" end in
  let para := match to_ e with Some s => s | None => "None" end in
  exists prompt,
    build_prompt today e = Ok prompt
    /\ prompt = prompt_head today ++ de
                ++ (nl ++ "Para: ") ++ para
                ++ (nl ++ "Assunto: ") ++ subject e
                ++ (nl ++ nl ++ "Conteúdo:" ++ nl) ++ body e
    /\ substring_of de prompt
    /\ substring_of para prompt
    /\ substring_of (subject e) prompt
    /\ substring_of (body e) prompt
    /\ (forall p n, In p placeholders -> occurs_at p prompt n = true ->
          let o1 := String.length (prompt_head today) in
          let o2 := o1 + String.length de + String.length (nl ++ "Para: ") in
          let o3 := o2 + String.length para
                    + String.length (nl ++ "Assunto: ") in
          let o4 := o3 + String.length (subject e)
                    + String.length (nl ++ nl ++ "Conteúdo:" ++ nl) in
          within n (String.length p) o1 de
          \/ within n (String.length p) o2 para
          \/ within n (String.length p) o3 (subject e)
          \/ within n (String.length p) o4 (body e)).
Proof.
  intros de para.
  eexists. split; [apply build_prompt_eq|].
  change (str_of (from_ e)) with de. change (str_of (to_ e)) with para.
  split; [reflexivity|]. repeat split.
  - apply substring_of_intro.
  - do 2 apply substring_of_app_r. apply substring_of_intro.
  - do 4 apply substring_of_app_r. apply substring_of_intro.
  - do 6 apply substring_of_app_r. apply substring_of_last.
  - intros p n Hp H. cbn zeta. unfold within.
    pose proof (newline_in_no_placeholder p Hp) as Hnl.
    apply (occurs_after_fixed _ _ _ _ Hp (prompt_head_lbrace today)) in H
      as [H0 H].
    change ((nl ++ "Para: ") ++ ?r) with (String newline ("Para: " ++ r)) in H.
    apply (occurs_in_value _ _ _ _ _ Hnl) in H as [H|[H1 H]]; [lia|].
    change (String newline ("Para: " ++ ?r)) with ((nl ++ "Para: ") ++ r) in H.
    apply (occurs_after_fixed _ _ _ _ Hp) in H as [H2 H]; [|reflexivity].
    change ((nl ++ "Assunto: ") ++ ?r)
      with (String newline ("Assunto: " ++ r)) in H.
    apply (occurs_in_value _ _ _ _ _ Hnl) in H as [H|[H3 H]]; [lia|].
    change (String newline ("Assunto: " ++ ?r))
      with ((nl ++ "Assunto: ") ++ r) in H.
    apply (occurs_after_fixed _ _ _ _ Hp) in H as [H4 H]; [|reflexivity].
    change ((nl ++ nl ++ "Conteúdo:" ++ nl) ++ ?r)
      with (String newline ((nl ++ "Conteúdo:" ++ nl) ++ r)) in H.
    apply (occurs_in_value _ _ _ _ _ Hnl) in H as [H|[H5 H]]; [lia|].
    change (String newline ((nl ++ "Conteúdo:" ++ nl) ++ ?r))
      with ((nl ++ nl ++ "Conteúdo:" ++ nl) ++ r) in H.
    apply (occurs_after_fixed _ _ _ _ Hp) in H as [H6 H]; [|reflexivity].
    apply (occurs_in_last_value _ _ _ Hp) in H. lia.
Qed.

(** A subject that is itself the text of a placeholder: the prompt holds
    that text once, where the subject stands, and nowhere else. *)
Lemma placeholder_text_in_the_subject :
  match build_prompt (today cfg0)
          {| from_ := Some "ana@example.com"; to_ := None;
             subject := "{de}"; body := "Segunda, 10h." |} with
  | Ok prompt =>
      filter (occurs_at "{de}" prompt) (seq 0 (String.length prompt))
      = [String.length (prompt_head (today cfg0) ++ "ana@example.com"
                        ++ (nl ++ "Para: ") ++ "None" ++ (nl ++ "Assunto: "))]
      /\ contains prompt "{para}" = false
      /\ contains prompt "{assunto}" = false
      /\ contains prompt "{conteudo}" = false
  | Raise _ => False
  end.
Proof. vm_compute. repeat split. Qed.

(** *** The extraction client *)

(** Claim C2, which the code breaks. The claim says that the Extraction
    Client returns a list and never raises, whatever the service answers.
    For a response with status 200 whose body is the JSON text of an array,
    both variants raise [TypeError] to their caller: the subscript
    [["candidates"]] of a list raises it, and no handler catches it. *)
Theorem array_body_raises_TypeError (cfg : config) (email : email_data) :
  snd (Agendator.get_events_from_email cfg (fun _ => Response 200 "[]") email)
  = Raise TypeError
  /\ snd (AgendatorActions.get_events_from_email cfg
            (fun _ => Response 200 "[]") email)
     = Raise TypeError.
Proof.
  unfold Agendator.get_events_from_email, AgendatorActions.get_events_from_email.
  rewrite build_prompt_eq. split; reflexivity.
Qed.

(** In AgendatorActions.py a response without the expected envelope raises
    too: the handler of [KeyError] formats [raw_response], which was never
    assigned. *)
Lemma actions_missing_envelope_raises_UnboundLocalError
  (cfg : config) (email : email_data) :
  snd (AgendatorActions.get_events_from_email cfg
         (fun _ => Response 200 "{}") email)
  = Raise UnboundLocalError.
Proof.
  unfold AgendatorActions.get_events_from_email.
  rewrite build_prompt_eq. reflexivity.
Qed.

(** A value under the key that is no list is returned as it is. *)
Lemma non_list_eventos_is_returned (cfg : config) (email : email_data) :
  snd (Agendator.get_events_from_email cfg
         (fun _ => Response 200 (envelope (text "{'eventos': null}"))) email)
  = Ok JNull.
Proof.
  unfold Agendator.get_events_from_email.
  rewrite build_prompt_eq. reflexivity.
Qed.

(** *** The validator *)

Lemma event_validator_dict (ms : list (string * json)) :
  event_validator (JObj ms)
  = Ok (has_key "start_datetime" ms && has_key "summary" ms).
Proof.
  unfold event_validator. simpl.
  destruct (has_key "start_datetime" ms); reflexivity.
Qed.

(** Claim C3, counterexample. A candidate whose two keys hold [null] passes
    the test and is handed to [create_calendar_event] in both variants,
    without any warning; the continuous-loop variant even submits it. *)
Lemma null_valued_candidate_reaches_materializer :
  event_validator null_candidate = Ok true
  /\ (let '(tr, _, _) := AgendatorActions.for_events (fun _ => calendar_up) 0
                           [null_candidate] in
      reports tr = [(null_candidate, false)] /\ logged WARNING tr = 0)
  /\ (let '(tr, _, _) := Agendator.for_events (fun _ => calendar_up) 0
                           [null_candidate] in
      reports tr = [(null_candidate, true)] /\ logged WARNING tr = 0
      /\ map (fun ev => dateTime (ev_start ev)) (inserted tr) = [JNull]).
Proof. repeat split. Qed.

(** Claim C3, as amended. A candidate mapping is accepted exactly when it
    holds both keys ['start_datetime'] and ['summary'], whatever their
    values: then the loop of the main function calls [create_calendar_event]
    on it and goes on with the rest of the batch; otherwise it logs one
    warning, calls nothing and goes on with the rest. *)
Theorem validator_accepts_exactly_the_mappings_with_both_keys
  (ms : list (string * json)) (calendar : nat -> calendar_call) (k : nat)
  (rest : list json) :
  event_validator (JObj ms)
  = Ok (has_key "start_datetime" ms && has_key "summary" ms)
  /\ AgendatorActions.for_events calendar k (JObj ms :: rest)
     = (if has_key "start_datetime" ms && has_key "summary" ms then
          let '(ok, tr) :=
            AgendatorActions.create_calendar_event (calendar k) (JObj ms) in
          let '(tr', k', r) := AgendatorActions.for_events calendar (S k) rest in
          (tr ++ [CreateCalendarEvent (JObj ms) ok] ++ tr', k', r)%list
        else
          let '(tr', k', r) := AgendatorActions.for_events calendar k rest in
          (Log WARNING "Evento malformado recebido da IA: " :: tr', k', r))
  /\ Agendator.for_events calendar k (JObj ms :: rest)
     = (if has_key "start_datetime" ms && has_key "summary" ms then
          let '(ok, tr) :=
            Agendator.create_calendar_event (calendar k) (JObj ms) in
          let '(tr', k', r) := Agendator.for_events calendar (S k) rest in
          (tr ++ [CreateCalendarEvent (JObj ms) ok] ++ tr', k', r)%list
        else
          let '(tr', k', r) := Agendator.for_events calendar k rest in
          (Log WARNING "Evento malformado recebido da IA: " :: tr', k', r)).
Proof.
  split; [apply event_validator_dict|].
  split; cbn [AgendatorActions.for_events Agendator.for_events];
    rewrite event_validator_dict;
    destruct (has_key "start_datetime" ms && has_key "summary" ms); reflexivity.
Qed.

(** *** What the extraction client returns *)

Lemma json_loads_empty : json_loads "" = None.
Proof. reflexivity. Qed.

Lemma loads_some_not_empty (s : string) (j : json) :
  json_loads s = Some j -> is_empty s = false.
Proof. destruct s; [discriminate|reflexivity]. Qed.

Lemma loads_Some (s : string) (j : json) :
  json_loads s = Some j -> loads s = Ok j.
Proof.
  unfold json_loads, loads. destruct (json_decode text_nesting s); congruence.
Qed.

Lemma loop_try_block_text (prompt : string) (service : gemini_service) (raw : json) :
  answers_text (service 0) raw ->
  Agendator.try_block prompt service
  = (let '(tr, r) := Agendator.clean_and_parse raw in
     ([Log INFO "Enviando e-mail (Assunto: '"; Post prompt 20]
      ++ [Log INFO "Resposta da IA: "] ++ tr, r)%list).
Proof.
  intros (status & content & j & Ho & Hs & Hj & He).
  unfold Agendator.try_block. rewrite Ho, Hs. cbn [bind]. rewrite Hj. cbn [bind].
  rewrite He. reflexivity.
Qed.

Lemma actions_try_block_text (prompt : string) (o : http_outcome)
  (prev : option json) (raw : json) :
  answers_text o raw ->
  AgendatorActions.try_block prompt o prev
  = (let '(tr, r) := AgendatorActions.clean_and_parse raw in
     ([Log INFO "Enviando e-mail (Assunto: '"; Post prompt 30]
      ++ [Log INFO "Resposta da IA: "] ++ tr, Some raw, r)%list).
Proof.
  intros (status & content & j & Ho & Hs & Hj & He).
  unfold AgendatorActions.try_block. rewrite Ho, Hs. cbn [bind]. rewrite Hj.
  cbn [bind]. rewrite He. reflexivity.
Qed.

(** Claim C4, counterexample. For a model output whose ["eventos"] is the
    number 5, both variants return 5 and not the empty sequence. *)
Lemma number_under_eventos_is_returned :
  snd (AgendatorActions.get_events_from_email cfg0
         (fun _ => Response 200 (envelope (text "{'eventos': 5}"))) email0)
  = Ok (JInt 5)
  /\ snd (Agendator.get_events_from_email cfg0
            (fun _ => Response 200 (envelope (text "{'eventos': 5}"))) email0)
     = Ok (JInt 5).
Proof. split; vm_compute; reflexivity. Qed.

(** Claim C4, as amended. When the service answers with a text whose
    cleaned form decodes to a JSON object, the Extraction Client returns the
    value under ["eventos"] whenever the key is present, whatever its type,
    and the empty list when the key is absent. *)
Theorem eventos_value_is_returned_whatever_its_type
  (cfg : config) (service : gemini_service) (email : email_data)
  (raw : string) (ms : list (string * json)) :
  answers_text (service 0) (JStr raw) ->
  (json_loads (AgendatorActions.clean_json_str raw) = Some (JObj ms) ->
   snd (AgendatorActions.get_events_from_email cfg service email)
   = Ok match lookup "eventos" ms with
        | Some v => v
        | None => empty_list
        end)
  /\ (json_loads (Agendator.clean_json_str raw) = Some (JObj ms) ->
      snd (Agendator.get_events_from_email cfg service email)
      = Ok match lookup "eventos" ms with
           | Some v => v
           | None => empty_list
           end).
Proof.
  intros Ha. split; intros Hl.
  - unfold AgendatorActions.get_events_from_email. rewrite build_prompt_eq.
    cbn [AgendatorActions.max_retries seq AgendatorActions.for_attempts].
    rewrite (actions_try_block_text _ _ _ _ Ha).
    unfold AgendatorActions.clean_and_parse.
    rewrite (loads_some_not_empty _ _ Hl). rewrite (loads_Some _ _ Hl).
    cbn [bind get_default snd].
    destruct (lookup "eventos" ms); reflexivity.
  - unfold Agendator.get_events_from_email. rewrite build_prompt_eq.
    rewrite (loop_try_block_text _ _ _ Ha).
    unfold Agendator.clean_and_parse.
    rewrite (loads_some_not_empty _ _ Hl). rewrite (loads_Some _ _ Hl).
    cbn [bind get_default snd].
    destruct (lookup "eventos" ms); reflexivity.
Qed.

(** The theorem of claim C4 at the output [{"eventos": [7]}]. *)
Lemma eventos_value_witness :
  snd (AgendatorActions.get_events_from_email cfg0
         (service_text (text "{'eventos': [7]}")) email0)
  = Ok (JArr [JInt 7]).
Proof.
  refine (proj1 (eventos_value_is_returned_whatever_its_type cfg0
            (service_text (text "{'eventos': [7]}")) email0
            (text "{'eventos': [7]}") [("eventos", JArr [JInt 7])] _) _).
  - eexists _, _, _. repeat split; vm_compute; reflexivity.
  - vm_compute; reflexivity.
Defined.

(** *** Retries *)

Lemma actions_try_block_fails (prompt : string) (o : http_outcome)
  (prev : option json) :
  fails o ->
  exists e, is_RequestException e = true
    /\ AgendatorActions.try_block prompt o prev
       = ([Log INFO "Enviando e-mail (Assunto: '"; Post prompt 30], prev, Raise e).
Proof.
  intros [-> | (status & content & -> & Hs)].
  - exists RequestException. split; reflexivity.
  - exists HTTPError. split; [reflexivity|].
    unfold AgendatorActions.try_block. rewrite Hs. reflexivity.
Qed.

Lemma loop_try_block_fails (prompt : string) (service : gemini_service) :
  fails (service 0) ->
  exists e, is_RequestException e = true
    /\ Agendator.try_block prompt service
       = ([Log INFO "Enviando e-mail (Assunto: '"; Post prompt 20], Raise e).
Proof.
  unfold Agendator.try_block.
  intros [-> | (status & content & -> & Hs)].
  - exists RequestException. split; reflexivity.
  - exists HTTPError. split; [reflexivity|]. rewrite Hs. reflexivity.
Qed.

(** Claim C6, which Agendator.py breaks. The claim says that a failed
    request is retried, two attempts in all, five seconds apart. In the
    continuous-loop variant a first request that fails (a transport failure
    or an error status) is the only one: one request is sent, nothing sleeps,
    and the result is the empty list, whatever a second request would have
    brought. *)
Theorem loop_variant_never_retries (cfg : config) (service : gemini_service)
  (email : email_data) :
  fails (service 0) ->
  let '(tr, r) := Agendator.get_events_from_email cfg service email in
  posts tr = 1 /\ sleeps tr = [] /\ r = Ok empty_list.
Proof.
  intros Hf. unfold Agendator.get_events_from_email. rewrite build_prompt_eq.
  match goal with
  | |- context [Agendator.try_block ?p service] =>
      destruct (loop_try_block_fails p service Hf) as (e & He & ->)
  end.
  rewrite He. repeat split.
Qed.

(** The theorem of claim C6 where the second request would have succeeded. *)
Lemma loop_variant_never_retries_witness :
  let '(tr, r) := Agendator.get_events_from_email cfg0
                    (fun n => match n with
                              | 0 => PostRaises
                              | _ => Response 200 (envelope (text "{'eventos': [7]}"))
                              end) email0 in
  posts tr = 1 /\ sleeps tr = [] /\ r = Ok empty_list.
Proof.
  apply (loop_variant_never_retries cfg0
           (fun n => match n with
                     | 0 => PostRaises
                     | _ => Response 200 (envelope (text "{'eventos': [7]}"))
                     end) email0).
  left. reflexivity.
Defined.

Lemma actions_attempt_fails (prompt : string) (service : gemini_service)
  (prev : option json) (attempt : nat) (rest : list nat) :
  fails (service attempt) ->
  AgendatorActions.for_attempts prompt service prev (attempt :: rest)
  = (let sent := [Log INFO "Enviando e-mail (Assunto: '"; Post prompt 30;
                  Log WARNING "Erro na requisição para Gemini na tentativa "] in
     if (attempt <? AgendatorActions.max_retries - 1)%nat then
       let '(tr, r) := AgendatorActions.for_attempts prompt service prev rest in
       (sent ++ [Sleep 5] ++ tr, r)%list
     else
       (sent ++ [Log ERROR "Todas as tentativas de conexão com a API Gemini falharam."],
        Ok empty_list)%list).
Proof.
  intros Hf. cbn [AgendatorActions.for_attempts].
  destruct (actions_try_block_fails prompt _ prev Hf) as (e & He & ->).
  rewrite He. reflexivity.
Qed.

(** AgendatorActions.py does what claim C6 says: when the first and the
    second request fail, two requests are sent, five seconds apart, and the
    result is the empty list, without an exception. *)
Theorem actions_retries_once_then_gives_up (cfg : config)
  (service : gemini_service) (email : email_data) :
  fails (service 0) -> fails (service 1) ->
  let '(tr, r) := AgendatorActions.get_events_from_email cfg service email in
  posts tr = 2 /\ sleeps tr = [5%Z] /\ r = Ok empty_list.
Proof.
  intros H0 H1. unfold AgendatorActions.get_events_from_email.
  rewrite build_prompt_eq. cbn [AgendatorActions.max_retries seq].
  rewrite (actions_attempt_fails _ _ _ _ _ H0).
  rewrite (actions_attempt_fails _ _ _ _ _ H1).
  repeat split.
Qed.

Lemma actions_attempt_parsed (prompt : string) (service : gemini_service)
  (prev : option json) (attempt : nat) (rest : list nat)
  (raw : string) (ms : list (string * json)) :
  answers_text (service attempt) (JStr raw) ->
  json_loads (AgendatorActions.clean_json_str raw) = Some (JObj ms) ->
  AgendatorActions.for_attempts prompt service prev (attempt :: rest)
  = ([Log INFO "Enviando e-mail (Assunto: '"; Post prompt 30;
      Log INFO "Resposta da IA: "],
     Ok match lookup "eventos" ms with
        | Some v => v
        | None => empty_list
        end).
Proof.
  intros Ha Hl. cbn [AgendatorActions.for_attempts].
  rewrite (actions_try_block_text _ _ _ _ Ha).
  unfold AgendatorActions.clean_and_parse.
  rewrite (loads_some_not_empty _ _ Hl). rewrite (loads_Some _ _ Hl).
  cbn [bind get_default]. destruct (lookup "eventos" ms); reflexivity.
Qed.

Lemma actions_attempt_unparsable (prompt : string) (service : gemini_service)
  (prev : option json) (attempt : nat) (rest : list nat) (raw : string) :
  answers_text (service attempt) (JStr raw) ->
  loads (AgendatorActions.clean_json_str raw) = Raise JSONDecodeError ->
  exists tr,
    AgendatorActions.for_attempts prompt service prev (attempt :: rest)
    = (tr, Ok empty_list)
    /\ posts tr = 1 /\ sleeps tr = [].
Proof.
  intros Ha Hl. cbn [AgendatorActions.for_attempts].
  rewrite (actions_try_block_text _ _ _ _ Ha).
  unfold AgendatorActions.clean_and_parse.
  destruct (is_empty (AgendatorActions.clean_json_str raw)).
  - eexists. split; [reflexivity|]. split; reflexivity.
  - rewrite Hl. cbn [bind].
    eexists. split; [reflexivity|]. split; reflexivity.
Qed.

(** AgendatorActions.py: after a failed first request, the answer to the
    second one decides the result. *)
Theorem actions_second_attempt_answers (cfg : config)
  (service : gemini_service) (email : email_data)
  (raw : string) (ms : list (string * json)) :
  fails (service 0) -> answers_text (service 1) (JStr raw) ->
  json_loads (AgendatorActions.clean_json_str raw) = Some (JObj ms) ->
  let '(tr, r) := AgendatorActions.get_events_from_email cfg service email in
  posts tr = 2 /\ sleeps tr = [5%Z]
  /\ r = Ok match lookup "eventos" ms with
            | Some v => v
            | None => empty_list
            end.
Proof.
  intros H0 H1 Hl. unfold AgendatorActions.get_events_from_email.
  rewrite build_prompt_eq. cbn [AgendatorActions.max_retries seq].
  rewrite (actions_attempt_fails _ _ _ _ _ H0).
  rewrite (actions_attempt_parsed _ _ _ _ _ _ _ H1 Hl).
  repeat split.
Qed.

(** What the decoder raises. *)
Lemma misfit_cases (nesting : nat) (st : parse_state) (b : bool) :
  misfit nesting st b = JSONDecodeError \/ misfit nesting st b = RecursionError.
Proof.
  unfold misfit, scanner_error.
  destruct st; try destruct b;
    repeat match goal with |- context [if ?c then _ else _] => destruct c end;
    tauto.
Qed.

Lemma parse_step_raises (nesting : nat) (st : parse_state) (t : token)
  (e : exn) :
  parse_step nesting st t = Raise e ->
  e = JSONDecodeError \/ e = ValueError \/ e = RecursionError.
Proof.
  intros E.
  assert (H : e = ValueError \/ e = RecursionError
              \/ exists b, e = misfit nesting st b).
  { unfold parse_step in E.
    repeat match type of E with
           | match ?x with _ => _ end = _ => destruct x
           | (if ?b then _ else _) = _ => destruct b
           end; try discriminate; injection E as <-;
      first [now left | now (right; left)
            | right; right; exists false; reflexivity
            | right; right; exists true; reflexivity
            | right; right; eexists; reflexivity]. }
  destruct H as [-> | [-> | [b ->]]]; [tauto|tauto|].
  destruct (misfit_cases nesting st b) as [-> | ->]; tauto.
Qed.

Lemma parse_tokens_raises (nesting : nat) (ts : list token)
  (st : parse_state) (e : exn) :
  parse_tokens nesting st ts = Raise e ->
  e = JSONDecodeError \/ e = ValueError \/ e = RecursionError.
Proof.
  revert st. induction ts as [|t r IH]; intros st.
  - cbn [parse_tokens]. intros E.
    assert (H : e = misfit nesting st false) by (destruct st; congruence).
    subst e. destruct (misfit_cases nesting st false) as [-> | ->]; tauto.
  - cbn [parse_tokens].
    destruct (parse_step nesting st t) as [st'|e0] eqn:E; cbn [bind];
      [apply IH|].
    intros [= <-]. now apply parse_step_raises in E.
Qed.

Lemma loads_raises (s : string) (e : exn) :
  loads s = Raise e ->
  e = JSONDecodeError \/ e = ValueError \/ e = RecursionError.
Proof. apply parse_tokens_raises. Qed.

(** When the service answers with a text on whose cleaned form the decoder
    raises [json.JSONDecodeError], the Extraction Client returns the empty
    list, and the request that brought the text is the only one sent: no
    retry, no sleep. This holds in both variants. *)
Theorem unparsable_text_is_terminal (cfg : config) (service : gemini_service)
  (email : email_data) (raw : string) :
  answers_text (service 0) (JStr raw) ->
  (loads (AgendatorActions.clean_json_str raw) = Raise JSONDecodeError ->
   let '(tr, r) := AgendatorActions.get_events_from_email cfg service email in
   r = Ok empty_list /\ posts tr = 1 /\ sleeps tr = [])
  /\ (loads (Agendator.clean_json_str raw) = Raise JSONDecodeError ->
      let '(tr, r) := Agendator.get_events_from_email cfg service email in
      r = Ok empty_list /\ posts tr = 1 /\ sleeps tr = []).
Proof.
  intros Ha. split; intros Hl.
  - unfold AgendatorActions.get_events_from_email. rewrite build_prompt_eq.
    cbn [AgendatorActions.max_retries seq].
    match goal with
    | |- context [AgendatorActions.for_attempts ?p service None (0 :: ?rest)] =>
        destruct (actions_attempt_unparsable p service None 0 rest raw Ha Hl)
          as (tr & -> & Hp & Hs)
    end.
    now repeat split.
  - unfold Agendator.get_events_from_email. rewrite build_prompt_eq.
    rewrite (loop_try_block_text _ _ _ Ha).
    unfold Agendator.clean_and_parse.
    destruct (is_empty (Agendator.clean_json_str raw)).
    + repeat split.
    + rewrite Hl. repeat split.
Qed.

(** The theorem at the output [not json]. *)
Lemma unparsable_text_witness :
  (let '(tr, r) := AgendatorActions.get_events_from_email cfg0
                     (service_text "not json") email0 in
   r = Ok empty_list /\ posts tr = 1 /\ sleeps tr = [])
  /\ (let '(tr, r) := Agendator.get_events_from_email cfg0
                        (service_text "not json") email0 in
      r = Ok empty_list /\ posts tr = 1 /\ sleeps tr = []).
Proof.
  destruct (unparsable_text_is_terminal cfg0 (service_text "not json")
              email0 "not json") as [Ha Hl].
  - eexists _, _, _. repeat split; vm_compute; reflexivity.
  - split; [apply Ha|apply Hl]; vm_compute; reflexivity.
Defined.

(** Claim C7, which both files break. The claim says that a text that is
    not valid JSON gives the empty list. The handlers of both variants
    name [json.JSONDecodeError] only, and the decoder has two more ways to
    fail: on such a text the exception leaves [get_events_from_email], after
    the one request that brought the text. *)
Theorem parse_failure_escapes_the_handlers (cfg : config)
  (service : gemini_service) (email : email_data) (raw : string) (e : exn) :
  answers_text (service 0) (JStr raw) ->
  e = ValueError \/ e = RecursionError ->
  (loads (AgendatorActions.clean_json_str raw) = Raise e ->
   let '(tr, r) := AgendatorActions.get_events_from_email cfg service email in
   r = Raise e /\ posts tr = 1 /\ sleeps tr = [])
  /\ (loads (Agendator.clean_json_str raw) = Raise e ->
      let '(tr, r) := Agendator.get_events_from_email cfg service email in
      r = Raise e /\ posts tr = 1 /\ sleeps tr = []).
Proof.
  intros Ha He. split; intros Hl.
  - unfold AgendatorActions.get_events_from_email. rewrite build_prompt_eq.
    cbn [AgendatorActions.max_retries seq AgendatorActions.for_attempts].
    rewrite (actions_try_block_text _ _ _ _ Ha).
    unfold AgendatorActions.clean_and_parse.
    destruct (is_empty (AgendatorActions.clean_json_str raw)) eqn:E.
    { destruct (AgendatorActions.clean_json_str raw); [|discriminate].
      destruct He as [-> | ->]; discriminate. }
    rewrite Hl. cbn [bind].
    destruct He as [-> | ->]; repeat split.
  - unfold Agendator.get_events_from_email. rewrite build_prompt_eq.
    rewrite (loop_try_block_text _ _ _ Ha).
    unfold Agendator.clean_and_parse.
    destruct (is_empty (Agendator.clean_json_str raw)) eqn:E.
    { destruct (Agendator.clean_json_str raw); [|discriminate].
      destruct He as [-> | ->]; discriminate. }
    rewrite Hl. cbn [bind].
    destruct He as [-> | ->]; repeat split.
Qed.

(** The text of an opening bracket and an integer of 4301 digits is not
    valid JSON, and both variants raise [ValueError] on it. *)
Lemma oversized_integer_raises_ValueError :
  (let '(tr, r) := AgendatorActions.get_events_from_email cfg0
                     (service_text oversized_integer) email0 in
   r = Raise ValueError /\ posts tr = 1 /\ sleeps tr = [])
  /\ (let '(tr, r) := Agendator.get_events_from_email cfg0
                        (service_text oversized_integer) email0 in
      r = Raise ValueError /\ posts tr = 1 /\ sleeps tr = []).
Proof.
  destruct (parse_failure_escapes_the_handlers cfg0
              (service_text oversized_integer) email0 oversized_integer
              ValueError) as [Ha Hl].
  - eexists _, _, _. repeat split; vm_compute; reflexivity.
  - now left.
  - split; [apply Ha|apply Hl]; vm_compute; reflexivity.
Defined.

(** So does a text that nests arrays deeper than the interpreter allows,
    with [RecursionError]. *)
Lemma deep_nesting_raises_RecursionError :
  snd (AgendatorActions.get_events_from_email cfg0
         (service_text (brackets 3000)) email0)
  = Raise RecursionError
  /\ snd (Agendator.get_events_from_email cfg0
            (service_text (brackets 3000)) email0)
     = Raise RecursionError.
Proof. split; vm_compute; reflexivity. Qed.

(** *** Credentials *)

(** Claim C8, which Agendator.py breaks. The claim says that no connection
    is attempted when a mailbox credential is absent. The continuous-loop
    variant has no such test: whatever the credentials, absent ones
    included, [fetch_emails] opens the connection to the IMAP host. *)
Theorem loop_variant_connects_without_credentials (cfg : config) (mb : mailbox) :
  existsb is_connect (snd (Agendator.fetch_emails cfg mb)) = true.
Proof.
  unfold Agendator.fetch_emails.
  destruct (connect mb); [reflexivity|].
  destruct (session mb _ _); reflexivity.
Qed.

(** AgendatorActions.py does what claim C8 says: when the user or the
    password is absent (not set, or empty), [fetch_emails] returns no message
    and opens no connection. *)
Theorem actions_fetch_needs_credentials (cfg : config) (mb : mailbox) :
  (not_set (EMAIL_USER cfg) || not_set (EMAIL_PASS cfg))%bool = true ->
  fst (AgendatorActions.fetch_emails cfg mb) = []
  /\ existsb is_connect (snd (AgendatorActions.fetch_emails cfg mb)) = false.
Proof.
  intros H. unfold AgendatorActions.fetch_emails. rewrite H. split; reflexivity.
Qed.

(** *** The materializer in a batch *)

Lemma reports_app (a b : list effect) :
  reports (a ++ b) = (reports a ++ reports b)%list.
Proof. apply flat_map_app. Qed.

Lemma actions_create_effects (cal : calendar_call) (ev : json) :
  reports (snd (AgendatorActions.create_calendar_event cal ev)) = [].
Proof.
  unfold AgendatorActions.create_calendar_event.
  destruct (getitem_key ev "summary"); [|reflexivity].
  destruct (client cal); [reflexivity|].
  destruct (AgendatorActions.build_event ev); [|reflexivity].
  destruct (insert cal a0); reflexivity.
Qed.

Lemma actions_create_fails_when_insert_raises (cal : calendar_call) (ev : json) :
  (forall body, insert cal body <> None) ->
  fst (AgendatorActions.create_calendar_event cal ev) = false.
Proof.
  intros H. unfold AgendatorActions.create_calendar_event.
  destruct (getitem_key ev "summary"); [|reflexivity].
  destruct (client cal); [reflexivity|].
  destruct (AgendatorActions.build_event ev) as [body|]; [|reflexivity].
  destruct (insert cal body) eqn:E; [reflexivity|].
  now apply H in E.
Qed.


(** *** The two cleanings *)

Lemma contains_cons (c : ascii) (r p : string) :
  contains (String c r) p = false ->
  startswith (String c r) p = false /\ contains r p = false.
Proof. cbn [contains]. intros H. now apply orb_false_elim in H. Qed.

Lemma contains_app_r (a b p : string) :
  contains b p = true -> contains (a ++ b) p = true.
Proof.
  intros H. induction a as [|c r IH]; [exact H|].
  cbn [append contains]. rewrite IH. apply orb_true_r.
Qed.

(** What [lstrip] keeps is the end of the text. *)
Lemma lstrip_suffix_bounded (n : nat) (s : string) :
  String.length s <= n -> exists t, s = t ++ lstrip s.
Proof.
  revert s. induction n as [|n IH]; intros s Hn.
  { destruct s; [now exists ""|cbn in Hn; lia]. }
  destruct s as [|a r]; [now exists ""|]. cbn [String.length] in Hn.
  cbn [lstrip]. destruct (is_space a).
  { destruct (IH r ltac:(lia)) as [t Ht]. exists (String a t). cbn.
    now rewrite <- Ht. }
  destruct r as [|b r2]; [now exists ""|]. cbn [String.length] in Hn.
  destruct (is_space2 a b).
  { destruct (IH r2 ltac:(lia)) as [t Ht]. exists (String a (String b t)).
    cbn. now rewrite <- Ht. }
  destruct r2 as [|c r3]; [now exists ""|]. cbn [String.length] in Hn.
  destruct (is_space3 a b c); [|now exists ""].
  destruct (IH r3 ltac:(lia)) as [t Ht].
  exists (String a (String b (String c t))). cbn. now rewrite <- Ht.
Qed.

Lemma lstrip_suffix (s : string) : exists t, s = t ++ lstrip s.
Proof. now apply (lstrip_suffix_bounded (String.length s)). Qed.

Lemma contains_lstrip (s p : string) :
  contains s p = false -> contains (lstrip s) p = false.
Proof.
  intros H. destruct (contains (lstrip s) p) eqn:E; [|reflexivity].
  destruct (lstrip_suffix s) as [t Ht].
  apply (contains_app_r t) in E. rewrite <- Ht in E. congruence.
Qed.

Lemma startswith_app (a t p : string) :
  startswith a p = true -> startswith (a ++ t) p = true.
Proof.
  revert a. induction p as [|x p IH]; intros a; [now destruct a, t|].
  destruct a as [|c r]; cbn; [discriminate|].
  intros H. apply andb_prop in H as [-> H]. now rewrite (IH _ H).
Qed.

Lemma contains_app_l (a t p : string) :
  contains a p = true -> contains (a ++ t) p = true.
Proof.
  induction a as [|c r IH].
  - destruct p; [now destruct t|discriminate].
  - cbn [contains append]. intros H. apply orb_prop in H as [H|H].
    + pose proof (startswith_app _ t _ H) as H'. cbn [append] in H'.
      now rewrite H'.
    + rewrite (IH H). apply orb_true_r.
Qed.

Lemma rstrip_prefix (s : string) : exists t, s = rstrip s ++ t.
Proof.
  induction s as [|c r [t IH]]; [now exists ""|].
  cbn [rstrip]. destruct (is_space_char (String c (rstrip r))).
  - now exists (String c r).
  - exists t. cbn. now rewrite <- IH.
Qed.

Lemma contains_rstrip (s p : string) :
  contains s p = false -> contains (rstrip s) p = false.
Proof.
  intros H. destruct (contains (rstrip s) p) eqn:E; [|reflexivity].
  destruct (rstrip_prefix s) as [t Ht].
  apply (contains_app_l _ t) in E. rewrite <- Ht in E. congruence.
Qed.

Lemma contains_strip (s p : string) :
  contains s p = false -> contains (strip s) p = false.
Proof. intros H. now apply contains_rstrip, contains_lstrip. Qed.

Lemma remove_all_absent (old s : string) :
  contains s old = false -> remove_all old s = s.
Proof.
  unfold remove_all. induction s as [|c r IH]; [reflexivity|].
  intros H. apply contains_cons in H as [Hs Hr].
  cbn [remove_from]. rewrite Hs. now rewrite (IH Hr).
Qed.

Lemma startswith_shorter (s p q : string) :
  startswith s (p ++ q) = true -> startswith s p = true.
Proof.
  revert s. induction p as [|x p IH]; intros s; [now destruct s|].
  destruct s as [|c r]; cbn; [discriminate|].
  intros H. apply andb_prop in H as [-> H]. now rewrite (IH _ H).
Qed.

Lemma contains_shorter (s p q : string) :
  contains s p = false -> contains s (p ++ q) = false.
Proof.
  induction s as [|c r IH]; intros H.
  - destruct p; [discriminate|reflexivity].
  - apply contains_cons in H as [Hs Hr]. cbn [contains].
    rewrite (IH Hr), orb_false_r.
    destruct (startswith (String c r) (p ++ q)) eqn:E; [|reflexivity].
    apply startswith_shorter in E. congruence.
Qed.

Lemma startswith_refl (s : string) : startswith s s = true.
Proof. induction s; cbn; [reflexivity|]. now rewrite Ascii.eqb_refl. Qed.

Lemma startswith_contains (s p : string) :
  startswith s p = true -> contains s p = true.
Proof. intros H. destruct s; cbn [contains]; now rewrite H. Qed.

Lemma endswith_contains (s p : string) :
  endswith s p = true -> contains s p = true.
Proof.
  induction s as [|c r IH]; cbn [endswith contains]; intros H.
  - rewrite orb_false_r in H. apply String.eqb_eq in H. now subst.
  - apply orb_prop in H as [H|H].
    + apply String.eqb_eq in H. subst p. now rewrite startswith_refl.
    + rewrite (IH H). apply orb_true_r.
Qed.

Lemma lstrip_not_led_bounded (n : nat) (s : string) :
  String.length s <= n -> space_led (lstrip s) = false.
Proof.
  revert s. induction n as [|n IH]; intros s Hn.
  { destruct s; [reflexivity|cbn in Hn; lia]. }
  destruct s as [|a r]; [reflexivity|]. cbn [String.length] in Hn.
  cbn [lstrip]. destruct (is_space a) eqn:Ea; [apply IH; lia|].
  destruct r as [|b r2]; [cbn; now rewrite Ea|]. cbn [String.length] in Hn.
  destruct (is_space2 a b) eqn:Eb; [apply IH; lia|].
  destruct r2 as [|c r3]; [cbn; now rewrite Ea, Eb|].
  cbn [String.length] in Hn.
  destruct (is_space3 a b c) eqn:Ec; [apply IH; lia|].
  cbn. now rewrite Ea, Eb, Ec.
Qed.

Lemma lstrip_not_led (s : string) : space_led (lstrip s) = false.
Proof. now apply (lstrip_not_led_bounded (String.length s)). Qed.

Lemma lstrip_id (s : string) : space_led s = false -> lstrip s = s.
Proof.
  destruct s as [|a r]; [reflexivity|]. cbn [space_led lstrip].
  destruct (is_space a); [discriminate|]. cbn [orb].
  destruct r as [|b r2]; [reflexivity|].
  destruct (is_space2 a b); [discriminate|]. cbn [orb].
  destruct r2 as [|c r3]; [reflexivity|].
  now destruct (is_space3 a b c).
Qed.

Lemma space_led_app (p t : string) :
  space_led p = true -> space_led (p ++ t) = true.
Proof.
  destruct p as [|a r]; [discriminate|]. cbn [space_led append].
  destruct (is_space a); [reflexivity|]. cbn [orb].
  destruct r as [|b r2]; [discriminate|]. cbn [append].
  destruct (is_space2 a b); [reflexivity|]. cbn [orb].
  destruct r2 as [|c r3]; [discriminate|]. now cbn [append].
Qed.

Lemma rstrip_not_led (s : string) :
  space_led s = false -> space_led (rstrip s) = false.
Proof.
  intros H. destruct (space_led (rstrip s)) eqn:E; [|reflexivity].
  destruct (rstrip_prefix s) as [t Ht].
  apply (space_led_app _ t) in E. rewrite <- Ht in E. congruence.
Qed.

Lemma rstrip_idem (s : string) : rstrip (rstrip s) = rstrip s.
Proof.
  induction s as [|c r IH]; [reflexivity|]. cbn [rstrip].
  destruct (is_space_char (String c (rstrip r))) eqn:E; [reflexivity|].
  cbn [rstrip]. now rewrite IH, E.
Qed.

Lemma strip_idem (s : string) : strip (strip s) = strip s.
Proof.
  unfold strip.
  rewrite (lstrip_id (rstrip (lstrip s))) by apply rstrip_not_led, lstrip_not_led.
  apply rstrip_idem.
Qed.

Lemma loop_clean_without_fence (raw : string) :
  contains raw fence = false -> Agendator.clean_json_str raw = strip raw.
Proof.
  intros H. unfold Agendator.clean_json_str.
  pose proof (contains_strip _ _ H) as Hs.
  rewrite (remove_all_absent "```json") by exact (contains_shorter _ fence "json" Hs).
  now apply remove_all_absent.
Qed.

Lemma actions_clean_without_fence (raw : string) :
  contains raw fence = false -> AgendatorActions.clean_json_str raw = strip raw.
Proof.
  intros H. unfold AgendatorActions.clean_json_str.
  pose proof (contains_strip _ _ H) as Hs.
  destruct (startswith (strip raw) "```json") eqn:E1.
  { apply (startswith_shorter _ fence "json"), startswith_contains in E1.
    congruence. }
  destruct (endswith (strip raw) "```") eqn:E2.
  { apply endswith_contains in E2. unfold fence in Hs. congruence. }
  apply strip_idem.
Qed.

(** On a raw text that holds no code-fence marker the two variants compute
    the same cleaned text (the stripped text) and the same outcome of the
    cleaning-and-parsing step. *)
Theorem cleanings_agree_without_fence (raw : string) :
  contains raw fence = false ->
  Agendator.clean_json_str raw = AgendatorActions.clean_json_str raw
  /\ snd (Agendator.clean_and_parse (JStr raw))
     = snd (AgendatorActions.clean_and_parse (JStr raw)).
Proof.
  intros H.
  assert (E : Agendator.clean_json_str raw = AgendatorActions.clean_json_str raw)
    by now rewrite loop_clean_without_fence, actions_clean_without_fence.
  split; [exact E|].
  unfold Agendator.clean_and_parse, AgendatorActions.clean_and_parse.
  rewrite E. now destruct (is_empty _).
Qed.

(** So for a text with surrounding blanks. *)
Lemma cleanings_agree_witness :
  Agendator.clean_json_str (text "  {'eventos': []} ")
  = AgendatorActions.clean_json_str (text "  {'eventos': []} ")
  /\ snd (Agendator.clean_and_parse (JStr (text "  {'eventos': []} ")))
     = snd (AgendatorActions.clean_and_parse (JStr (text "  {'eventos': []} "))).
Proof.
  apply (cleanings_agree_without_fence (text "  {'eventos': []} ")).
  vm_compute. reflexivity.
Defined.

(** Claim C10, counterexample. A summary that holds code fences: the
    continuous-loop variant deletes them from the summary, the single-shot
    variant keeps the summary as the model wrote it. *)
Lemma cleanings_differ_on_inner_fence :
  snd (Agendator.clean_and_parse (JStr fence_inside))
  = Ok (JArr [candidate "2025-01-01T10:00:00-03:00" "Rever make na ata"])
  /\ snd (AgendatorActions.clean_and_parse (JStr fence_inside))
     = Ok (JArr [candidate "2025-01-01T10:00:00-03:00" "Rever ```make``` na ata"]).
Proof. split; vm_compute; reflexivity. Qed.

(** *** A payload between fences *)

Lemma lstrip_blank_app (pre s : string) :
  blank pre = true -> lstrip (pre ++ s) = lstrip s.
Proof.
  induction pre as [|c r IH]; cbn; [reflexivity|].
  intros H. apply andb_prop in H as [-> H]. now apply IH.
Qed.

Lemma rstrip_blank (s : string) : blank s = true -> rstrip s = "".
Proof.
  induction s as [|c r IH]; cbn; [reflexivity|].
  intros H. apply andb_prop in H as [-> H]. now rewrite (IH H).
Qed.

Lemma rstrip_app_blank (s post : string) :
  blank post = true -> rstrip (s ++ post) = rstrip s.
Proof.
  intros H. induction s as [|c r IH]; cbn [append rstrip].
  - now apply rstrip_blank.
  - now rewrite IH.
Qed.

Lemma rstrip_app_kept (a b : string) :
  3 <= String.length (rstrip b) -> rstrip (a ++ b) = a ++ rstrip b.
Proof.
  intros H. induction a as [|c r IH]; cbn [append rstrip]; [reflexivity|].
  rewrite IH.
  assert (E : is_space_char (String c (r ++ rstrip b)) = false).
  { destruct r as [|x [|y [|z r]]]; cbn [append];
      destruct (rstrip b) as [|u [|v [|w t]]]; cbn in H; try lia; reflexivity. }
  now rewrite E.
Qed.

Lemma startswith_nil (s : string) : startswith s "" = true.
Proof. now destruct s. Qed.

Lemma remove_from_over (old' body t : string) :
  contains body "`" = false ->
  remove_from 0 (String "`" old') (body ++ t)
  = body ++ remove_from 0 (String "`" old') t.
Proof.
  induction body as [|c r IH]; [reflexivity|].
  intros H. apply contains_cons in H as [Hc Hr].
  cbn [append remove_from startswith].
  cbn [startswith] in Hc.
  destruct (Ascii.eqb "`" c);
    [now rewrite startswith_nil in Hc|cbn [andb]].
  now rewrite (IH Hr).
Qed.

Lemma startswith_app_self (p s : string) : startswith (p ++ s) p = true.
Proof.
  induction p as [|c r IH]; cbn; [apply startswith_nil|].
  now rewrite Ascii.eqb_refl, IH.
Qed.

Lemma remove_from_skip (old a s : string) :
  remove_from (String.length a) old (a ++ s) = remove_from 0 old s.
Proof. induction a as [|c r IH]; [reflexivity|exact IH]. Qed.

(** A leading occurrence is removed. *)
Lemma remove_all_prefix (x : ascii) (old' s : string) :
  remove_from 0 (String x old') (String x old' ++ s)
  = remove_from 0 (String x old') s.
Proof.
  cbn [append remove_from].
  change (String x (old' ++ s)) with (String x old' ++ s).
  rewrite startswith_app_self. cbn [String.length Nat.sub].
  rewrite Nat.sub_0_r. apply remove_from_skip.
Qed.

Lemma endswith_app (a p : string) : endswith (a ++ p) p = true.
Proof.
  induction a as [|c r IH]; cbn [append].
  - destruct p; cbn; [reflexivity|]. now rewrite Ascii.eqb_refl, String.eqb_refl.
  - cbn [endswith]. rewrite IH. apply orb_true_r.
Qed.

Lemma string_length_app (a b : string) :
  String.length (a ++ b) = String.length a + String.length b.
Proof. induction a; cbn; [reflexivity|]. now rewrite IHa. Qed.

Lemma substring_prefix (a b : string) :
  substring 0 (String.length a) (a ++ b) = a.
Proof.
  induction a as [|c r IH]; cbn.
  - now destruct b.
  - now rewrite IH.
Qed.

Lemma drop_last_app (a p : string) :
  drop_last (String.length p) (a ++ p) = a.
Proof.
  unfold drop_last. rewrite string_length_app, Nat.add_sub. apply substring_prefix.
Qed.

Lemma strip_fenced (pre body post : string) :
  blank pre = true -> blank post = true ->
  strip (pre ++ ("```json" ++ body ++ fence) ++ post)
  = "```json" ++ body ++ fence.
Proof.
  intros Hpre Hpost. unfold strip.
  rewrite (lstrip_blank_app _ _ Hpre).
  change (lstrip (("```json" ++ body ++ fence) ++ post))
    with (("```json" ++ body ++ fence) ++ post).
  rewrite (rstrip_app_blank _ _ Hpost).
  rewrite <- append_assoc. rewrite rstrip_app_kept; [reflexivity|].
  vm_compute. lia.
Qed.

(** On a text made of blanks, the marker with [json], a payload that holds
    no backtick, the closing marker and blanks, the continuous-loop variant
    keeps the payload as it stands and the single-shot variant strips it:
    the two cleaned texts are the same when the payload has no blank at
    either end, and differ by those blanks otherwise. *)
Theorem cleanings_of_a_fenced_payload (pre body post : string) :
  blank pre = true -> blank post = true -> contains body "`" = false ->
  Agendator.clean_json_str (pre ++ ("```json" ++ body ++ fence) ++ post)
  = body
  /\ AgendatorActions.clean_json_str (pre ++ ("```json" ++ body ++ fence) ++ post)
     = strip body.
Proof.
  intros Hpre Hpost Hbody.
  unfold Agendator.clean_json_str, AgendatorActions.clean_json_str.
  rewrite (strip_fenced _ _ _ Hpre Hpost). split.
  - unfold remove_all.
    rewrite (remove_all_prefix "`" "``json").
    rewrite (remove_from_over _ _ _ Hbody).
    change (remove_from 0 "```json" fence) with fence.
    rewrite (remove_from_over _ _ _ Hbody).
    change (remove_from 0 "```" fence) with "".
    apply append_nil_r.
  - rewrite startswith_app_self.
    change (drop 7 ("```json" ++ body ++ fence)) with (body ++ fence).
    change (endswith (body ++ fence) "```") with (endswith (body ++ fence) fence).
    rewrite (endswith_app body fence).
    change 3 with (String.length fence).
    now rewrite drop_last_app.
Qed.

Lemma cleanings_of_a_fenced_payload_witness :
  Agendator.clean_json_str
    ((" " ++ nl) ++ ("```json" ++ (nl ++ text "{'eventos': []}" ++ nl) ++ fence)
     ++ " ")
  = nl ++ text "{'eventos': []}" ++ nl
  /\ AgendatorActions.clean_json_str
       ((" " ++ nl) ++ ("```json" ++ (nl ++ text "{'eventos': []}" ++ nl) ++ fence)
        ++ " ")
     = strip (nl ++ text "{'eventos': []}" ++ nl).
Proof.
  apply (cleanings_of_a_fenced_payload (" " ++ nl)
           (nl ++ text "{'eventos': []}" ++ nl) " "); reflexivity.
Defined.

(** *** Whitespace around a JSON text *)

Lemma lex_blank (w : string) : json_blank w = true -> lex LNormal w = [].
Proof.
  induction w as [|c r IH]; [reflexivity|]. cbn [json_blank].
  intros H. apply andb_prop in H as [Hc Hr].
  cbn [lex]. unfold normal_step. rewrite Hc. cbn [emit]. now apply IH.
Qed.

Lemma lex_blank_app (w s : string) :
  json_blank w = true -> lex LNormal (w ++ s) = lex LNormal s.
Proof.
  induction w as [|c r IH]; [reflexivity|]. cbn [json_blank].
  intros H. apply andb_prop in H as [Hc Hr].
  cbn [append lex]. unfold normal_step. rewrite Hc. cbn [emit]. now apply IH.
Qed.

Lemma json_space_cases (c : ascii) :
  is_json_space c = true ->
  c = " "%char \/ c = "009"%char \/ c = "010"%char \/ c = "013"%char.
Proof.
  destruct c as [[] [] [] [] [] [] [] []]; cbn; intros H;
    try discriminate; tauto.
Qed.

Lemma num_step_space (st : num_state) (c : ascii) :
  is_json_space c = true -> num_step st c = None.
Proof.
  intros H.
  destruct (json_space_cases c H) as [-> | [-> | [-> | ->]]];
    destruct st; reflexivity.
Qed.

Lemma hex_val_space (c : ascii) : is_json_space c = true -> hex_val c = None.
Proof.
  intros H.
  destruct (json_space_cases c H) as [-> | [-> | [-> | ->]]]; reflexivity.
Qed.

Lemma simple_escape_space (c : ascii) :
  is_json_space c = true ->
  simple_escape c = None /\ Ascii.eqb c "u" = false
  /\ Ascii.eqb c dquote = false /\ Ascii.eqb c backslash = false.
Proof.
  intros H.
  destruct (json_space_cases c H) as [-> | [-> | [-> | ->]]];
    repeat split; reflexivity.
Qed.

Lemma startswith_app_blank (p s w : string) :
  json_blank w = true ->
  (forall c, In c (list_ascii_of_string p) -> is_json_space c = false) ->
  startswith (s ++ w) p = startswith s p.
Proof.
  intros Hw Hp. revert s.
  induction p as [|a p IH]; intros s.
  - now rewrite !startswith_nil.
  - destruct s as [|b s]; cbn [append].
    + destruct w as [|b w]; [reflexivity|]. cbn [startswith].
      cbn [json_blank] in Hw. apply andb_prop in Hw as [Hb _].
      destruct (Ascii.eqb a b) eqn:E; [|reflexivity].
      apply Ascii.eqb_eq in E. subst b.
      rewrite (Hp a) in Hb; [discriminate|now left].
    + cbn [startswith]. rewrite IH; [reflexivity|].
      intros c Hc. apply Hp. now right.
Qed.

Ltac no_space_in :=
  let c := fresh "c" in let H := fresh "H" in
  intros c H; cbn in H;
  repeat (destruct H as [<- | H]; [reflexivity|]); destruct H.

Lemma normal_step_app_blank (c : ascii) (r w : string) :
  json_blank w = true ->
  normal_step c (String c r ++ w) = normal_step c (String c r).
Proof.
  intros Hw. unfold normal_step.
  rewrite !(startswith_app_blank _ _ _ Hw) by no_space_in.
  reflexivity.
Qed.

Lemma normal_step_fits (c : ascii) (r : string) (t : option token)
  (m : lex_mode) :
  normal_step c (String c r) = Some (t, m) -> read_ahead_fits m r.
Proof.
  unfold normal_step.
  repeat match goal with
         | |- (if ?b then _ else _) = _ -> _ =>
             let E := fresh "E" in destruct b eqn:E
         end;
    intros [= <- <-]; cbn [read_ahead_fits]; try exact I;
    match goal with
    | E : startswith _ _ = true |- _ =>
        apply startswith_length in E; cbn [String.length] in E; lia
    end.
Qed.

Lemma hex4_app_blank (s w : string) :
  json_blank w = true -> hex4 (s ++ w) = hex4 s.
Proof.
  intros Hw.
  assert (Hhead : forall b t, w = String b t -> hex_val b = None).
  { intros b t ->. cbn [json_blank] in Hw. apply andb_prop in Hw as [Hb _].
    now apply hex_val_space. }
  destruct s as [|a [|b [|c [|d s]]]]; cbn [append hex4]; try reflexivity.
  - destruct w as [|x [|y [|z [|u t]]]]; try reflexivity.
    cbn [hex4]. now rewrite (Hhead x _ eq_refl).
  - destruct w as [|x [|y [|z t]]]; try reflexivity.
    cbn [hex4]. rewrite (Hhead x _ eq_refl). now destruct (hex_val a).
  - destruct w as [|x [|y t]]; try reflexivity.
    cbn [hex4]. rewrite (Hhead x _ eq_refl).
    destruct (hex_val a); [|reflexivity]. now destruct (hex_val b).
  - destruct w as [|x t]; try reflexivity.
    cbn [hex4]. rewrite (Hhead x _ eq_refl).
    destruct (hex_val a); [|reflexivity].
    destruct (hex_val b); [|reflexivity]. now destruct (hex_val c).
Qed.

Lemma hex4_length (s : string) (z : Z) :
  hex4 s = Some z -> 4 <= String.length s.
Proof.
  destruct s as [|a [|b [|c [|d s]]]]; try discriminate.
  intros _. cbn. lia.
Qed.

Lemma unicode_escape_fits (s : string) (units : list ascii) (n : nat) :
  unicode_escape s = Some (units, n) -> n <= String.length s.
Proof.
  unfold unicode_escape.
  destruct (hex4 s) as [hi|] eqn:Eh; [|discriminate].
  pose proof (hex4_length _ _ Eh) as H4.
  destruct s as [|a [|b [|c [|d s]]]]; cbn [String.length] in H4; try lia.
  cbn [drop String.length].
  destruct ((55296 <=? hi)%Z && (hi <=? 56319)%Z)%bool;
    [|intros [= <- <-]; lia].
  destruct s as [|x [|y s]]; try (intros [= <- <-]; lia).
  destruct (Ascii.eqb x backslash && Ascii.eqb y "u")%bool;
    [|intros [= <- <-]; lia].
  destruct (hex4 s) as [lo|] eqn:El; [|intros [= <- <-]; lia].
  apply hex4_length in El.
  destruct ((56320 <=? lo)%Z && (lo <=? 57343)%Z)%bool;
    intros [= <- <-]; cbn [String.length]; lia.
Qed.

Lemma unicode_escape_app_blank (s w : string) :
  json_blank w = true -> unicode_escape (s ++ w) = unicode_escape s.
Proof.
  intros Hw. unfold unicode_escape. rewrite (hex4_app_blank _ _ Hw).
  destruct (hex4 s) as [hi|] eqn:Eh; [|reflexivity].
  destruct ((55296 <=? hi)%Z && (hi <=? 56319)%Z)%bool; [|reflexivity].
  pose proof (hex4_length _ _ Eh) as H4.
  destruct s as [|a [|b [|c [|d s]]]]; cbn [String.length] in H4; try lia.
  cbn [append drop].
  destruct s as [|x [|y s]]; cbn [append].
  - destruct w as [|u [|v t]]; try reflexivity.
    cbn [json_blank] in Hw. apply andb_prop in Hw as [Hu _].
    destruct (simple_escape_space u Hu) as (_ & _ & _ & ->). reflexivity.
  - destruct w as [|u t]; try reflexivity.
    cbn [json_blank] in Hw. apply andb_prop in Hw as [Hu _].
    destruct (simple_escape_space u Hu) as (_ & -> & _ & _).
    now rewrite andb_false_r.
  - now rewrite (hex4_app_blank _ _ Hw).
Qed.

Lemma lex_string_blank (w : string) (acc : list ascii) :
  json_blank w = true -> lex (LString acc) w = [TError true].
Proof.
  revert acc. induction w as [|c r IH]; intros acc; [reflexivity|].
  cbn [json_blank]. intros H. apply andb_prop in H as [Hc Hr].
  cbn [lex]. destruct (simple_escape_space c Hc) as (_ & _ & -> & ->).
  destruct (code c <? 32)%nat; [reflexivity|]. now apply IH.
Qed.

(** Whitespace of JSON after a text adds no token and no failure. *)
Lemma lex_app_blank (s w : string) (m : lex_mode) :
  json_blank w = true -> read_ahead_fits m s -> lex m (s ++ w) = lex m s.
Proof.
  intros Hw. revert m. induction s as [|c r IH]; intros m Hm.
  - cbn [append].
    destruct w as [|c r]; [reflexivity|].
    pose proof Hw as Hw'. cbn [json_blank] in Hw'.
    apply andb_prop in Hw' as [Hc Hr].
    destruct (simple_escape_space c Hc) as (Hse & Hu & Hq & Hb).
    destruct m as [|n back|acc|acc|st acc].
    + now apply lex_blank.
    + cbn [read_ahead_fits String.length] in Hm.
      assert (n = 0) as -> by lia.
      destruct back as [acc|].
      * exact (lex_string_blank _ acc Hw).
      * cbn [lex]. unfold normal_step. rewrite Hc. cbn [emit].
        now apply lex_blank.
    + exact (lex_string_blank _ acc Hw).
    + cbn [lex]. now rewrite Hu, Hse.
    + cbn [lex]. rewrite (num_step_space st c Hc).
      destruct (num_flush st acc) as [t complete].
      destruct complete; [|reflexivity].
      unfold normal_step. rewrite Hc. cbn [emit].
      now rewrite (lex_blank r Hr).
  - change (String c r ++ w) with (String c (r ++ w)).
    destruct m as [|n back|acc|acc|st acc].
    + cbn [lex]. change (String c (r ++ w)) with (String c r ++ w).
      rewrite (normal_step_app_blank _ _ _ Hw).
      destruct (normal_step c (String c r)) as [[t m']|] eqn:E; [|reflexivity].
      rewrite IH; [reflexivity|]. exact (normal_step_fits _ _ _ _ E).
    + destruct n as [|n].
      * destruct back as [acc|].
        -- cbn [lex]. rewrite !IH by exact I. reflexivity.
        -- cbn [lex]. change (String c (r ++ w)) with (String c r ++ w).
           rewrite (normal_step_app_blank _ _ _ Hw).
           destruct (normal_step c (String c r)) as [[t m']|] eqn:E;
             [|reflexivity].
           rewrite IH; [reflexivity|]. exact (normal_step_fits _ _ _ _ E).
      * cbn [lex]. apply IH. cbn [read_ahead_fits String.length] in Hm |- *.
        lia.
    + cbn [lex]. rewrite !IH by exact I. reflexivity.
    + cbn [lex]. rewrite (unicode_escape_app_blank _ _ Hw).
      destruct (Ascii.eqb c "u").
      * destruct (unicode_escape r) as [[units n]|] eqn:E; [|reflexivity].
        apply IH. exact (unicode_escape_fits _ _ _ E).
      * destruct (simple_escape c); [|reflexivity]. now apply IH.
    + cbn [lex]. change (String c (r ++ w)) with (String c r ++ w).
      rewrite (normal_step_app_blank _ _ _ Hw).
      destruct (num_step st c); [now apply IH|].
      destruct (num_flush st acc) as [t complete].
      destruct complete; [|reflexivity].
      destruct (normal_step c (String c r)) as [[t' m']|] eqn:E; [|reflexivity].
      rewrite IH; [reflexivity|]. exact (normal_step_fits _ _ _ _ E).
Qed.

Lemma loads_blank_around (w1 s w2 : string) :
  json_blank w1 = true -> json_blank w2 = true ->
  loads (w1 ++ s ++ w2) = loads s.
Proof.
  intros H1 H2. unfold loads, json_decode.
  rewrite (lex_blank_app _ _ H1). now rewrite (lex_app_blank s w2 LNormal H2 I).
Qed.

(** *** A payload with optional fences *)

Lemma no_marker_across_the_closing_fence (body : string) :
  contains body fence = false -> contains (body ++ fence) "```json" = false.
Proof.
  induction body as [|c r IH]; [reflexivity|].
  intros H. apply contains_cons in H as [Hs Hr].
  cbn [append contains]. rewrite (IH Hr), orb_false_r.
  destruct r as [|d [|e r]]; cbn [append startswith fence] in Hs |- *.
  - destruct (Ascii.eqb "`" c); reflexivity.
  - destruct (Ascii.eqb "`" c), (Ascii.eqb "`" d); reflexivity.
  - destruct (Ascii.eqb "`" c), (Ascii.eqb "`" d), (Ascii.eqb "`" e);
      try reflexivity.
    now rewrite startswith_nil in Hs.
Qed.

Lemma closing_fence_removed (body : string) :
  contains body fence = false -> remove_from 0 fence (body ++ fence) = body.
Proof.
  induction body as [|c r IH]; [reflexivity|].
  intros H. apply contains_cons in H as [Hs Hr].
  cbn [append remove_from].
  destruct (startswith (String c (r ++ fence)) fence) eqn:E.
  - destruct r as [|d [|e r]]; cbn [append startswith fence] in Hs, E.
    + destruct (Ascii.eqb_spec "`" c) as [<-|]; [reflexivity|discriminate].
    + destruct (Ascii.eqb_spec "`" c) as [<-|]; [|discriminate].
      destruct (Ascii.eqb_spec "`" d) as [<-|]; [reflexivity|discriminate].
    + destruct (Ascii.eqb "`" c), (Ascii.eqb "`" d), (Ascii.eqb "`" e);
        try discriminate.
      now rewrite startswith_nil in Hs.
  - now rewrite (IH Hr).
Qed.

Lemma contains_head (s p : string) :
  contains s p = false -> startswith s p = false.
Proof.
  intros H. destruct (startswith s p) eqn:E; [|reflexivity].
  apply startswith_contains in E. congruence.
Qed.

Lemma contains_tail (s p : string) :
  contains s p = false -> endswith s p = false.
Proof.
  intros H. destruct (endswith s p) eqn:E; [|reflexivity].
  apply endswith_contains in E. congruence.
Qed.

Lemma no_marker_in_payload (body closing : string) :
  closing = "" \/ closing = fence -> contains body fence = false ->
  contains (body ++ closing) "```json" = false.
Proof.
  intros [-> | ->] H.
  - rewrite append_nil_r. exact (contains_shorter _ fence "json" H).
  - now apply no_marker_across_the_closing_fence.
Qed.

Lemma loop_clean_fenced (raw opening body closing : string) :
  strip raw = opening ++ body ++ closing ->
  opening = "" \/ opening = "```json" ->
  closing = "" \/ closing = fence ->
  contains body fence = false ->
  Agendator.clean_json_str raw = body.
Proof.
  intros Hs Ho Hc Hb. unfold Agendator.clean_json_str. rewrite Hs.
  pose proof (no_marker_in_payload body closing Hc Hb) as Hm.
  assert (E : remove_all "```json" (opening ++ body ++ closing)
              = body ++ closing).
  { destruct Ho as [-> | ->].
    - now apply remove_all_absent.
    - unfold remove_all. rewrite (remove_all_prefix "`" "``json").
      now apply remove_all_absent. }
  rewrite E. destruct Hc as [-> | ->].
  - rewrite append_nil_r. now apply remove_all_absent.
  - now apply closing_fence_removed.
Qed.

Lemma actions_clean_fenced (raw opening body closing : string) :
  strip raw = opening ++ body ++ closing ->
  opening = "" \/ opening = "```json" ->
  closing = "" \/ closing = fence ->
  contains body fence = false ->
  AgendatorActions.clean_json_str raw = strip body.
Proof.
  intros Hs Ho Hc Hb. unfold AgendatorActions.clean_json_str.
  cbv zeta. rewrite Hs.
  pose proof (no_marker_in_payload body closing Hc Hb) as Hm.
  assert (E : (if startswith (opening ++ body ++ closing) "```json"
               then drop 7 (opening ++ body ++ closing)
               else opening ++ body ++ closing) = body ++ closing).
  { destruct Ho as [-> | ->].
    - cbn [append]. now rewrite (contains_head _ _ Hm).
    - now rewrite startswith_app_self. }
  rewrite E. destruct Hc as [-> | ->].
  - rewrite append_nil_r.
    change (endswith body "```") with (endswith body fence).
    now rewrite (contains_tail _ _ Hb).
  - change (endswith (body ++ fence) "```") with (endswith (body ++ fence) fence).
    rewrite (endswith_app body fence).
    change 3 with (String.length fence). now rewrite drop_last_app.
Qed.

(** From the cleaned text to the result of [get_events_from_email]. *)
Lemma loop_result_of_text (cfg : config) (service : gemini_service)
  (email : email_data) (raw : string) :
  answers_text (service 0) (JStr raw) ->
  snd (Agendator.get_events_from_email cfg service email)
  = candidates_of_payload (Agendator.clean_json_str raw).
Proof.
  intros Ha. unfold Agendator.get_events_from_email. rewrite build_prompt_eq.
  rewrite (loop_try_block_text _ _ _ Ha).
  unfold Agendator.clean_and_parse, candidates_of_payload.
  destruct (is_empty (Agendator.clean_json_str raw)); [reflexivity|].
  destruct (loads (Agendator.clean_json_str raw)) as [v|e] eqn:El; cbn [bind].
  - destruct v as [| | | | | |ms]; try reflexivity. cbn [get_default].
    destruct (lookup "eventos" ms); reflexivity.
  - destruct (loads_raises _ _ El) as [-> | [-> | ->]]; reflexivity.
Qed.

Lemma actions_result_of_text (cfg : config) (service : gemini_service)
  (email : email_data) (raw : string) :
  answers_text (service 0) (JStr raw) ->
  snd (AgendatorActions.get_events_from_email cfg service email)
  = candidates_of_payload (AgendatorActions.clean_json_str raw).
Proof.
  intros Ha. unfold AgendatorActions.get_events_from_email.
  rewrite build_prompt_eq.
  cbn [AgendatorActions.max_retries seq AgendatorActions.for_attempts].
  rewrite (actions_try_block_text _ _ _ _ Ha).
  unfold AgendatorActions.clean_and_parse, candidates_of_payload.
  destruct (is_empty (AgendatorActions.clean_json_str raw)); [reflexivity|].
  destruct (loads (AgendatorActions.clean_json_str raw)) as [v|e] eqn:El;
    cbn [bind].
  - destruct v as [| | | | | |ms]; try reflexivity. cbn [get_default].
    destruct (lookup "eventos" ms); reflexivity.
  - destruct (loads_raises _ _ El) as [-> | [-> | ->]]; reflexivity.
Qed.

Lemma candidates_blank_around (w1 core w2 : string) :
  json_blank w1 = true -> json_blank w2 = true ->
  candidates_of_payload (w1 ++ core ++ w2) = candidates_of_payload core.
Proof.
  intros H1 H2. unfold candidates_of_payload.
  rewrite (loads_blank_around _ _ _ H1 H2).
  destruct core as [|c r].
  - destruct (is_empty _); reflexivity.
  - assert (E : is_empty (w1 ++ String c r ++ w2) = false)
      by now destruct w1.
    now rewrite E.
Qed.

(** Claim C10, as amended. The stripped output of the model is a payload
    that holds no fence, after the marker with [json] or nothing and before
    a fence or nothing, and the payload has nothing but whitespace of JSON
    around its own stripped text. Then the two variants return the same:
    what the stripped payload decodes to. *)
Theorem cleanings_agree_on_a_fenced_payload (cfg : config)
  (service : gemini_service) (email : email_data)
  (raw opening body closing w1 w2 : string) :
  answers_text (service 0) (JStr raw) ->
  strip raw = opening ++ body ++ closing ->
  opening = "" \/ opening = "```json" ->
  closing = "" \/ closing = "```" ->
  contains body "```" = false ->
  body = w1 ++ strip body ++ w2 ->
  json_blank w1 = true -> json_blank w2 = true ->
  snd (Agendator.get_events_from_email cfg service email)
  = snd (AgendatorActions.get_events_from_email cfg service email)
  /\ snd (AgendatorActions.get_events_from_email cfg service email)
     = candidates_of_payload (strip body).
Proof.
  intros Ha Hs Ho Hc Hb Hw H1 H2.
  rewrite (loop_result_of_text _ _ _ _ Ha), (actions_result_of_text _ _ _ _ Ha).
  rewrite (loop_clean_fenced _ _ _ _ Hs Ho Hc Hb).
  rewrite (actions_clean_fenced _ _ _ _ Hs Ho Hc Hb).
  split; [|reflexivity].
  rewrite <- (candidates_blank_around w1 (strip body) w2 H1 H2).
  now rewrite <- Hw.
Qed.

(** The theorem at the fenced answer of the specification: both variants
    return its one candidate. *)
Lemma cleanings_agree_on_the_fenced_example :
  snd (Agendator.get_events_from_email cfg0 (service_text fenced_example) email0)
  = snd (AgendatorActions.get_events_from_email cfg0
           (service_text fenced_example) email0)
  /\ snd (AgendatorActions.get_events_from_email cfg0
            (service_text fenced_example) email0)
     = Ok (JArr [candidate "2025-01-01T10:00:00-03:00" "Sync"]).
Proof.
  destruct (cleanings_agree_on_a_fenced_payload cfg0
              (service_text fenced_example) email0 fenced_example
              "```json"
              (nl ++ text "{'eventos':[{'start_datetime':'2025-01-01T10:00:00-03:00','summary':'Sync'}]}" ++ nl)
              "```" nl nl) as [Hsame Hval].
  - eexists _, _, _. repeat split; vm_compute; reflexivity.
  - vm_compute. reflexivity.
  - now right.
  - now right.
  - vm_compute. reflexivity.
  - vm_compute. reflexivity.
  - reflexivity.
  - reflexivity.
  - split; [exact Hsame|]. rewrite Hval. vm_compute. reflexivity.
Defined.

(** Claim C10, a second difference. Between plain fences, without [json]
    after the opening one, the continuous-loop variant decodes the payload
    and the single-shot variant, which leaves the opening fence in place,
    returns the empty list. *)
Lemma cleanings_differ_on_plain_fence :
  snd (Agendator.get_events_from_email cfg0 (service_text plain_fenced) email0)
  = Ok (JArr [candidate "2025-01-01T10:00:00-03:00" "Sync"])
  /\ snd (AgendatorActions.get_events_from_email cfg0
            (service_text plain_fenced) email0)
     = Ok empty_list.
Proof. split; vm_compute; reflexivity. Qed.

(** Whitespace that is not whitespace of JSON, here a form feed, between
    the fence and the payload: the single-shot variant strips it and
    decodes the payload, the continuous-loop variant keeps it and returns
    the empty list. *)
Lemma cleanings_differ_on_a_form_feed :
  snd (Agendator.get_events_from_email cfg0
         (service_text form_feed_fenced) email0)
  = Ok empty_list
  /\ snd (AgendatorActions.get_events_from_email cfg0
            (service_text form_feed_fenced) email0)
     = Ok (JArr [candidate "2025-01-01T10:00:00-03:00" "Sync"]).
Proof. split; vm_compute; reflexivity. Qed.

(** *** The candidates of a batch *)

Lemma logged_app (lvl : level) (a b : list effect) :
  logged lvl (a ++ b) = logged lvl a + logged lvl b.
Proof. unfold logged. now rewrite filter_app, List.length_app. Qed.

Lemma actions_create_no_warning (cal : calendar_call) (ev : json) :
  logged WARNING (snd (AgendatorActions.create_calendar_event cal ev)) = 0.
Proof.
  unfold AgendatorActions.create_calendar_event.
  destruct (getitem_key ev "summary"); [|reflexivity].
  destruct (client cal); [reflexivity|].
  destruct (AgendatorActions.build_event ev); [|reflexivity].
  destruct (insert cal a0); reflexivity.
Qed.

(** Whatever the candidates are, the loop of [main] hands no more of them
    to [create_calendar_event] than it was given; when it ends without an
    exception every candidate was either handed over or discarded with one
    warning. *)
Theorem candidates_are_materialized_or_discarded
  (calendar : nat -> calendar_call) (events : list json) (k : nat) :
  let '(tr, _, r) := AgendatorActions.for_events calendar k events in
  List.length (reports tr) + logged WARNING tr <= List.length events
  /\ (r = Ok tt ->
      List.length (reports tr) + logged WARNING tr = List.length events).
Proof.
  revert k. induction events as [|ev rest IH]; intros k.
  - cbn. split; [lia|reflexivity].
  - cbn [AgendatorActions.for_events].
    destruct (event_validator ev) as [[|]|e].
    + pose proof (actions_create_effects (calendar k) ev) as Hr.
      pose proof (actions_create_no_warning (calendar k) ev) as Hw.
      destruct (AgendatorActions.create_calendar_event (calendar k) ev)
        as [ok tr0]. cbn [snd] in Hr, Hw.
      specialize (IH (S k)).
      destruct (AgendatorActions.for_events calendar (S k) rest) as [[tr' k'] r].
      rewrite !reports_app, !logged_app, Hr, Hw, !List.length_app.
      cbn [List.length reports logged flat_map filter app Nat.add] in *.
      destruct IH as [IH1 IH2]. split; [lia|]. intros E. specialize (IH2 E). lia.
    + specialize (IH k).
      destruct (AgendatorActions.for_events calendar k rest) as [[tr' k'] r].
      change (Log WARNING "Evento malformado recebido da IA: " :: tr')
        with ([Log WARNING "Evento malformado recebido da IA: "] ++ tr')%list.
      rewrite reports_app, logged_app, List.length_app.
      cbn [List.length reports logged flat_map filter app Nat.add] in *.
      destruct IH as [IH1 IH2]. split; [lia|]. intros E. specialize (IH2 E). lia.
    + cbn. split; [lia|discriminate].
Qed.

(** The two candidates of the specification: the one without a start is
    discarded with one warning, the other is handed over. *)
Lemma one_of_two_candidates_is_validated :
  let '(tr, _, _) := AgendatorActions.for_events (fun _ => calendar_up) 0
                       [JObj [("summary", JStr "X")]; candidate "t" "Y"] in
  map fst (reports tr) = [candidate "t" "Y"] /\ logged WARNING tr = 1.
Proof. vm_compute. split; reflexivity. Qed.

(** *** Calendar arithmetic *)

Open Scope Z_scope.

Lemma month_day_checked (leap : bool) (r : Z) :
  0 <= r < 365 -> month_day_check leap r = true.
Proof.
  intros Hr.
  assert (H : forallb (fun k => month_day_check leap (Z.of_nat k)) (seq 0 365) = true)
    by (destruct leap; vm_compute; reflexivity).
  rewrite forallb_forall in H.
  specialize (H (Z.to_nat r)). rewrite Z2Nat.id in H by lia.
  apply H. apply in_seq. lia.
Qed.

Lemma days_before_year_split (a b c d : Z) :
  0 <= b <= 3 -> 0 <= c <= 24 -> 0 <= d <= 3 ->
  days_before_year (a * 400 + 1 + b * 100 + c * 4 + d)
  = a * 146097 + b * 36524 + c * 1461 + d * 365.
Proof.
  intros Hb Hc Hd. unfold days_before_year.
  Z.div_mod_to_equations. lia.
Qed.

Lemma is_leap_split (a b c d : Z) :
  0 <= b <= 3 -> 0 <= c <= 24 -> 0 <= d <= 3 ->
  is_leap (a * 400 + 1 + b * 100 + c * 4 + d)
  = ((d =? 3) && (negb (c =? 24) || (b =? 3)))%bool.
Proof.
  intros Hb Hc Hd. unfold is_leap.
  destruct (Z.eqb_spec d 3), (Z.eqb_spec c 24), (Z.eqb_spec b 3);
    repeat match goal with
           | |- context [?x =? ?y] => destruct (Z.eqb_spec x y)
           end; cbn; try reflexivity; exfalso;
    Z.div_mod_to_equations; lia.
Qed.

Lemma days_in_month_leap (y m : Z) :
  days_in_month y m
  = if ((m =? 2) && is_leap y)%bool then 29 else days_in_month 1 m.
Proof.
  unfold days_in_month. destruct (m =? 2); [|reflexivity].
  now destruct (is_leap y).
Qed.

(** [fromordinal] and [toordinal] are inverse, and the date found is a date
    of the calendar. *)
Lemma ymd2ord_ord2ymd (n : Z) :
  1 <= n ->
  let '(y, m, d) := ord2ymd n in
  ymd2ord y m d = n /\ 1 <= y /\ 1 <= m <= 12 /\ 1 <= d <= days_in_month y m.
Proof.
  intros Hn. unfold ord2ymd.
  set (n0 := n - 1).
  set (a := n0 / 146097). set (r1 := n0 mod 146097).
  set (b := r1 / 36524). set (r2 := r1 mod 36524).
  set (c := r2 / 1461). set (r3 := r2 mod 1461).
  set (d := r3 / 365). set (r4 := r3 mod 365).
  assert (Ha : n0 = a * 146097 + r1 /\ 0 <= r1 < 146097 /\ 0 <= a)
    by (subst a r1; Z.div_mod_to_equations; lia).
  assert (Hb : r1 = b * 36524 + r2 /\ 0 <= r2 < 36524 /\ 0 <= b <= 4)
    by (subst b r2; Z.div_mod_to_equations; lia).
  assert (Hc : r2 = c * 1461 + r3 /\ 0 <= r3 < 1461 /\ 0 <= c <= 24)
    by (subst c r3; Z.div_mod_to_equations; lia).
  assert (Hd : r3 = d * 365 + r4 /\ 0 <= r4 < 365 /\ 0 <= d <= 4)
    by (subst d r4; Z.div_mod_to_equations; lia).
  assert (Hn0 : n = n0 + 1 /\ 0 <= n0) by (subst n0; lia).
  clearbody a r1 b r2 c r3 d r4 n0.
  destruct ((d =? 4) || (b =? 4))%bool eqn:Eedge.
  - (* the last day of a leap year *)
    assert (Hy : a * 400 + 1 + b * 100 + c * 4 + d - 1
                 = a * 400 + 1 + (if b =? 4 then 3 else b) * 100
                   + (if b =? 4 then 24 else c) * 4 + 3).
    { apply orb_prop in Eedge as [E|E]; apply Z.eqb_eq in E;
        destruct (Z.eqb_spec b 4); lia. }
    rewrite Hy. unfold ymd2ord, days_before_month.
    rewrite days_in_month_leap.
    rewrite days_before_year_split, is_leap_split
      by (destruct (Z.eqb_spec b 4); lia).
    assert (El : ((3 =? 3) && (negb ((if b =? 4 then 24 else c) =? 24)
                               || ((if b =? 4 then 3 else b) =? 3)))%bool = true).
    { apply orb_prop in Eedge as [E|E]; apply Z.eqb_eq in E;
        destruct (Z.eqb_spec b 4); cbn -[Z.eqb];
        repeat match goal with
               | |- context [?x =? ?y] => destruct (Z.eqb_spec x y)
               end; cbn; try reflexivity; lia. }
    rewrite El. change (Z.to_nat 12) with 12%nat. cbn -[Z.mul Z.add].
    apply orb_prop in Eedge as [E|E]; apply Z.eqb_eq in E;
      destruct (Z.eqb_spec b 4); lia.
  - apply orb_false_elim in Eedge as [Ed Eb].
    apply Z.eqb_neq in Ed, Eb.
    pose proof (month_day_checked
                  ((d =? 3) && (negb (c =? 24) || (b =? 3)))%bool r4
                  (proj1 (proj2 Hd))) as Hm.
    unfold month_day_check, month_table in Hm.
    set (leap := ((d =? 3) && (negb (c =? 24) || (b =? 3)))%bool) in *.
    set (m := (r4 + 50) / 32) in *.
    set (preceding := nth (Z.to_nat m) _ 0 + _) in *.
    set (y := a * 400 + 1 + b * 100 + c * 4 + d).
    assert (Hdby : days_before_year y
                   = a * 146097 + b * 36524 + c * 1461 + d * 365)
      by (apply days_before_year_split; lia).
    assert (Hleap : is_leap y = leap) by (apply is_leap_split; lia).
    assert (Hy : 1 <= y) by (subst y; lia).
    clearbody y.
    destruct (r4 <? preceding);
      repeat (apply andb_prop in Hm as [Hm ?]);
      unfold ymd2ord, days_before_month;
      rewrite (days_in_month_leap y), Hdby, Hleap;
      repeat match goal with
             | |- context [nth ?i ?l 0] => generalize dependent (nth i l 0); intros
             | |- context [if ?b then ?x else ?z] =>
                 generalize dependent (if b then x else z); intros
             end;
      lia.
Qed.

(** Adding hours moves the instant by as many hours and keeps the offset
    and the microseconds. *)
Lemma add_hours_instant (dt dt' : datetime) (h : Z) :
  add_hours dt h = Some dt' ->
  instant dt' = instant dt + h * 3600 * 1000000
  /\ utcoffset dt' = utcoffset dt
  /\ microsecond dt' = microsecond dt.
Proof.
  unfold add_hours.
  set (secs := hour dt * 3600 + minute dt * 60 + second dt + h * 3600).
  set (days := ymd2ord (year dt) (month dt) (day dt) + secs / 86400).
  destruct ((0 <? days) && (days <=? MAXORDINAL))%bool eqn:E; [|discriminate].
  apply andb_prop in E as [E _]. apply Z.ltb_lt in E.
  pose proof (ymd2ord_ord2ymd days ltac:(lia)) as Hord.
  destruct (ord2ymd days) as [[y m] d]. destruct Hord as (Hord & _).
  intros [= <-]. unfold instant. cbn [year month day hour minute second
                                     microsecond utcoffset].
  rewrite Hord. repeat split.
  subst days.
  assert (Hs : secs = hour dt * 3600 + minute dt * 60 + second dt + h * 3600)
    by reflexivity.
  clearbody secs.
  destruct (utcoffset dt); Z.div_mod_to_equations; lia.
Qed.

Lemma days_before_month_bounds (y m : Z) :
  1 <= m <= 12 -> 0 <= days_before_month y m <= 335.
Proof.
  intros Hm. unfold days_before_month.
  assert (H : m = 1 \/ m = 2 \/ m = 3 \/ m = 4 \/ m = 5 \/ m = 6 \/ m = 7
              \/ m = 8 \/ m = 9 \/ m = 10 \/ m = 11 \/ m = 12) by lia.
  decompose [or] H; subst m; destruct (is_leap y); simpl; lia.
Qed.

Lemma valid_datetime_fields (dt : datetime) :
  valid_datetime dt = true ->
  1 <= year dt <= 9999 /\ 1 <= month dt <= 12
  /\ 1 <= day dt <= days_in_month (year dt) (month dt)
  /\ 0 <= hour dt <= 23 /\ 0 <= minute dt <= 59 /\ 0 <= second dt <= 59
  /\ 0 <= microsecond dt <= 999999.
Proof.
  unfold valid_datetime. intros H.
  repeat match type of H with
         | (_ && _)%bool = true => apply andb_prop in H as [H ?]
         end.
  lia.
Qed.

Lemma days_in_month_le_31 (y m : Z) : days_in_month y m <= 31.
Proof.
  unfold days_in_month.
  repeat match goal with
         | |- context [if ?b then _ else _] => destruct b
         end; lia.
Qed.

(** The hour added overflows only at the end of the year 9999. *)
Lemma add_hours_succeeds (dt : datetime) :
  valid_datetime dt = true -> year dt < 9999 ->
  exists dt', add_hours dt 1 = Some dt'.
Proof.
  intros Hv Hy. apply valid_datetime_fields in Hv.
  destruct Hv as (Hyear & Hmonth & Hday & Hh & Hm & Hs & _).
  unfold add_hours.
  set (secs := hour dt * 3600 + minute dt * 60 + second dt + 1 * 3600).
  set (days := ymd2ord (year dt) (month dt) (day dt) + secs / 86400).
  assert (Hd : 0 < days <= MAXORDINAL).
  { subst days secs. unfold ymd2ord, MAXORDINAL, days_before_year.
    pose proof (days_before_month_bounds (year dt) (month dt) Hmonth).
    pose proof (days_in_month_le_31 (year dt) (month dt)).
    Z.div_mod_to_equations. lia. }
  replace ((0 <? days) && (days <=? MAXORDINAL))%bool with true
    by (symmetry; apply andb_true_intro; split;
        [apply Z.ltb_lt|apply Z.leb_le]; lia).
  destruct (ord2ymd days) as [[y m] d]. eexists. reflexivity.
Qed.

Close Scope Z_scope.

(** *** The end of the event *)

(** Claim C1, which Agendator.py breaks. The claim says that the end
    submitted is one hour after the start. In the continuous-loop variant,
    whatever the candidate and the state of the calendar service, an event
    that is submitted carries the value of ['start_datetime'], unchanged,
    both as its start and as its end; on the example of the specification
    the end submitted is the text of 09:00. *)
Theorem loop_variant_end_is_the_start
  (cal : calendar_call) (event_info : json) :
  Forall (fun ev =>
            dateTime (ev_end ev) = dateTime (ev_start ev)
            /\ getitem_key event_info "start_datetime" = Ok (dateTime (ev_end ev)))
         (inserted (snd (Agendator.create_calendar_event cal event_info)))
  /\ map (fun ev => dateTime (ev_end ev))
         (inserted (snd (Agendator.create_calendar_event calendar_up
                           (candidate "2025-03-01T09:00:00-03:00" "Reunião"))))
     = [JStr "2025-03-01T09:00:00-03:00"].
Proof.
  split; [|reflexivity].
  unfold Agendator.create_calendar_event.
  destruct (getitem_key event_info "summary") as [s|] eqn:Es; [|constructor].
  destruct (client cal); [constructor|].
  unfold Agendator.build_event. rewrite Es. cbn [bind].
  destruct (getitem_key event_info "start_datetime") as [t|] eqn:Et;
    [|constructor].
  cbn [bind]. destruct (insert cal _); repeat constructor.
Qed.

(** The single-shot variant submits 10:00 there. *)
Lemma actions_end_on_the_example :
  map (fun ev => dateTime (ev_end ev))
      (inserted (snd (AgendatorActions.create_calendar_event calendar_up
                        (candidate "2025-03-01T09:00:00-03:00" "Reunião"))))
  = [JStr "2025-03-01T10:00:00-03:00"].
Proof. vm_compute. reflexivity. Qed.

Open Scope Z_scope.

Lemma candidate_summary (start summary : string) :
  getitem_key (candidate start summary) "summary" = Ok (JStr summary).
Proof. reflexivity. Qed.

Lemma candidate_start (start summary : string) :
  getitem_key (candidate start summary) "start_datetime" = Ok (JStr start).
Proof. reflexivity. Qed.

Lemma actions_build_event (start summary : string) (dt dt' : datetime) :
  fromisoformat start = Some dt -> add_hours dt 1 = Some dt' ->
  AgendatorActions.build_event (candidate start summary)
  = Ok {| ev_summary := JStr summary;
          ev_location := "Remoto";
          ev_description := JStr summary;
          ev_start := {| dateTime := JStr start; timeZone := "America/Sao_Paulo" |};
          ev_end := {| dateTime := JStr (isoformat dt');
                       timeZone := "America/Sao_Paulo" |} |}.
Proof.
  intros Hp Ha. unfold AgendatorActions.build_event.
  rewrite candidate_start. cbn [bind].
  unfold AgendatorActions.parse_start. rewrite Hp. cbn [bind].
  unfold AgendatorActions.plus_one_hour. rewrite Ha. cbn [bind].
  rewrite candidate_summary. reflexivity.
Qed.

Lemma fromisoformat_valid (s : string) (dt : datetime) :
  fromisoformat s = Some dt -> valid_datetime dt = true.
Proof.
  unfold fromisoformat.
  destruct (parse_isoformat_date _) as [[[y m] d]|]; [|discriminate].
  destruct (if (String.length s <=? 10)%nat then _ else _)
    as [[[[[hh mm] ss] us] off]|]; [|discriminate].
  destruct (valid_datetime _) eqn:E; [|discriminate].
  now intros [= <-].
Qed.

(** AgendatorActions.py does what claim C1 says. For every candidate whose
    ['start_datetime'] parses to a date before the year 9999, and whenever
    the calendar client can be built, the event submitted carries the text
    of the start as its start and, as its end, the ISO text of a datetime
    whose instant is the instant of the start plus exactly one hour, with
    the same offset. *)
Theorem actions_end_is_one_hour_after_start
  (cal : calendar_call) (start summary : string) (dt : datetime) :
  client cal = None ->
  fromisoformat start = Some dt -> year dt < 9999 ->
  exists dt',
    add_hours dt 1 = Some dt'
    /\ inserted (snd (AgendatorActions.create_calendar_event cal
                        (candidate start summary)))
       = [ {| ev_summary := JStr summary;
              ev_location := "Remoto";
              ev_description := JStr summary;
              ev_start := {| dateTime := JStr start;
                             timeZone := "America/Sao_Paulo" |};
              ev_end := {| dateTime := JStr (isoformat dt');
                           timeZone := "America/Sao_Paulo" |} |} ]
    /\ instant dt' = instant dt + 3600 * 1000000
    /\ utcoffset dt' = utcoffset dt.
Proof.
  intros Hc Hp Hy.
  destruct (add_hours_succeeds dt (fromisoformat_valid _ _ Hp) Hy) as [dt' Ha].
  exists dt'. split; [exact Ha|]. split.
  - unfold AgendatorActions.create_calendar_event.
    rewrite candidate_summary, Hc, (actions_build_event _ _ _ _ Hp Ha).
    destruct (insert cal _); reflexivity.
  - destruct (add_hours_instant _ _ _ Ha) as (Hi & Ho & _).
    split; [rewrite Hi; lia|exact Ho].
Qed.

(** The theorem on the example of the specification. *)
Lemma actions_end_witness :
  exists dt',
    add_hours example_start 1 = Some dt'
    /\ inserted (snd (AgendatorActions.create_calendar_event calendar_up
                        (candidate "2025-03-01T09:00:00-03:00" "Reunião")))
       = [ {| ev_summary := JStr "Reunião";
              ev_location := "Remoto";
              ev_description := JStr "Reunião";
              ev_start := {| dateTime := JStr "2025-03-01T09:00:00-03:00";
                             timeZone := "America/Sao_Paulo" |};
              ev_end := {| dateTime := JStr (isoformat dt');
                           timeZone := "America/Sao_Paulo" |} |} ]
    /\ instant dt' = instant example_start + 3600 * 1000000
    /\ utcoffset dt' = utcoffset example_start.
Proof.
  apply (actions_end_is_one_hour_after_start calendar_up
           "2025-03-01T09:00:00-03:00" "Reunião" example_start).
  - reflexivity.
  - vm_compute. reflexivity.
  - vm_compute. reflexivity.
Defined.

(** At the last hour of the year 9999 the addition overflows: the
    single-shot variant submits nothing and reports the failure. *)
Lemma actions_end_overflows_at_the_last_hour :
  AgendatorActions.create_calendar_event calendar_up
    (candidate "9999-12-31T23:30:00-03:00" "Fim")
  = (false, [Log INFO "Criando evento no calendário: '"; CalendarClient;
             Log ERROR "Erro ao criar evento no Google Calendar: "]).
Proof. vm_compute. reflexivity. Qed.

Close Scope Z_scope.

(** *** The examples of the specification and the single-shot variant *)

(** The single-shot variant at a service that never answers. *)
Lemma actions_retries_witness :
  let '(tr, r) := AgendatorActions.get_events_from_email cfg0
                    all_requests_fail email0 in
  posts tr = 2 /\ sleeps tr = [5%Z] /\ r = Ok empty_list.
Proof.
  apply (actions_retries_once_then_gives_up cfg0 all_requests_fail email0);
    left; reflexivity.
Defined.

(** The single-shot variant at a service that answers the second request. *)
Lemma actions_second_attempt_witness :
  let '(tr, r) := AgendatorActions.get_events_from_email cfg0
                    second_request_answers email0 in
  posts tr = 2 /\ sleeps tr = [5%Z] /\ r = Ok (JArr [JInt 7]).
Proof.
  apply (actions_second_attempt_answers cfg0 second_request_answers email0
           (text "{'eventos': [7]}") [("eventos", JArr [JInt 7])]).
  - left. reflexivity.
  - eexists _, _, _. repeat split; vm_compute; reflexivity.
  - vm_compute. reflexivity.
Defined.

(** The single-shot variant without a user name. *)
Lemma actions_fetch_witness :
  fst (AgendatorActions.fetch_emails no_user mailbox_up) = []
  /\ existsb is_connect (snd (AgendatorActions.fetch_emails no_user mailbox_up))
     = false.
Proof.
  apply (actions_fetch_needs_credentials no_user mailbox_up). reflexivity.
Defined.

(** The fenced answer of the specification gives its one candidate, with the
    values of the answer, in both variants; an empty list of events between
    fences and blanks gives the empty list. *)
Theorem fenced_examples_of_the_specification :
  snd (AgendatorActions.get_events_from_email cfg0 (service_text fenced_example) email0)
  = Ok (JArr [candidate "2025-01-01T10:00:00-03:00" "Sync"])
  /\ snd (Agendator.get_events_from_email cfg0 (service_text fenced_example) email0)
     = Ok (JArr [candidate "2025-01-01T10:00:00-03:00" "Sync"])
  /\ snd (AgendatorActions.get_events_from_email cfg0
            (service_text fenced_empty_list) email0)
     = Ok empty_list
  /\ snd (Agendator.get_events_from_email cfg0
            (service_text fenced_empty_list) email0)
     = Ok empty_list.
Proof. repeat split; vm_compute; reflexivity. Qed.

(** *** How many requests, and which exceptions *)

Lemma posts_app (a b : list effect) : posts (a ++ b) = posts a + posts b.
Proof. unfold posts. now rewrite filter_app, List.length_app. Qed.

Lemma sleeps_app (a b : list effect) : sleeps (a ++ b) = (sleeps a ++ sleeps b)%list.
Proof. apply flat_map_app. Qed.

Lemma getitem_key_raises (x : json) (k : string) (e : exn) :
  getitem_key x k = Raise e -> e = KeyError \/ e = TypeError.
Proof.
  destruct x; cbn; try (intros [= <-]; now right).
  destruct (lookup k members); [discriminate|]. intros [= <-]. now left.
Qed.

Lemma getitem_0_raises (x : json) (e : exn) :
  getitem_0 x = Raise e -> e = KeyError \/ e = IndexError \/ e = TypeError.
Proof.
  destruct x as [| | | |s|items|]; cbn; try (intros [= <-]; tauto).
  - destruct s; [|discriminate]. intros [= <-]. tauto.
  - destruct items; [|discriminate]. intros [= <-]. tauto.
Qed.

(** The envelope raises nothing but the three errors of a failed
    subscript. *)
Lemma envelope_text_raises (j : json) (e : exn) :
  envelope_text j = Raise e ->
  e = KeyError \/ e = IndexError \/ e = TypeError.
Proof.
  unfold envelope_text.
  repeat match goal with
         | |- context [bind ?r _] =>
             let E := fresh "E" in
             destruct r eqn:E; cbn [bind];
             [|intros [= <-];
               first [apply getitem_key_raises in E | apply getitem_0_raises in E];
               tauto]
         end.
  intros E'. apply getitem_key_raises in E'. tauto.
Qed.

Lemma get_default_raises (x : json) (k : string) (d : json) (e : exn) :
  get_default x k d = Raise e -> e = AttributeError.
Proof.
  destruct x; cbn; try (now intros [= <-]).
  destruct (lookup k members); discriminate.
Qed.

Lemma response_json_raises (content : string) (e : exn) :
  response_json content = Raise e ->
  e = RequestsJSONDecodeError \/ e = ValueError \/ e = RecursionError.
Proof.
  unfold response_json.
  destruct (json_decode body_nesting content) as [j|e0] eqn:E; [discriminate|].
  apply parse_tokens_raises in E.
  destruct E as [-> | [-> | ->]]; intros [= <-]; tauto.
Qed.

Lemma actions_clean_and_parse_cases (raw : json) :
  let '(tr, r) := AgendatorActions.clean_and_parse raw in
  posts tr = 0 /\ sleeps tr = []
  /\ forall e, r = Raise e ->
       e = AttributeError \/ e = JSONDecodeError
       \/ e = ValueError \/ e = RecursionError.
Proof.
  unfold AgendatorActions.clean_and_parse.
  destruct raw as [| | | |s| |]; try (repeat split; intros e [= <-]; tauto).
  destruct (is_empty _); [repeat split; discriminate|].
  repeat split. intros e.
  destruct (loads _) as [j|e0] eqn:El; cbn [bind].
  - intros E. apply get_default_raises in E. tauto.
  - intros [= <-]. apply loads_raises in El. tauto.
Qed.

Lemma loop_clean_and_parse_cases (raw : json) :
  let '(tr, r) := Agendator.clean_and_parse raw in
  posts tr = 0 /\ sleeps tr = []
  /\ forall e, r = Raise e ->
       e = AttributeError \/ e = JSONDecodeError
       \/ e = ValueError \/ e = RecursionError.
Proof.
  unfold Agendator.clean_and_parse.
  destruct raw as [| | | |s| |]; try (repeat split; intros e [= <-]; tauto).
  destruct (is_empty _); [repeat split; discriminate|].
  repeat split. intros e.
  destruct (loads _) as [j|e0] eqn:El; cbn [bind].
  - intros E. apply get_default_raises in E. tauto.
  - intros [= <-]. apply loads_raises in El. tauto.
Qed.

Lemma actions_try_block_cases (prompt : string) (o : http_outcome)
  (prev : option json) :
  let '(tr, raw, r) := AgendatorActions.try_block prompt o prev in
  filter is_post tr = [Post prompt 30] /\ sleeps tr = []
  /\ forall e, r = Raise e ->
       (is_RequestException e = true /\ raw = prev)
       \/ ((e = KeyError \/ e = IndexError \/ e = TypeError) /\ raw = prev)
       \/ ((e = AttributeError \/ e = JSONDecodeError) /\ exists x, raw = Some x)
       \/ e = ValueError \/ e = RecursionError.
Proof.
  unfold AgendatorActions.try_block. destruct o as [|status content].
  { repeat split. intros e [= <-]. left. now split. }
  unfold raise_for_status.
  destruct ((400 <=? status) && (status <? 600))%Z; cbn [bind].
  { repeat split. intros e [= <-]. left. now split. }
  destruct (response_json content) as [j|e0] eqn:Ej; cbn [bind].
  2:{ repeat split. intros e [= <-]. apply response_json_raises in Ej.
      destruct Ej as [-> | [-> | ->]]; [left; now split|tauto|tauto]. }
  destruct (envelope_text j) as [raw|e0] eqn:E.
  2:{ repeat split. intros e [= <-]. right. left.
      split; [now apply envelope_text_raises in E|reflexivity]. }
  pose proof (actions_clean_and_parse_cases raw) as H.
  destruct (AgendatorActions.clean_and_parse raw) as [tr r].
  destruct H as (Hp & Hs & He). repeat split.
  - cbn. unfold posts in Hp. now apply List.length_zero_iff_nil in Hp as ->.
  - cbn. exact Hs.
  - intros e Hr. apply He in Hr.
    destruct Hr as [-> | [-> | [-> | ->]]];
      [right; right; left; split; [tauto|now exists raw]
      |right; right; left; split; [tauto|now exists raw]
      |tauto|tauto].
Qed.

Lemma loop_try_block_cases (prompt : string) (service : gemini_service) :
  let '(tr, r) := Agendator.try_block prompt service in
  filter is_post tr = [Post prompt 20] /\ sleeps tr = []
  /\ forall e, r = Raise e ->
       is_RequestException e = true
       \/ e = KeyError \/ e = IndexError \/ e = TypeError
       \/ e = AttributeError \/ e = JSONDecodeError
       \/ e = ValueError \/ e = RecursionError.
Proof.
  unfold Agendator.try_block. destruct (service 0) as [|status content].
  { repeat split. intros e [= <-]. now left. }
  unfold raise_for_status.
  destruct ((400 <=? status) && (status <? 600))%Z; cbn [bind].
  { repeat split. intros e [= <-]. now left. }
  destruct (response_json content) as [j|e0] eqn:Ej; cbn [bind].
  2:{ repeat split. intros e [= <-]. apply response_json_raises in Ej.
      destruct Ej as [-> | [-> | ->]]; [now left|tauto|tauto]. }
  destruct (envelope_text j) as [raw|e0] eqn:E.
  2:{ repeat split. intros e [= <-]. apply envelope_text_raises in E. tauto. }
  pose proof (loop_clean_and_parse_cases raw) as H.
  destruct (Agendator.clean_and_parse raw) as [tr r].
  destruct H as (Hp & Hs & He). repeat split.
  - cbn. unfold posts in Hp. now apply List.length_zero_iff_nil in Hp as ->.
  - cbn. exact Hs.
  - intros e Hr. apply He in Hr. tauto.
Qed.

Lemma filter_post_app (a b : list effect) :
  filter is_post (a ++ b) = (filter is_post a ++ filter is_post b)%list.
Proof. apply filter_app. Qed.

(** The single-shot variant, whatever the service answers: one request, or
    two requests five seconds apart, each with the prompt of the message and
    a timeout of 30 seconds; and no exception leaves the function but
    [TypeError], [AttributeError] and [UnboundLocalError]. *)
Lemma actions_get_events_cases (cfg : config) (service : gemini_service)
  (email : email_data) :
  exists prompt, build_prompt (today cfg) email = Ok prompt /\
  let '(tr, r) := AgendatorActions.get_events_from_email cfg service email in
  ((filter is_post tr = [Post prompt 30] /\ sleeps tr = [])
   \/ (filter is_post tr = [Post prompt 30; Post prompt 30]
       /\ sleeps tr = [5%Z]))
  /\ forall e, r = Raise e ->
       e = TypeError \/ e = AttributeError \/ e = ValueError
       \/ e = RecursionError \/ e = UnboundLocalError.
Proof.
  eexists. split; [apply build_prompt_eq|].
  unfold AgendatorActions.get_events_from_email. rewrite build_prompt_eq.
  set (prompt := (_ ++ _)%string).
  cbn [AgendatorActions.max_retries seq AgendatorActions.for_attempts].
  change (AgendatorActions.max_retries - 1)%nat with 1%nat.
  cbn [Nat.ltb Nat.leb].
  pose proof (actions_try_block_cases prompt (service 0) None) as H0.
  destruct (AgendatorActions.try_block prompt (service 0) None)
    as [[tr0 raw0] r0].
  destruct H0 as (Hp0 & Hs0 & He0).
  destruct r0 as [v|e0]; [split; [now left|discriminate]|].
  specialize (He0 e0 eq_refl).
  destruct (is_RequestException e0) eqn:Ereq.
  - pose proof (actions_try_block_cases prompt (service 1) raw0) as H1.
    destruct (AgendatorActions.try_block prompt (service 1) raw0)
      as [[tr1 raw1] r1].
    destruct H1 as (Hp1 & Hs1 & He1).
    assert (Hraw0 : raw0 = None).
    { destruct He0 as [[_ H]|[[H _]|[[H _]|H]]]; [exact H| | |];
        decompose [or] H; subst e0; discriminate. }
    subst raw0.
    destruct r1 as [v|e1].
    + split; [|discriminate]. right.
      rewrite !filter_post_app, !sleeps_app, Hp0, Hs0, Hp1, Hs1. now split.
    + specialize (He1 e1 eq_refl).
      destruct (is_RequestException e1) eqn:Ereq1.
      * split; [|discriminate]. right.
        rewrite !filter_post_app, !sleeps_app, Hp0, Hs0, Hp1, Hs1. now split.
      * assert (Hsplit : forall tr,
                  (filter is_post ((tr0 ++ [Log WARNING "Erro na requisição para Gemini na tentativa "])
                                   ++ [Sleep 5] ++ tr)%list
                   = [Post prompt 30; Post prompt 30]
                   /\ sleeps ((tr0 ++ [Log WARNING "Erro na requisição para Gemini na tentativa "])
                              ++ [Sleep 5] ++ tr)%list = [5%Z])
                  <-> (filter is_post tr = [Post prompt 30] /\ sleeps tr = [])).
        { intros tr. rewrite !filter_post_app, !sleeps_app, Hp0, Hs0. cbn.
          split; intros [A B]; split; congruence. }
        destruct (is_lookup_or_decode_error e1) eqn:El.
        -- destruct raw1 as [x|].
           ++ split; [|discriminate]. right.
              rewrite !filter_post_app, !sleeps_app, Hp0, Hs0, Hp1, Hs1.
              now split.
           ++ split; [right; apply Hsplit; now split|]. intros e [= <-]. tauto.
        -- split; [right; apply Hsplit; now split|]. intros e [= <-].
           destruct He1 as [[H _]|[[H _]|[[H _]|H]]]; [congruence| | |];
             decompose [or] H; subst e1; try discriminate; tauto.
  - destruct (is_lookup_or_decode_error e0) eqn:El.
    + destruct raw0 as [x|].
      * split; [|discriminate]. left.
        now rewrite !filter_post_app, !sleeps_app, Hp0, Hs0.
      * split; [now left|]. intros e [= <-]. tauto.
    + split; [now left|]. intros e [= <-].
      destruct He0 as [[H _]|[[H _]|[[H _]|H]]]; [congruence| | |];
        decompose [or] H; subst e0; try discriminate; tauto.
Qed.

Lemma loop_get_events_cases (cfg : config) (service : gemini_service)
  (email : email_data) :
  exists prompt, build_prompt (today cfg) email = Ok prompt /\
  let '(tr, r) := Agendator.get_events_from_email cfg service email in
  filter is_post tr = [Post prompt 20] /\ sleeps tr = []
  /\ forall e, r = Raise e ->
       e = TypeError \/ e = AttributeError \/ e = ValueError
       \/ e = RecursionError.
Proof.
  eexists. split; [apply build_prompt_eq|].
  unfold Agendator.get_events_from_email. rewrite build_prompt_eq.
  set (prompt := (_ ++ _)%string).
  pose proof (loop_try_block_cases prompt service) as H.
  destruct (Agendator.try_block prompt service) as [tr r].
  destruct H as (Hp & Hs & He).
  destruct r as [v|e0]; [repeat split; [exact Hp|exact Hs|discriminate]|].
  specialize (He e0 eq_refl).
  destruct (is_RequestException e0) eqn:Ereq.
  { rewrite filter_post_app, sleeps_app, Hp, Hs. repeat split. discriminate. }
  destruct He as [H|H]; [congruence|].
  decompose [or] H; subst e0;
    rewrite ?filter_post_app, ?sleeps_app, ?Hp, ?Hs; repeat split;
    try discriminate; intros e [= <-]; tauto.
Qed.

(** Both variants, for every message and whatever the service answers: the
    continuous-loop variant sends exactly one request, with a timeout of 20
    seconds, and never waits; the single-shot variant sends one request, or
    two requests five seconds apart, each with a timeout of 30 seconds. Every
    request carries the prompt built from the message. *)
Theorem extraction_sends_one_or_two_requests (cfg : config)
  (service : gemini_service) (email : email_data) :
  exists prompt,
    build_prompt (today cfg) email = Ok prompt
    /\ (let tr := fst (Agendator.get_events_from_email cfg service email) in
        filter is_post tr = [Post prompt 20] /\ sleeps tr = [])
    /\ (let tr := fst (AgendatorActions.get_events_from_email cfg service email) in
        (filter is_post tr = [Post prompt 30] /\ sleeps tr = [])
        \/ (filter is_post tr = [Post prompt 30; Post prompt 30]
            /\ sleeps tr = [5%Z])).
Proof.
  destruct (loop_get_events_cases cfg service email) as (p1 & E1 & H1).
  destruct (actions_get_events_cases cfg service email) as (p2 & E2 & H2).
  rewrite E1 in E2. injection E2 as <-.
  exists p1. split; [exact E1|].
  destruct (Agendator.get_events_from_email cfg service email) as [tr1 r1].
  destruct (AgendatorActions.get_events_from_email cfg service email)
    as [tr2 r2].
  cbn [fst]. split; [split; apply H1|apply H2].
Qed.

(** *** The exceptions that end a run *)

Lemma event_validator_raises (event : json) (e : exn) :
  event_validator event = Raise e -> e = TypeError.
Proof.
  unfold event_validator, py_in.
  destruct event; cbn [bind]; try (now intros [= <-]);
    match goal with |- context [if ?b then _ else _] => destruct b end;
    discriminate.
Qed.

Lemma iterate_raises (x : json) (e : exn) :
  iterate x = Raise e -> e = TypeError.
Proof. destruct x; cbn; congruence. Qed.

Lemma loop_for_events_raises (calendar : nat -> calendar_call)
  (events : list json) (k : nat) (e : exn) :
  snd (Agendator.for_events calendar k events) = Raise e -> e = TypeError.
Proof.
  revert k. induction events as [|ev rest IH]; intros k; [discriminate|].
  cbn [Agendator.for_events].
  destruct (event_validator ev) as [[|]|e0] eqn:E.
  - destruct (Agendator.create_calendar_event (calendar k) ev) as [ok tr0].
    specialize (IH (S k)).
    destruct (Agendator.for_events calendar (S k) rest) as [[tr' k'] r].
    exact IH.
  - specialize (IH k).
    destruct (Agendator.for_events calendar k rest) as [[tr' k'] r].
    exact IH.
  - cbn. intros [= <-]. now apply event_validator_raises in E.
Qed.

Lemma actions_for_events_raises (calendar : nat -> calendar_call)
  (events : list json) (k : nat) (e : exn) :
  snd (AgendatorActions.for_events calendar k events) = Raise e -> e = TypeError.
Proof.
  revert k. induction events as [|ev rest IH]; intros k; [discriminate|].
  cbn [AgendatorActions.for_events].
  destruct (event_validator ev) as [[|]|e0] eqn:E.
  - destruct (AgendatorActions.create_calendar_event (calendar k) ev)
      as [ok tr0].
    specialize (IH (S k)).
    destruct (AgendatorActions.for_events calendar (S k) rest) as [[tr' k'] r].
    exact IH.
  - specialize (IH k).
    destruct (AgendatorActions.for_events calendar k rest) as [[tr' k'] r].
    exact IH.
  - cbn. intros [= <-]. now apply event_validator_raises in E.
Qed.

Lemma loop_process_events_raises (calendar : nat -> calendar_call)
  (events : json) (k : nat) (e : exn) :
  snd (Agendator.process_events calendar k events) = Raise e -> e = TypeError.
Proof.
  unfold Agendator.process_events. destruct (truthy events); [|discriminate].
  destruct (iterate events) as [items|e0] eqn:E.
  - apply loop_for_events_raises.
  - cbn. intros [= <-]. now apply iterate_raises in E.
Qed.

Lemma actions_process_events_raises (calendar : nat -> calendar_call)
  (events : json) (k : nat) (e : exn) :
  snd (AgendatorActions.process_events calendar k events) = Raise e ->
  e = TypeError.
Proof.
  unfold AgendatorActions.process_events.
  destruct (truthy events); [|discriminate].
  destruct (iterate events) as [items|e0] eqn:E.
  - apply actions_for_events_raises.
  - cbn. intros [= <-]. now apply iterate_raises in E.
Qed.

Lemma loop_for_emails_raises (cfg : config) (gemini : nat -> gemini_service)
  (calendar : nat -> calendar_call) (emails : list email_data) (i k : nat)
  (e : exn) :
  snd (Agendator.for_emails cfg gemini calendar i k emails) = Raise e ->
  e = TypeError \/ e = AttributeError \/ e = ValueError \/ e = RecursionError.
Proof.
  revert i k. induction emails as [|email rest IH]; intros i k; [discriminate|].
  cbn [Agendator.for_emails].
  destruct (loop_get_events_cases cfg (gemini i) email) as (p & _ & H).
  destruct (Agendator.get_events_from_email cfg (gemini i) email) as [tr r].
  destruct H as (_ & _ & He).
  destruct r as [events|e0]; [|cbn; intros [= <-]; now apply He].
  pose proof (loop_process_events_raises calendar events k) as Hp.
  destruct (Agendator.process_events calendar k events) as [[tr1 k1] r1].
  cbn [snd] in Hp.
  destruct r1 as [u|e1]; [|cbn; intros [= <-]; left; now apply Hp].
  specialize (IH (S i) k1).
  destruct (Agendator.for_emails cfg gemini calendar (S i) k1 rest)
    as [[tr2 k2] r2].
  exact IH.
Qed.

Lemma actions_for_emails_raises (cfg : config) (gemini : nat -> gemini_service)
  (calendar : nat -> calendar_call) (emails : list email_data) (i k : nat)
  (e : exn) :
  snd (AgendatorActions.for_emails cfg gemini calendar i k emails) = Raise e ->
  e = TypeError \/ e = AttributeError \/ e = ValueError
  \/ e = RecursionError \/ e = UnboundLocalError.
Proof.
  revert i k. induction emails as [|email rest IH]; intros i k; [discriminate|].
  cbn [AgendatorActions.for_emails].
  destruct (actions_get_events_cases cfg (gemini i) email) as (p & _ & H).
  destruct (AgendatorActions.get_events_from_email cfg (gemini i) email)
    as [tr r].
  destruct H as (_ & He).
  destruct r as [events|e0]; [|cbn; intros [= <-]; now apply He].
  pose proof (actions_process_events_raises calendar events k) as Hp.
  destruct (AgendatorActions.process_events calendar k events)
    as [[tr1 k1] r1].
  cbn [snd] in Hp.
  destruct r1 as [u|e1]; [|cbn; intros [= <-]; left; now apply Hp].
  specialize (IH (S i) k1).
  destruct (AgendatorActions.for_emails cfg gemini calendar (S i) k1 rest)
    as [[tr2 k2] r2].
  exact IH.
Qed.

(** Whatever the mailbox, the inference service and the calendar service
    do, a turn of the continuous loop ends without an exception or with a
    [TypeError], an [AttributeError], a [ValueError] or a [RecursionError],
    and a single-shot run ends without an exception or with one of these or
    an [UnboundLocalError]: every other failure is caught and logged. *)
Theorem only_these_exceptions_end_a_run (cfg : config) (mb : mailbox)
  (gemini : nat -> gemini_service) (calendar : nat -> calendar_call)
  (k : nat) :
  match snd (Agendator.main_loop_turn cfg mb gemini calendar k) with
  | Ok _ => True
  | Raise e =>
      e = TypeError \/ e = AttributeError \/ e = ValueError
      \/ e = RecursionError
  end
  /\ match snd (AgendatorActions.main cfg mb gemini calendar) with
     | Ok _ => True
     | Raise e =>
         e = TypeError \/ e = AttributeError \/ e = ValueError
         \/ e = RecursionError \/ e = UnboundLocalError
     end.
Proof.
  split.
  - unfold Agendator.main_loop_turn.
    destruct (Agendator.fetch_emails cfg mb) as [emails tr].
    pose proof (loop_for_emails_raises cfg gemini calendar emails 0 k) as H.
    destruct (Agendator.for_emails cfg gemini calendar 0 k emails)
      as [[tr1 k1] r].
    destruct r as [u|e]; [exact I|]. now apply H.
  - unfold AgendatorActions.main.
    destruct (AgendatorActions.fetch_emails cfg mb) as [emails tr].
    pose proof (actions_for_emails_raises cfg gemini calendar emails 0 0) as H.
    destruct (AgendatorActions.for_emails cfg gemini calendar 0 0 emails)
      as [[tr1 k1] r].
    destruct r as [u|e]; [exact I|]. now apply H.
Qed.

(** Each of these exceptions does end a run: a reply whose body is an
    array, a reply whose text is a number, a text with an integer of 4301
    digits, a text or a body that nests 3000 arrays and, in the single-shot
    variant, a reply without candidates. *)
Lemma run_ending_exceptions_are_reached :
  snd (Agendator.main_loop_turn cfg0 mailbox_up
         (fun _ _ => Response 200 "[]") (fun _ => calendar_up) 0)
  = Raise TypeError
  /\ snd (Agendator.main_loop_turn cfg0 mailbox_up
            (fun _ _ => Response 200
               (text "{'candidates': [{'content': {'parts': [{'text': 5}]}}]}"))
            (fun _ => calendar_up) 0)
     = Raise AttributeError
  /\ snd (Agendator.main_loop_turn cfg0 mailbox_up
            (fun _ => service_text oversized_integer) (fun _ => calendar_up) 0)
     = Raise ValueError
  /\ snd (Agendator.main_loop_turn cfg0 mailbox_up
            (fun _ => service_text (brackets 3000)) (fun _ => calendar_up) 0)
     = Raise RecursionError
  /\ snd (Agendator.main_loop_turn cfg0 mailbox_up
            (fun _ _ => Response 200 (brackets 3000)) (fun _ => calendar_up) 0)
     = Raise RecursionError
  /\ snd (AgendatorActions.main cfg0 mailbox_up
            (fun _ _ => Response 200 "{}") (fun _ => calendar_up))
     = Raise UnboundLocalError.
Proof. vm_compute. repeat split. Qed.

(** *** The requests and the pauses of a run *)

Lemma loop_create_quiet (cal : calendar_call) (ev : json) :
  posts (snd (Agendator.create_calendar_event cal ev)) = 0
  /\ sleeps (snd (Agendator.create_calendar_event cal ev)) = [].
Proof.
  unfold Agendator.create_calendar_event.
  destruct (getitem_key ev "summary"); [|now split].
  destruct (client cal); [now split|].
  destruct (Agendator.build_event ev); [|now split].
  destruct (insert cal a0); now split.
Qed.

Lemma actions_create_quiet (cal : calendar_call) (ev : json) :
  posts (snd (AgendatorActions.create_calendar_event cal ev)) = 0
  /\ sleeps (snd (AgendatorActions.create_calendar_event cal ev)) = [].
Proof.
  unfold AgendatorActions.create_calendar_event.
  destruct (getitem_key ev "summary"); [|now split].
  destruct (client cal); [now split|].
  destruct (AgendatorActions.build_event ev); [|now split].
  destruct (insert cal a0); now split.
Qed.

Lemma loop_for_events_quiet (calendar : nat -> calendar_call)
  (events : list json) (k : nat) :
  posts (fst (fst (Agendator.for_events calendar k events))) = 0
  /\ sleeps (fst (fst (Agendator.for_events calendar k events))) = [].
Proof.
  revert k. induction events as [|ev rest IH]; intros k; [now split|].
  cbn [Agendator.for_events].
  destruct (event_validator ev) as [[|]|e0]; [| |now split].
  - pose proof (loop_create_quiet (calendar k) ev) as [Hp Hs].
    destruct (Agendator.create_calendar_event (calendar k) ev) as [ok tr0].
    specialize (IH (S k)).
    destruct (Agendator.for_events calendar (S k) rest) as [[tr' k'] r].
    cbn [fst snd] in *. destruct IH as [IHp IHs].
    rewrite !posts_app, !sleeps_app, Hp, Hs, IHp, IHs. now split.
  - specialize (IH k).
    destruct (Agendator.for_events calendar k rest) as [[tr' k'] r].
    exact IH.
Qed.

Lemma actions_for_events_quiet (calendar : nat -> calendar_call)
  (events : list json) (k : nat) :
  posts (fst (fst (AgendatorActions.for_events calendar k events))) = 0
  /\ sleeps (fst (fst (AgendatorActions.for_events calendar k events))) = [].
Proof.
  revert k. induction events as [|ev rest IH]; intros k; [now split|].
  cbn [AgendatorActions.for_events].
  destruct (event_validator ev) as [[|]|e0]; [| |now split].
  - pose proof (actions_create_quiet (calendar k) ev) as [Hp Hs].
    destruct (AgendatorActions.create_calendar_event (calendar k) ev)
      as [ok tr0].
    specialize (IH (S k)).
    destruct (AgendatorActions.for_events calendar (S k) rest) as [[tr' k'] r].
    cbn [fst snd] in *. destruct IH as [IHp IHs].
    rewrite !posts_app, !sleeps_app, Hp, Hs, IHp, IHs. now split.
  - specialize (IH k).
    destruct (AgendatorActions.for_events calendar k rest) as [[tr' k'] r].
    exact IH.
Qed.

Lemma loop_process_events_quiet (calendar : nat -> calendar_call)
  (events : json) (k : nat) :
  posts (fst (fst (Agendator.process_events calendar k events))) = 0
  /\ sleeps (fst (fst (Agendator.process_events calendar k events))) = [].
Proof.
  unfold Agendator.process_events. destruct (truthy events); [|now split].
  destruct (iterate events); [apply loop_for_events_quiet|now split].
Qed.

Lemma actions_process_events_quiet (calendar : nat -> calendar_call)
  (events : json) (k : nat) :
  posts (fst (fst (AgendatorActions.process_events calendar k events))) = 0
  /\ sleeps (fst (fst (AgendatorActions.process_events calendar k events))) = [].
Proof.
  unfold AgendatorActions.process_events. destruct (truthy events); [|now split].
  destruct (iterate events); [apply actions_for_events_quiet|now split].
Qed.

Lemma posts_filter (tr : list effect) (l : list effect) :
  filter is_post tr = l -> posts tr = List.length l.
Proof. unfold posts. now intros ->. Qed.

Lemma loop_for_emails_requests (cfg : config) (gemini : nat -> gemini_service)
  (calendar : nat -> calendar_call) (emails : list email_data) (i k : nat) :
  let '(tr, _, r) := Agendator.for_emails cfg gemini calendar i k emails in
  posts tr <= List.length emails /\ sleeps tr = []
  /\ (r = Ok tt -> posts tr = List.length emails).
Proof.
  revert i k. induction emails as [|email rest IH]; intros i k.
  { cbn. repeat split; lia. }
  cbn [Agendator.for_emails].
  destruct (loop_get_events_cases cfg (gemini i) email) as (p & _ & H).
  destruct (Agendator.get_events_from_email cfg (gemini i) email) as [tr r].
  destruct H as (Hp & Hs & _). apply posts_filter in Hp. cbn in Hp.
  destruct r as [events|e0].
  2:{ cbn [List.length]. repeat split; [lia|exact Hs|discriminate]. }
  pose proof (loop_process_events_quiet calendar events k) as [Hp1 Hs1].
  destruct (Agendator.process_events calendar k events) as [[tr1 k1] r1].
  cbn [fst] in Hp1, Hs1.
  destruct r1 as [u|e1].
  2:{ rewrite posts_app, sleeps_app, Hp, Hs, Hp1, Hs1. cbn [List.length].
      repeat split; [lia|discriminate]. }
  specialize (IH (S i) k1).
  destruct (Agendator.for_emails cfg gemini calendar (S i) k1 rest)
    as [[tr2 k2] r2].
  destruct IH as (IHp & IHs & IHr).
  rewrite !posts_app, !sleeps_app, Hp, Hs, Hp1, Hs1, IHs. cbn [List.length].
  repeat split; [lia|]. intros E. specialize (IHr E). lia.
Qed.

Lemma actions_for_emails_requests (cfg : config)
  (gemini : nat -> gemini_service) (calendar : nat -> calendar_call)
  (emails : list email_data) (i k : nat) :
  let '(tr, _, r) := AgendatorActions.for_emails cfg gemini calendar i k emails in
  List.length (sleeps tr) <= List.length emails
  /\ posts tr <= List.length emails + List.length (sleeps tr)
  /\ Forall (fun n => n = 5%Z) (sleeps tr)
  /\ (r = Ok tt -> posts tr = List.length emails + List.length (sleeps tr)).
Proof.
  revert i k. induction emails as [|email rest IH]; intros i k.
  { cbn. repeat split; try lia. constructor. }
  cbn [AgendatorActions.for_emails].
  destruct (actions_get_events_cases cfg (gemini i) email) as (p & _ & H).
  destruct (AgendatorActions.get_events_from_email cfg (gemini i) email)
    as [tr r].
  destruct H as (Hps & _).
  assert (H : (posts tr = 1 /\ sleeps tr = [])
              \/ (posts tr = 2 /\ sleeps tr = [5%Z])).
  { destruct Hps as [[Hp Hs]|[Hp Hs]]; apply posts_filter in Hp; tauto. }
  clear Hps.
  destruct r as [events|e0].
  2:{ cbn [List.length].
      destruct H as [[Hp Hs]|[Hp Hs]]; rewrite Hp, Hs; cbn;
        repeat split; try lia; try discriminate; repeat constructor. }
  pose proof (actions_process_events_quiet calendar events k) as [Hp1 Hs1].
  destruct (AgendatorActions.process_events calendar k events)
    as [[tr1 k1] r1].
  cbn [fst] in Hp1, Hs1.
  destruct r1 as [u|e1].
  2:{ rewrite posts_app, sleeps_app, Hp1, Hs1, app_nil_r, Nat.add_0_r.
      cbn [List.length].
      destruct H as [[Hp Hs]|[Hp Hs]]; rewrite Hp, Hs; cbn;
        repeat split; try lia; try discriminate; repeat constructor. }
  specialize (IH (S i) k1).
  destruct (AgendatorActions.for_emails cfg gemini calendar (S i) k1 rest)
    as [[tr2 k2] r2].
  destruct IH as (IHl & IHp & IHf & IHr).
  rewrite !posts_app, !sleeps_app, Hp1, Hs1, !List.length_app.
  cbn [List.length app Nat.add].
  destruct H as [[Hp Hs]|[Hp Hs]]; rewrite Hp, Hs;
    cbn [List.length app Nat.add];
    repeat split; try lia; try (intros E; specialize (IHr E); lia);
    repeat constructor; exact IHf.
Qed.

(** A single-shot run over the messages of the mailbox: it pauses at most
    once per message, always for five seconds, and sends at most one request
    per message and one more per pause; when it ends without an exception it
    sent exactly that many. A turn of the continuous loop sends at most one
    request per message, exactly one when it ends without an exception, and
    then pauses once, for 60 seconds; a turn that raises does not pause. *)
Theorem requests_and_pauses_of_a_run (cfg : config) (mb : mailbox)
  (gemini : nat -> gemini_service) (calendar : nat -> calendar_call)
  (k : nat) :
  (let n := List.length (fst (AgendatorActions.fetch_emails cfg mb)) in
   let '(tr, r) := AgendatorActions.main cfg mb gemini calendar in
   List.length (sleeps tr) <= n
   /\ posts tr <= n + List.length (sleeps tr)
   /\ Forall (fun d => d = 5%Z) (sleeps tr)
   /\ (r = Ok tt -> posts tr = n + List.length (sleeps tr)))
  /\ (let n := List.length (fst (Agendator.fetch_emails cfg mb)) in
      let '(tr, _, r) := Agendator.main_loop_turn cfg mb gemini calendar k in
      posts tr <= n
      /\ match r with
         | Ok _ => posts tr = n /\ sleeps tr = [60%Z]
         | Raise _ => sleeps tr = []
         end).
Proof.
  assert (Hfa : posts (snd (AgendatorActions.fetch_emails cfg mb)) = 0
                /\ sleeps (snd (AgendatorActions.fetch_emails cfg mb)) = []).
  { unfold AgendatorActions.fetch_emails.
    destruct (_ || _)%bool; [now split|].
    destruct (connect mb); [now split|].
    destruct (session mb _ _); now split. }
  assert (Hfl : posts (snd (Agendator.fetch_emails cfg mb)) = 0
                /\ sleeps (snd (Agendator.fetch_emails cfg mb)) = []).
  { unfold Agendator.fetch_emails.
    destruct (connect mb); [now split|].
    destruct (session mb _ _); now split. }
  split.
  - unfold AgendatorActions.main.
    destruct (AgendatorActions.fetch_emails cfg mb) as [emails tr].
    cbn [fst snd] in *. destruct Hfa as [Hp Hs].
    pose proof (actions_for_emails_requests cfg gemini calendar emails 0 0)
      as H.
    destruct (AgendatorActions.for_emails cfg gemini calendar 0 0 emails)
      as [[tr1 k1] r].
    destruct H as (Hl & Hq & Hf & Hr).
    destruct r as [u|e];
      rewrite !posts_app, !sleeps_app, Hp, Hs, ?app_nil_r;
      cbn [posts sleeps filter flat_map is_post List.length app Nat.add];
      rewrite ?app_nil_r, ?Nat.add_0_r.
    + destruct u. specialize (Hr eq_refl). repeat split; try lia. exact Hf.
    + repeat split; try lia; [exact Hf|discriminate].
  - unfold Agendator.main_loop_turn.
    destruct (Agendator.fetch_emails cfg mb) as [emails tr].
    cbn [fst snd] in *. destruct Hfl as [Hp Hs].
    pose proof (loop_for_emails_requests cfg gemini calendar emails 0 k) as H.
    destruct (Agendator.for_emails cfg gemini calendar 0 k emails)
      as [[tr1 k1] r].
    destruct H as (Hq & Hs1 & Hr).
    destruct r as [u|e];
      rewrite !posts_app, !sleeps_app, Hp, Hs, Hs1;
      cbn [posts sleeps filter flat_map is_post List.length app Nat.add];
      rewrite ?Nat.add_0_r.
    + destruct u. specialize (Hr eq_refl). repeat split; try lia.
    + split; [lia|reflexivity].
Qed.

(** *** What a call of [create_calendar_event] submits *)

(** In both variants a call of [create_calendar_event] submits at most one
    event, built from the summary and the start of the candidate with the
    location [Remoto] and the time zone [America/Sao_Paulo]; it returns
    [True] exactly when that event was submitted and the service took it,
    and logs one error exactly when it returns [False]. *)
Theorem create_calendar_event_reports_the_submission
  (cal : calendar_call) (event_info : json) :
  (let '(ok, tr) := Agendator.create_calendar_event cal event_info in
   one_submission cal event_info ok tr)
  /\ (let '(ok, tr) := AgendatorActions.create_calendar_event cal event_info in
      one_submission cal event_info ok tr).
Proof.
  unfold one_submission, submission_of. split.
  - unfold Agendator.create_calendar_event, Agendator.build_event.
    destruct (getitem_key event_info "summary") as [s|] eqn:Es;
      [|split; [reflexivity|now left]].
    destruct (client cal); [split; [reflexivity|now left]|].
    cbn [bind].
    destruct (getitem_key event_info "start_datetime") as [d|] eqn:Ed;
      [|split; [reflexivity|now left]].
    cbn [bind].
    destruct (insert cal _) eqn:Ei; (split; [reflexivity|]); right;
      eexists; (split; [reflexivity|]); rewrite Ei;
      repeat split; try reflexivity; assumption.
  - unfold AgendatorActions.create_calendar_event, AgendatorActions.build_event.
    destruct (getitem_key event_info "summary") as [s|] eqn:Es;
      [|split; [reflexivity|now left]].
    destruct (client cal); [split; [reflexivity|now left]|].
    destruct (getitem_key event_info "start_datetime") as [d|] eqn:Ed;
      [|split; [reflexivity|now left]].
    cbn [bind].
    destruct (AgendatorActions.parse_start d) as [dt|];
      [|split; [reflexivity|now left]].
    cbn [bind].
    destruct (AgendatorActions.plus_one_hour dt) as [dt'|];
      [|split; [reflexivity|now left]].
    cbn [bind].
    assert (Eg : get_default event_info "summary" (JStr "") = Ok s).
    { unfold getitem_key in Es. unfold get_default.
      destruct event_info; try discriminate.
      destruct (lookup "summary" members); congruence. }
    rewrite Eg. cbn [bind].
    destruct (insert cal _) eqn:Ei; (split; [reflexivity|]); right;
      eexists; (split; [reflexivity|]); rewrite Ei;
      repeat split; try reflexivity; assumption.
Qed.

(** Whatever the candidate is, the single-shot variant submits no event
    unless the start of the candidate is a text that
    [datetime.fromisoformat] reads, and the event then ends one hour after
    it starts. *)
Theorem actions_submits_only_hour_long_events
  (cal : calendar_call) (event_info : json) :
  Forall hour_long
    (inserted (snd (AgendatorActions.create_calendar_event cal event_info))).
Proof.
  unfold AgendatorActions.create_calendar_event, AgendatorActions.build_event.
  destruct (getitem_key event_info "summary") as [s|]; [|constructor].
  destruct (client cal); [constructor|].
  destruct (getitem_key event_info "start_datetime") as [d|]; [|constructor].
  cbn [bind].
  destruct (AgendatorActions.parse_start d) as [dt|] eqn:Ep; [|constructor].
  cbn [bind].
  destruct (AgendatorActions.plus_one_hour dt) as [dt'|] eqn:Eh;
    [|constructor].
  cbn [bind].
  destruct (get_default event_info "summary" (JStr "")); [|constructor].
  cbn [bind].
  assert (H : hour_long
                {| ev_summary := s; ev_location := "Remoto"; ev_description := a;
                   ev_start := {| dateTime := d; timeZone := "America/Sao_Paulo" |};
                   ev_end := {| dateTime := JStr (isoformat dt');
                                timeZone := "America/Sao_Paulo" |} |}).
  { unfold AgendatorActions.parse_start in Ep.
    destruct d as [| | | |t| |]; try discriminate.
    destruct (fromisoformat t) as [dt0|] eqn:Ef; [|discriminate].
    injection Ep as ->.
    unfold AgendatorActions.plus_one_hour in Eh.
    destruct (add_hours dt 1) as [dt1|] eqn:Ea; [|discriminate].
    injection Eh as ->.
    exists t, dt, dt'. cbn. repeat split; try assumption.
    destruct (add_hours_instant _ _ _ Ea) as (Hi & _). rewrite Hi. lia. }
  destruct (insert cal _); cbn; repeat constructor; exact H.
Qed.

(** The continuous-loop variant has no such check: a candidate whose start
    is not a date is submitted as it stands. *)
Lemma loop_submits_any_start :
  map (fun e => dateTime (ev_start e))
      (inserted (snd (Agendator.create_calendar_event calendar_up
                        (candidate "amanhã" "Reunião"))))
  = [JStr "amanhã"]
  /\ inserted (snd (AgendatorActions.create_calendar_event calendar_up
                      (candidate "amanhã" "Reunião")))
     = [].
Proof. vm_compute. split; reflexivity. Qed.

(** *** Candidates that are not a list *)

Lemma loop_create_on_text (cal : calendar_call) (s : string) :
  inserted (snd (Agendator.create_calendar_event cal (JStr s))) = [].
Proof. reflexivity. Qed.

Lemma actions_create_on_text (cal : calendar_call) (s : string) :
  inserted (snd (AgendatorActions.create_calendar_event cal (JStr s))) = [].
Proof. reflexivity. Qed.

Lemma inserted_app (a b : list effect) :
  inserted (a ++ b) = (inserted a ++ inserted b)%list.
Proof. apply flat_map_app. Qed.

(** *** A batch of timed candidates *)

Lemma timed_candidate_is_validated (c : string * string * string) :
  validated (candidate_of c).
Proof. destruct c as [[start summary] finish]. reflexivity. Qed.

(** One call of [create_calendar_event] on a timed candidate: the client
    is asked for; when it is built, the event of one hour is submitted, and
    the call returns whether the service took it. *)
Lemma actions_create_timed (cal : calendar_call)
  (start summary finish : string) :
  timed (start, summary, finish) ->
  let '(ok, tr) := AgendatorActions.create_calendar_event cal
                     (candidate start summary) in
  ok = accepted cal (hour_event start summary finish)
  /\ inserted tr = match client cal with
                   | None => [hour_event start summary finish]
                   | Some _ => []
                   end.
Proof.
  intros (dt & dt' & Hp & Ha & ->).
  unfold AgendatorActions.create_calendar_event, accepted.
  rewrite candidate_summary.
  destruct (client cal); [split; reflexivity|].
  rewrite (actions_build_event start summary dt dt' Hp Ha).
  fold (hour_event start summary (isoformat dt')).
  destruct (insert cal (hour_event start summary (isoformat dt')));
    split; reflexivity.
Qed.

Lemma actions_for_events_timed (calendar : nat -> calendar_call)
  (batch : list (string * string * string)) (k : nat) :
  Forall timed batch ->
  let '(tr, _, _) := AgendatorActions.for_events calendar k
                       (map candidate_of batch) in
  reports tr = outcomes calendar k batch
  /\ inserted tr = submissions calendar k batch.
Proof.
  intros Ht. revert k.
  induction Ht as [|[[start summary] finish] rest Hc Hrest IH]; intros k.
  - split; reflexivity.
  - cbn [map candidate_of AgendatorActions.for_events outcomes submissions].
    change (event_validator (candidate start summary)) with (Ok true).
    pose proof (actions_create_effects (calendar k) (candidate start summary))
      as Hrep.
    pose proof (actions_create_timed (calendar k) start summary finish Hc)
      as Hcall.
    destruct (AgendatorActions.create_calendar_event (calendar k)
                (candidate start summary)) as [ok tr0].
    cbn [snd] in Hrep. destruct Hcall as [-> Hins].
    specialize (IH (S k)).
    destruct (AgendatorActions.for_events calendar (S k)
                (map candidate_of rest)) as [[tr' k'] r].
    destruct IH as [IHr IHi].
    rewrite !reports_app, !inserted_app, Hrep, Hins, IHr, IHi.
    split; [reflexivity|].
    destruct (client (calendar k)); reflexivity.
Qed.

(** Claim C9. For every batch of validated events and whatever the calendar
    service does at each call, the loop of [main] ends without raising and
    calls [create_calendar_event] once for every event of the batch, in
    order; an event whose insertion raises (any exception that is an
    [Exception]) is reported [False]. When the events are timed candidates,
    the run leaves exactly this: every candidate whose client was built had
    its event of one hour submitted, whether or not a call before it or
    after it failed, and every candidate is reported [True] when the
    service took its own event and [False] when its own call failed. *)
Theorem failed_submission_spares_the_siblings
  (calendar : nat -> calendar_call) (events : list json) (k : nat) :
  Forall validated events ->
  let '(tr, k', r) := AgendatorActions.for_events calendar k events in
  r = Ok tt
  /\ k' = k + List.length events
  /\ map fst (reports tr) = events
  /\ (forall i ev, nth_error events i = Some ev ->
        (forall body, insert (calendar (k + i)) body <> None) ->
        nth_error (reports tr) i = Some (ev, false))
  /\ (forall batch, events = map candidate_of batch -> Forall timed batch ->
        reports tr = outcomes calendar k batch
        /\ inserted tr = submissions calendar k batch).
Proof.
  intros Hv.
  assert (Htimed : forall batch, events = map candidate_of batch ->
            Forall timed batch ->
            let '(tr, _, _) := AgendatorActions.for_events calendar k events in
            reports tr = outcomes calendar k batch
            /\ inserted tr = submissions calendar k batch).
  { intros batch -> Ht. now apply actions_for_events_timed. }
  assert (Hgen : let '(tr, k', r) := AgendatorActions.for_events calendar k events in
            r = Ok tt
            /\ k' = k + List.length events
            /\ map fst (reports tr) = events
            /\ (forall i ev, nth_error events i = Some ev ->
                  nth_error (reports tr) i
                  = Some (ev, fst (AgendatorActions.create_calendar_event
                                     (calendar (k + i)) ev)))).
  { clear Htimed. revert k.
    induction Hv as [|ev rest Hev Hrest IH]; intros k.
    - cbn. repeat split; try lia; intros [|i] ev; discriminate.
    - cbn [AgendatorActions.for_events]. rewrite Hev.
      pose proof (actions_create_effects (calendar k) ev) as Hc.
      destruct (AgendatorActions.create_calendar_event (calendar k) ev)
        as [ok tr0] eqn:Ecreate.
      specialize (IH (S k)).
      destruct (AgendatorActions.for_events calendar (S k) rest)
        as [[tr' k'] r].
      destruct IH as (Hr & Hk & Hmap & Hnth).
      cbn [snd] in Hc.
      assert (Hrep : reports (tr0 ++ [CreateCalendarEvent ev ok] ++ tr')%list
                     = (ev, ok) :: reports tr').
      { now rewrite !reports_app, Hc. }
      rewrite Hrep. repeat split.
      + exact Hr.
      + cbn [List.length]. lia.
      + cbn. now rewrite Hmap.
      + intros [|i] e He; cbn in He |- *.
        * injection He as <-. now rewrite Nat.add_0_r, Ecreate.
        * rewrite <- Nat.add_succ_comm. now apply Hnth. }
  destruct (AgendatorActions.for_events calendar k events) as [[tr k'] r].
  destruct Hgen as (Hr & Hk & Hmap & Hnth).
  repeat split; try assumption.
  - intros i e He Hins. rewrite (Hnth i e He).
    now rewrite actions_create_fails_when_insert_raises.
  - now apply Htimed.
  - now apply Htimed.
Qed.

(** The theorem of claim C9 on a batch of three where the calendar service
    fails at the second call: the three events are submitted, and the first
    and the third are reported [True]. *)
Lemma batch_of_three_witness :
  Forall validated batch_of_three
  /\ batch_of_three = map candidate_of timed_batch_of_three
  /\ Forall timed timed_batch_of_three
  /\ (let '(tr, k', r) := AgendatorActions.for_events second_call_fails 0
                            batch_of_three in
      r = Ok tt
      /\ k' = 3
      /\ reports tr
         = [(candidate "2025-03-01T09:00:00-03:00" "A", true);
            (candidate "2025-03-02T09:00:00-03:00" "B", false);
            (candidate "2025-03-03T09:00:00-03:00" "C", true)]
      /\ inserted tr
         = [hour_event "2025-03-01T09:00:00-03:00" "A" "2025-03-01T10:00:00-03:00";
            hour_event "2025-03-02T09:00:00-03:00" "B" "2025-03-02T10:00:00-03:00";
            hour_event "2025-03-03T09:00:00-03:00" "C" "2025-03-03T10:00:00-03:00"]).
Proof.
  assert (Hv : Forall validated batch_of_three) by (repeat constructor).
  assert (Ht : Forall timed timed_batch_of_three).
  { repeat constructor; eexists; eexists; repeat split;
      vm_compute; reflexivity. }
  split; [exact Hv|]. split; [reflexivity|]. split; [exact Ht|].
  pose proof (failed_submission_spares_the_siblings second_call_fails
                batch_of_three 0 Hv) as H.
  destruct (AgendatorActions.for_events second_call_fails 0 batch_of_three)
    as [[tr k'] r].
  destruct H as (Hr & Hk & _ & _ & Hb).
  destruct (Hb timed_batch_of_three eq_refl Ht) as [Hrep Hins].
  repeat split; assumption.
Defined.

Lemma event_validator_text (s : string) :
  exists b, event_validator (JStr s) = Ok b.
Proof.
  unfold event_validator, py_in. cbn [bind].
  destruct (contains s "start_datetime"); eauto.
Qed.

Lemma loop_for_events_texts (calendar : nat -> calendar_call)
  (items : list json) (k : nat) :
  forallb is_text items = true ->
  let '(tr, _, r) := Agendator.for_events calendar k items in
  inserted tr = [] /\ r = Ok tt.
Proof.
  revert k. induction items as [|x rest IH]; intros k H; [now split|].
  cbn [forallb] in H. apply andb_prop in H as [Hx Hr].
  destruct x; try discriminate.
  cbn [Agendator.for_events].
  destruct (event_validator_text s) as [[|] ->].
  - pose proof (loop_create_on_text (calendar k) s) as Hc.
    destruct (Agendator.create_calendar_event (calendar k) (JStr s))
      as [ok tr0].
    specialize (IH (S k) Hr).
    destruct (Agendator.for_events calendar (S k) rest) as [[tr' k'] r].
    cbn [snd] in Hc. destruct IH as [IH1 IH2].
    rewrite !inserted_app, Hc, IH1. now split.
  - specialize (IH k Hr).
    destruct (Agendator.for_events calendar k rest) as [[tr' k'] r].
    exact IH.
Qed.

Lemma actions_for_events_texts (calendar : nat -> calendar_call)
  (items : list json) (k : nat) :
  forallb is_text items = true ->
  let '(tr, _, r) := AgendatorActions.for_events calendar k items in
  inserted tr = [] /\ r = Ok tt.
Proof.
  revert k. induction items as [|x rest IH]; intros k H; [now split|].
  cbn [forallb] in H. apply andb_prop in H as [Hx Hr].
  destruct x; try discriminate.
  cbn [AgendatorActions.for_events].
  destruct (event_validator_text s) as [[|] ->].
  - pose proof (actions_create_on_text (calendar k) s) as Hc.
    destruct (AgendatorActions.create_calendar_event (calendar k) (JStr s))
      as [ok tr0].
    specialize (IH (S k) Hr).
    destruct (AgendatorActions.for_events calendar (S k) rest) as [[tr' k'] r].
    cbn [snd] in Hc. destruct IH as [IH1 IH2].
    rewrite !inserted_app, Hc, IH1. now split.
  - specialize (IH k Hr).
    destruct (AgendatorActions.for_events calendar k rest) as [[tr' k'] r].
    exact IH.
Qed.

Lemma chars_are_texts (s : string) : forallb is_text (chars s) = true.
Proof. induction s; [reflexivity|exact IHs]. Qed.

Lemma keys_are_texts (ms : list (string * json)) :
  forallb is_text (map (fun kv => JStr (fst kv)) ms) = true.
Proof. induction ms; [reflexivity|exact IHms]. Qed.

(** When the value the extraction client returned is not a list, neither
    variant submits an event: a text or a mapping is iterated over, its
    characters or its keys fail inside [create_calendar_event] or are
    discarded, and the loop ends without an exception; a number or [true]
    that is not falsy is a [TypeError]; a falsy value is skipped. *)
Theorem only_a_list_reaches_the_calendar (calendar : nat -> calendar_call)
  (k : nat) (events : json) :
  not_a_list events = true ->
  (let '(tr, _, r) := Agendator.process_events calendar k events in
   inserted tr = []
   /\ r = (if (truthy events && negb (is_text events)
               && match events with JObj _ => false | _ => true end)%bool
           then Raise TypeError else Ok tt))
  /\ (let '(tr, _, r) := AgendatorActions.process_events calendar k events in
      inserted tr = []
      /\ r = (if (truthy events && negb (is_text events)
                  && match events with JObj _ => false | _ => true end)%bool
              then Raise TypeError else Ok tt)).
Proof.
  intros H.
  unfold Agendator.process_events, AgendatorActions.process_events.
  destruct events as [|b|n|f|s|items|ms]; try discriminate;
    cbn [is_text negb andb iterate]; rewrite ?andb_false_r, ?andb_true_r.
  - now split.
  - destruct (truthy (JBool b)); now split.
  - destruct (truthy (JInt n)); now split.
  - destruct (truthy (JFloat f)); now split.
  - destruct (truthy (JStr s)); [|now split]. split.
    + apply loop_for_events_texts, chars_are_texts.
    + apply actions_for_events_texts, chars_are_texts.
  - destruct (truthy (JObj ms)); [|now split]. split.
    + apply loop_for_events_texts, keys_are_texts.
    + apply actions_for_events_texts, keys_are_texts.
Qed.

Lemma only_a_list_witness :
  not_a_list (JObj [("start_datetime summary", JInt 1)]) = true
  /\ (let '(tr, _, r) := Agendator.process_events (fun _ => calendar_up) 0
                           (JObj [("start_datetime summary", JInt 1)]) in
      inserted tr = [] /\ r = Ok tt)
  /\ (let '(tr, _, r) := AgendatorActions.process_events (fun _ => calendar_up) 0
                           (JObj [("start_datetime summary", JInt 1)]) in
      inserted tr = [] /\ r = Ok tt).
Proof.
  split; [reflexivity|].
  apply (only_a_list_reaches_the_calendar (fun _ => calendar_up) 0
           (JObj [("start_datetime summary", JInt 1)])).
  reflexivity.
Defined.

(** *** The mailbox session *)

Lemma stored_app (a b : list Imap.event) :
  Imap.stored (a ++ b) = (Imap.stored a ++ Imap.stored b)%list.
Proof. apply flat_map_app. Qed.

Lemma fetched_app (a b : list Imap.event) :
  Imap.fetched (a ++ b) = (Imap.fetched a ++ Imap.fetched b)%list.
Proof. apply flat_map_app. Qed.

Lemma errors_app (a b : list Imap.event) :
  Imap.errors (a ++ b) = Imap.errors a + Imap.errors b.
Proof. unfold Imap.errors. now rewrite filter_app, List.length_app. Qed.

Lemma logouts_app (a b : list Imap.event) :
  Imap.logouts (a ++ b) = Imap.logouts a + Imap.logouts b.
Proof. unfold Imap.logouts. now rewrite filter_app, List.length_app. Qed.

(** The messages read from the data of one response: those already
    fetched, then one message per tuple, each with a stripped body. *)
Lemma for_response_parts_ok (decode : Imap.codecs)
  (codec_of : Imap.part -> string) (msg_data : list Imap.response_part)
  (acc out : list email_data) :
  Imap.for_response_parts decode codec_of msg_data acc = Ok out ->
  exists news,
    out = (acc ++ news)%list
    /\ Forall (fun m => strip (body m) = body m) news
    /\ List.length news
       = List.length (flat_map (fun p => match p with
                                         | Imap.Tuple msg => [msg]
                                         | Imap.NotTuple => []
                                         end) msg_data).
Proof.
  revert acc. induction msg_data as [|p rest IH]; intros acc H.
  - injection H as <-. exists []. rewrite app_nil_r. repeat split. constructor.
  - destruct p as [msg|]; cbn [Imap.for_response_parts] in H.
    + destruct (Imap.read_message decode codec_of msg) as [m|] eqn:Em;
        [|discriminate].
      cbn [bind] in H. destruct (IH _ H) as (news & -> & Hs & Hl).
      exists (m :: news). rewrite <- app_assoc. repeat split.
      * constructor; [|exact Hs].
        unfold Imap.read_message in Em.
        destruct (Imap.Subject msg) as [chunk|]; [|discriminate].
        cbn [bind] in Em.
        destruct (match fst chunk with
                  | Imap.PyStr s => Ok s
                  | Imap.PyBytes b => decode b (Imap.or_utf8 (snd chunk))
                  end); [|discriminate].
        cbn [bind] in Em. injection Em as <-. cbn [body]. apply strip_idem.
      * cbn. now rewrite Hl.
    + destruct (IH _ H) as (news & -> & Hs & Hl). exists news. now repeat split.
Qed.

Lemma fetch_is_ok_eq (srv : Imap.server) (i : string)
  (answer : string * list Imap.response_part) :
  Imap.fetch srv i = Ok answer ->
  fetch_is_ok srv i = String.eqb (fst answer) "OK".
Proof. unfold fetch_is_ok. now intros ->. Qed.

(** The loop over the identifiers. The identifiers are fetched in order;
    each one fetched with the status [OK] is marked as seen once its
    messages were read, so that at most the last one fetched is not marked;
    nothing is logged at the level of an error and the connection is not
    closed. When the loop ends without an exception every identifier was
    fetched and every message of the responses was read. *)
Lemma for_email_ids_spec (decode : Imap.codecs)
  (codec_of : Imap.part -> string) (srv : Imap.server)
  (ids : list string) (acc : list email_data) :
  let '(tr, r) := Imap.for_email_ids decode codec_of srv ids acc in
  Imap.errors tr = 0 /\ Imap.logouts tr = 0
  /\ (exists rest, ids = (Imap.fetched tr ++ rest)%list
                   /\ (forall out, r = Ok out -> rest = []))
  /\ (exists pending,
        filter (fetch_is_ok srv) (Imap.fetched tr)
        = (Imap.stored tr ++ pending)%list
        /\ List.length pending <= 1
        /\ (forall out, r = Ok out -> pending = []))
  /\ (forall out, r = Ok out ->
      exists news,
        out = (acc ++ news)%list
        /\ Forall (fun m => strip (body m) = body m) news
        /\ List.length news
           = List.length (flat_map (messages_of srv) ids)).
Proof.
  revert acc. induction ids as [|i rest IH]; intros acc.
  { cbn. repeat split.
    - exists []. now split.
    - exists []. repeat split; cbn; lia.
    - intros out [= <-]. exists []. rewrite app_nil_r. repeat split.
      constructor. }
  cbn [Imap.for_email_ids]. unfold Imap.call, Imap.lift.
  pose proof (fetch_is_ok_eq srv i) as Hok.
  assert (Hmsgs : forall answer, Imap.fetch srv i = Ok answer ->
            messages_of srv i
            = if String.eqb (fst answer) "OK" then
                flat_map (fun p => match p with
                                   | Imap.Tuple msg => [msg]
                                   | Imap.NotTuple => []
                                   end) (snd answer)
              else []).
  { intros answer E. unfold messages_of. now rewrite E. }
  destruct (Imap.fetch srv i) as [answer|e] eqn:Ef.
  2:{ cbn. repeat split.
      - exists rest. split; [reflexivity|discriminate].
      - exists []. unfold fetch_is_ok. rewrite Ef.
        repeat split; try discriminate; cbn; lia.
      - discriminate. }
  specialize (Hok _ eq_refl). specialize (Hmsgs _ eq_refl).
  cbn [Imap.sbind].
  destruct (String.eqb (fst answer) "OK") eqn:Es.
  - destruct (Imap.for_response_parts decode codec_of (snd answer) acc)
      as [acc'|e] eqn:Ep.
    2:{ cbn. rewrite Hok. repeat split.
        - exists rest. split; [reflexivity|discriminate].
        - exists [i]. repeat split; try discriminate; cbn; lia.
        - discriminate. }
    destruct (for_response_parts_ok _ _ _ _ _ Ep) as (news0 & -> & Hs0 & Hl0).
    cbn [Imap.sbind app].
    destruct (Imap.store srv i) as [u|e] eqn:Est.
    2:{ cbn. rewrite Hok. repeat split.
        - exists rest. split; [reflexivity|discriminate].
        - exists []. repeat split; try discriminate; cbn; lia.
        - discriminate. }
    specialize (IH (acc ++ news0)%list).
    destruct (Imap.for_email_ids decode codec_of srv rest (acc ++ news0)%list)
      as [tr r].
    destruct IH as (He & Hl & (rest' & Hr & Hr') & (pending & Hp & Hpl & Hp') & Hout).
    cbn [app].
    change (Imap.Fetch i "(RFC822)" :: Imap.Store i "+FLAGS" "\Seen" :: tr)
      with ([Imap.Fetch i "(RFC822)"; Imap.Store i "+FLAGS" "\Seen"] ++ tr)%list.
    rewrite errors_app, logouts_app, fetched_app, stored_app.
    cbn [Imap.fetched Imap.stored flat_map app Imap.errors Imap.logouts
         filter List.length Nat.add].
    rewrite Hok. repeat split; try assumption.
    + exists rest'. split; [now rewrite Hr at 1|exact Hr'].
    + exists pending. rewrite Hp. now repeat split.
    + intros out E. destruct (Hout _ E) as (news & -> & Hs & Hn).
      exists (news0 ++ news)%list. rewrite app_assoc. repeat split.
      * apply Forall_app. now split.
      * rewrite !List.length_app, Hmsgs, Hl0, Hn. reflexivity.
  - specialize (IH acc).
    destruct (Imap.for_email_ids decode codec_of srv rest acc) as [tr r].
    destruct IH as (He & Hl & (rest' & Hr & Hr') & (pending & Hp & Hpl & Hp') & Hout).
    change ([Imap.Fetch i "(RFC822)"] ++ tr)%list
      with ([Imap.Fetch i "(RFC822)"] ++ tr)%list.
    rewrite errors_app, logouts_app, fetched_app, stored_app.
    cbn [Imap.fetched Imap.stored flat_map app Imap.errors Imap.logouts
         filter List.length Nat.add].
    rewrite Hok. repeat split; try assumption.
    + exists rest'. split; [now rewrite Hr at 1|exact Hr'].
    + exists pending. rewrite Hp. now repeat split.
    + intros out E. destruct (Hout _ E) as (news & -> & Hs & Hn).
      exists news. repeat split; [exact Hs|].
      rewrite List.length_app, Hmsgs, Hn. reflexivity.
Qed.

Ltac name_prefix :=
  set (x1 := Imap.ILog INFO "Conectando ao servidor IMAP...");
  set (x2 := Imap.Connect _);
  set (x3 := Imap.Login _ _);
  set (x4 := Imap.Select _ _);
  set (x5 := Imap.Search _);
  set (x6 := Imap.ILog INFO "Encontrado(s) ");
  match goal with
  | |- context [(x1 :: x2 :: x3 :: x4 :: x5 :: x6 :: ?l)%list] =>
      change (x1 :: x2 :: x3 :: x4 :: x5 :: x6 :: l)%list
        with ([x1; x2; x3; x4; x5; x6] ++ l)%list
  end;
  subst x1 x2 x3 x4 x5 x6.

Lemma try_except_spec (decode : Imap.codecs) (codec_of : Imap.part -> string)
  (cfg : config) (now : datetime) (srv : Imap.server) :
  let '(emails, tr) := Imap.try_except decode codec_of cfg now srv in
  marks_follow_fetches srv emails tr /\ fails_as_a_whole srv emails tr.
Proof.
  unfold marks_follow_fetches, fails_as_a_whole.
  assert (Hfail : forall tr : list Imap.event,
            Imap.errors tr = 0 -> Imap.logouts tr = 0 ->
            Imap.fetched tr = [] -> Imap.stored tr = [] ->
            let emails := @nil email_data in
            let tr := (tr ++ [Imap.ILog ERROR "Erro ao buscar e-mails: "])%list in
            ((exists pending,
                filter (fetch_is_ok srv) (Imap.fetched tr)
                = (Imap.stored tr ++ pending)%list
                /\ List.length pending <= 1
                /\ (Imap.errors tr = 0 -> pending = []))
             /\ (Imap.errors tr = 0 ->
                 List.length emails
                 = List.length (flat_map (messages_of srv) (Imap.fetched tr)))
             /\ Forall (fun m => strip (body m) = body m) emails)
            /\ Imap.errors tr <= 1
            /\ (Imap.errors tr = 1 ->
                emails = [] /\ (Imap.logout srv = Ok tt -> Imap.logouts tr = 0))
            /\ (Imap.errors tr = 0 -> Imap.logouts tr = 1)).
  { intros tr He Hl Hf Hs. cbn zeta.
    rewrite errors_app, logouts_app, fetched_app, stored_app, He, Hl, Hf, Hs.
    cbn. repeat split; try lia; try discriminate.
    - exists []. repeat split; cbn; lia.
    - constructor. }
  unfold Imap.try_except, Imap.try_block, Imap.logged_in, Imap.log,
    Imap.call, Imap.lift.
  cbn [Imap.sbind].
  destruct (Imap.connect srv) as [u|e];
    [|apply (Hfail [_; _]); reflexivity].
  cbn [Imap.sbind].
  destruct (Imap.login srv _ _) as [u1|e];
    [|apply (Hfail [_; _; _]); reflexivity].
  cbn [Imap.sbind].
  destruct (Imap.select srv) as [u2|e];
    [|apply (Hfail [_; _; _; _]); reflexivity].
  cbn [Imap.sbind].
  destruct (Imap.minus_one_day now) as [date_since|e];
    [|apply (Hfail [_; _; _; _]); reflexivity].
  cbn [Imap.sbind].
  destruct (Imap.search srv _) as [[status messages]|e];
    [|apply (Hfail [_; _; _; _; _]); reflexivity].
  cbn [Imap.sbind fst snd].
  destruct (String.eqb status "OK"); cbn [negb].
  2:{ cbn [Imap.sbind Imap.sret app].
      destruct (Imap.logout srv) as [u3|e] eqn:Elo.
      2:{ cbn. repeat split; try lia; try discriminate.
          - exists []. repeat split; cbn; lia.
          - constructor. }
      cbn. repeat split; try lia; try discriminate.
      - exists []. repeat split; cbn; lia.
      - constructor. }
  destruct messages as [|m messages]; cbn [Imap.first bind].
  { apply (Hfail [_; _; _; _; _]); reflexivity. }
  destruct m as [b|]; cbn [Imap.falsy].
  2:{ cbn [Imap.sbind Imap.sret app].
      destruct (Imap.logout srv) as [u3|e] eqn:Elo.
      2:{ cbn. repeat split; try lia; try discriminate.
          - exists []. repeat split; cbn; lia.
          - constructor. }
      cbn. repeat split; try lia; try discriminate.
      - exists []. repeat split; cbn; lia.
      - constructor. }
  destruct (is_empty b).
  { cbn [Imap.sbind Imap.sret app].
    destruct (Imap.logout srv) as [u3|e] eqn:Elo.
    2:{ cbn. repeat split; try lia; try discriminate.
        - exists []. repeat split; cbn; lia.
        - constructor. }
    cbn. repeat split; try lia; try discriminate.
    - exists []. repeat split; cbn; lia.
    - constructor. }
  cbn [Imap.sbind app].
  pose proof (for_email_ids_spec decode codec_of srv (Imap.split b) []) as H.
  destruct (Imap.for_email_ids decode codec_of srv (Imap.split b) [])
    as [tr r].
  destruct H as (He & Hl & (rest & Hr & Hr') & (pending & Hp & Hpl & Hp') & Hout).
  destruct r as [out|e].
  - destruct (Hout _ eq_refl) as (news & -> & Hs & Hn).
    rewrite (Hr' _ eq_refl), app_nil_r in Hr.
    rewrite (Hp' _ eq_refl), app_nil_r in Hp.
    cbn [Imap.sbind Imap.sret app].
    destruct (Imap.logout srv) as [u3|e] eqn:Elo.
    + name_prefix.
      rewrite !errors_app, !logouts_app, !fetched_app, !stored_app, He, Hl.
      cbn [Imap.errors Imap.logouts Imap.fetched Imap.stored filter
           flat_map app List.length Nat.add].
      rewrite !app_nil_r. rewrite Hp, <- Hr, Hn.
      repeat split; try lia; try discriminate; try assumption.
      exists []. rewrite app_nil_r. repeat split; cbn; lia.
    + name_prefix.
      rewrite !errors_app, !logouts_app, !fetched_app, !stored_app, He, Hl.
      cbn [Imap.errors Imap.logouts Imap.fetched Imap.stored filter
           flat_map app List.length Nat.add].
      rewrite !app_nil_r. rewrite Hp.
      repeat split; try lia; try discriminate; try constructor.
      exists []. rewrite app_nil_r. repeat split; cbn; lia.
  - cbn [Imap.sbind Imap.sret app].
    name_prefix.
    rewrite !errors_app, !logouts_app, !fetched_app, !stored_app, He, Hl.
    cbn [Imap.errors Imap.logouts Imap.fetched Imap.stored filter
         flat_map app List.length Nat.add].
    rewrite !app_nil_r. rewrite Hp.
    repeat split; try lia; try discriminate; try constructor.
    exists pending. repeat split; [exact Hpl|discriminate].
Qed.

(** In both variants, whatever the server and the codecs do: the
    identifiers fetched with the status [OK] are exactly those marked as
    seen, in the same order, except that the last one is not marked when
    the session failed while its messages were read; and a session that
    logs no error returns one message for each message of the responses,
    each with a body without blanks at either end. *)
Theorem seen_marks_follow_the_fetches (decode : Imap.codecs) (cfg : config)
  (now : datetime) (srv : Imap.server) :
  (let '(emails, tr) := Imap.Agendator.fetch_emails decode cfg now srv in
   marks_follow_fetches srv emails tr)
  /\ (let '(emails, tr) := Imap.AgendatorActions.fetch_emails decode cfg now srv in
      marks_follow_fetches srv emails tr).
Proof.
  split.
  - unfold Imap.Agendator.fetch_emails.
    pose proof (try_except_spec decode (fun _ => "utf-8") cfg now srv) as H.
    destruct (Imap.try_except _ _ cfg now srv) as [emails tr]. apply H.
  - unfold Imap.AgendatorActions.fetch_emails.
    destruct (_ || _)%bool.
    + unfold marks_follow_fetches. cbn. repeat split; try discriminate.
      * exists []. repeat split; try discriminate. cbn; lia.
      * constructor.
    + pose proof (try_except_spec decode
                    (fun p => Imap.or_utf8 (Imap.get_content_charset p))
                    cfg now srv) as H.
      destruct (Imap.try_except _ _ cfg now srv) as [emails tr]. apply H.
Qed.

(** In both variants a session fails as a whole: it logs at most one
    error, and when it logs one it returns no message, whatever was fetched
    and marked as seen before, and leaves the connection open (unless it is
    [logout] that failed); a session that logs no error has closed the
    connection once. *)
Theorem a_failed_session_returns_nothing (decode : Imap.codecs)
  (cfg : config) (now : datetime) (srv : Imap.server) :
  (let '(emails, tr) := Imap.Agendator.fetch_emails decode cfg now srv in
   fails_as_a_whole srv emails tr)
  /\ (let '(emails, tr) := Imap.AgendatorActions.fetch_emails decode cfg now srv in
      fails_as_a_whole srv emails tr).
Proof.
  split.
  - unfold Imap.Agendator.fetch_emails.
    pose proof (try_except_spec decode (fun _ => "utf-8") cfg now srv) as H.
    destruct (Imap.try_except _ _ cfg now srv) as [emails tr]. apply H.
  - unfold Imap.AgendatorActions.fetch_emails.
    destruct (_ || _)%bool.
    + unfold fails_as_a_whole. cbn. repeat split; try discriminate; lia.
    + pose proof (try_except_spec decode
                    (fun p => Imap.or_utf8 (Imap.get_content_charset p))
                    cfg now srv) as H.
      destruct (Imap.try_except _ _ cfg now srv) as [emails tr]. apply H.
Qed.

(** A message without a subject makes the session fail: the message
    before it is marked as seen and is not returned, and the connection
    stays open. With two well-formed messages both are returned. *)
Lemma a_marked_message_can_be_lost :
  (let '(emails, tr) :=
     Imap.Agendator.fetch_emails toy_codecs cfg0 now0
       (two_ids_server (Ok ("OK", [Imap.Tuple no_subject]))) in
   emails = [] /\ Imap.stored tr = ["1"] /\ Imap.fetched tr = ["1"; "2"]
   /\ Imap.errors tr = 1 /\ Imap.logouts tr = 0)
  /\ (let '(emails, tr) :=
        Imap.Agendator.fetch_emails toy_codecs cfg0 now0
          (two_ids_server
             (Ok ("OK", [Imap.Tuple (plain_message "Entrega" " Sexta, 18h. " None)]))) in
      map body emails = ["Segunda, 10h."; "Sexta, 18h."]
      /\ Imap.stored tr = ["1"; "2"]
      /\ Imap.errors tr = 0 /\ Imap.logouts tr = 1).
Proof. vm_compute. repeat split. Qed.

(** *** The two variants on the same server *)

Lemma or_utf8_falsy (x : option string) :
  Imap.falsy x = true -> Imap.or_utf8 x = "utf-8".
Proof. destruct x as [s|]; [|reflexivity]. cbn. now intros ->. Qed.

Lemma first_text_plain_agree (decode : Imap.codecs) (parts : list Imap.part) :
  forallb (fun p => Imap.falsy (Imap.get_content_charset p)) parts = true ->
  Imap.first_text_plain decode (fun _ => "utf-8") parts
  = Imap.first_text_plain decode
      (fun p => Imap.or_utf8 (Imap.get_content_charset p)) parts.
Proof.
  induction parts as [|p rest IH]; [reflexivity|].
  cbn [forallb Imap.first_text_plain]. intros H.
  apply andb_prop in H as [Hp Hr].
  rewrite (or_utf8_falsy _ Hp), (IH Hr). reflexivity.
Qed.

Lemma read_message_agree (decode : Imap.codecs) (msg : Imap.message) :
  no_charset msg = true ->
  Imap.read_message decode (fun _ => "utf-8") msg
  = Imap.read_message decode
      (fun p => Imap.or_utf8 (Imap.get_content_charset p)) msg.
Proof.
  unfold no_charset. intros H. apply andb_prop in H as [Hw Hp].
  unfold Imap.read_message, Imap.body_of.
  now rewrite (first_text_plain_agree _ _ Hw), (or_utf8_falsy _ Hp).
Qed.

Lemma for_response_parts_agree (decode : Imap.codecs)
  (msg_data : list Imap.response_part) (acc : list email_data) :
  forallb no_charset
    (flat_map (fun p => match p with
                        | Imap.Tuple msg => [msg]
                        | Imap.NotTuple => []
                        end) msg_data) = true ->
  Imap.for_response_parts decode (fun _ => "utf-8") msg_data acc
  = Imap.for_response_parts decode
      (fun p => Imap.or_utf8 (Imap.get_content_charset p)) msg_data acc.
Proof.
  revert acc. induction msg_data as [|p rest IH]; intros acc H; [reflexivity|].
  destruct p as [msg|]; cbn [flat_map app forallb] in H.
  - apply andb_prop in H as [Hm Hr]. cbn [Imap.for_response_parts].
    rewrite (read_message_agree _ _ Hm).
    destruct (Imap.read_message _ _ msg); [|reflexivity].
    cbn [bind]. apply IH, Hr.
  - cbn [Imap.for_response_parts]. apply IH, H.
Qed.

Lemma for_email_ids_agree (decode : Imap.codecs) (srv : Imap.server)
  (ids : list string) (acc : list email_data) :
  (forall i, forallb no_charset (messages_of srv i) = true) ->
  Imap.for_email_ids decode (fun _ => "utf-8") srv ids acc
  = Imap.for_email_ids decode
      (fun p => Imap.or_utf8 (Imap.get_content_charset p)) srv ids acc.
Proof.
  intros H. revert acc. induction ids as [|i rest IH]; intros acc; [reflexivity|].
  cbn [Imap.for_email_ids]. unfold Imap.call, Imap.lift.
  specialize (H i). unfold messages_of in H.
  destruct (Imap.fetch srv i) as [answer|e]; [|reflexivity].
  cbn [Imap.sbind].
  destruct (String.eqb (fst answer) "OK").
  - rewrite (for_response_parts_agree _ _ _ H).
    destruct (Imap.for_response_parts _ _ (snd answer) acc); [|reflexivity].
    cbn [Imap.sbind]. destruct (Imap.store srv i); [|reflexivity].
    cbn [Imap.sbind]. now rewrite IH.
  - now rewrite IH.
Qed.

(** With the credentials set, on a server none of whose messages declares
    a charset in a part that is read, the two variants run the same
    session: the same calls, the same records, the same messages. *)
Theorem variants_agree_without_charset (decode : Imap.codecs) (cfg : config)
  (now : datetime) (srv : Imap.server) :
  not_set (EMAIL_USER cfg) = false -> not_set (EMAIL_PASS cfg) = false ->
  (forall i, forallb no_charset (messages_of srv i) = true) ->
  Imap.Agendator.fetch_emails decode cfg now srv
  = Imap.AgendatorActions.fetch_emails decode cfg now srv.
Proof.
  intros Hu Hp H.
  unfold Imap.Agendator.fetch_emails, Imap.AgendatorActions.fetch_emails.
  rewrite Hu, Hp. cbn [orb].
  unfold Imap.try_except, Imap.try_block, Imap.logged_in, Imap.log,
    Imap.call, Imap.lift.
  cbn [Imap.sbind].
  destruct (Imap.connect srv); [|reflexivity]. cbn [Imap.sbind].
  destruct (Imap.login srv _ _); [|reflexivity]. cbn [Imap.sbind].
  destruct (Imap.select srv); [|reflexivity]. cbn [Imap.sbind].
  destruct (Imap.minus_one_day now); [|reflexivity]. cbn [Imap.sbind].
  destruct (Imap.search srv _) as [[status messages]|]; [|reflexivity].
  cbn [Imap.sbind fst snd].
  destruct (String.eqb status "OK"); [|reflexivity]. cbn [negb].
  destruct messages as [|m messages]; [reflexivity|]. cbn [Imap.first bind].
  destruct m as [b|]; [|reflexivity]. cbn [Imap.falsy].
  destruct (is_empty b); [reflexivity|]. cbn [Imap.sbind].
  now rewrite (for_email_ids_agree decode srv (Imap.split b) [] H).
Qed.

Lemma variants_agree_witness :
  not_set (EMAIL_USER cfg0) = false /\ not_set (EMAIL_PASS cfg0) = false
  /\ Imap.Agendator.fetch_emails toy_codecs cfg0 now0
       (two_ids_server (Ok ("OK", [Imap.Tuple no_subject])))
     = Imap.AgendatorActions.fetch_emails toy_codecs cfg0 now0
         (two_ids_server (Ok ("OK", [Imap.Tuple no_subject]))).
Proof.
  split; [reflexivity|]. split; [reflexivity|].
  apply (variants_agree_without_charset toy_codecs cfg0 now0
           (two_ids_server (Ok ("OK", [Imap.Tuple no_subject]))));
    try reflexivity.
  intros i. unfold messages_of, two_ids_server. cbn [Imap.fetch].
  destruct (String.eqb i "1"); reflexivity.
Defined.

(** A part that declares the charset [iso-8859-1]: the single-shot variant
    decodes its payload with it, the continuous-loop variant fails to decode
    it as UTF-8 and leaves the body empty. *)
Lemma variants_differ_on_a_declared_charset :
  map body (fst (Imap.Agendator.fetch_emails toy_codecs cfg0 now0
                   (two_ids_server
                      (Ok ("OK", [Imap.Tuple (plain_message "Menu" latin1_cafe
                                                (Some "iso-8859-1"))])))))
  = ["Segunda, 10h."; ""]
  /\ map body (fst (Imap.AgendatorActions.fetch_emails toy_codecs cfg0 now0
                      (two_ids_server
                         (Ok ("OK", [Imap.Tuple (plain_message "Menu" latin1_cafe
                                                   (Some "iso-8859-1"))])))))
     = ["Segunda, 10h."; "café"].
Proof. vm_compute. split; reflexivity. Qed.

(** *** The search *)

Lemma searches_app (a b : list Imap.event) :
  Imap.searches (a ++ b) = (Imap.searches a ++ Imap.searches b)%list.
Proof. apply flat_map_app. Qed.

Lemma for_email_ids_no_search (decode : Imap.codecs)
  (codec_of : Imap.part -> string) (srv : Imap.server)
  (ids : list string) (acc : list email_data) :
  Imap.searches (fst (Imap.for_email_ids decode codec_of srv ids acc)) = [].
Proof.
  revert acc. induction ids as [|i rest IH]; intros acc; [reflexivity|].
  cbn [Imap.for_email_ids]. unfold Imap.call, Imap.lift.
  destruct (Imap.fetch srv i) as [answer|e]; [|reflexivity].
  cbn [Imap.sbind].
  destruct (String.eqb (fst answer) "OK").
  - destruct (Imap.for_response_parts _ _ (snd answer) acc) as [acc'|];
      [|reflexivity].
    cbn [Imap.sbind]. destruct (Imap.store srv i); [|reflexivity].
    cbn [Imap.sbind]. specialize (IH acc').
    destruct (Imap.for_email_ids decode codec_of srv rest acc') as [tr r].
    exact IH.
  - specialize (IH acc).
    destruct (Imap.for_email_ids decode codec_of srv rest acc) as [tr r].
    exact IH.
Qed.

(** The day before, through the ordinal: the instant is 24 hours earlier
    and the date is a date of the calendar. *)
Lemma minus_one_day_instant (now d : datetime) :
  Imap.minus_one_day now = Ok d ->
  (instant d = instant now - 86400 * 1000000
   /\ 1 <= month d <= 12
   /\ 1 <= day d <= days_in_month (year d) (month d))%Z.
Proof.
  unfold Imap.minus_one_day.
  set (days := (ymd2ord (year now) (month now) (day now) - 1)%Z).
  destruct ((0 <? days)%Z && (days <=? MAXORDINAL)%Z)%bool eqn:E;
    [|discriminate].
  apply andb_prop in E as [E _]. apply Z.ltb_lt in E.
  pose proof (ymd2ord_ord2ymd days ltac:(lia)) as Hord.
  destruct (ord2ymd days) as [[y m] dd]. destruct Hord as (Hord & _ & Hm & Hd).
  intros [= <-]. unfold instant. cbn [year month day hour minute second
                                      microsecond utcoffset].
  rewrite Hord. subst days. repeat split; lia.
Qed.

Lemma try_except_searches (decode : Imap.codecs)
  (codec_of : Imap.part -> string) (cfg : config) (now : datetime)
  (srv : Imap.server) :
  let tr := snd (Imap.try_except decode codec_of cfg now srv) in
  Forall (since_the_day_before now) (Imap.searches tr)
  /\ List.length (Imap.searches tr) <= 1.
Proof.
  unfold Imap.try_except, Imap.try_block, Imap.logged_in, Imap.log,
    Imap.call, Imap.lift.
  cbn [Imap.sbind].
  destruct (Imap.connect srv); [|cbn; split; [constructor|lia]].
  cbn [Imap.sbind].
  destruct (Imap.login srv _ _); [|cbn; split; [constructor|lia]].
  cbn [Imap.sbind].
  destruct (Imap.select srv); [|cbn; split; [constructor|lia]].
  cbn [Imap.sbind].
  destruct (Imap.minus_one_day now) as [d|] eqn:Ed;
    [|cbn; split; [constructor|lia]].
  cbn [Imap.sbind].
  assert (Hd : since_the_day_before now
                 ("(UNSEEN SINCE " ++ String dquote (Imap.strftime_dbY d)
                  ++ String dquote ")")).
  { exists d. split; [exact Ed|]. split; [reflexivity|].
    now apply minus_one_day_instant. }
  set (criterion := "(UNSEEN SINCE " ++ String dquote (Imap.strftime_dbY d)
                    ++ String dquote ")") in *.
  clearbody criterion.
  assert (Hone : Forall (since_the_day_before now) [criterion]
                 /\ List.length [criterion] <= 1).
  { split; [constructor; [exact Hd|constructor]|cbn; lia]. }
  destruct (Imap.search srv criterion) as [[status messages]|];
    [|exact Hone].
  cbn [Imap.sbind fst snd].
  destruct (String.eqb status "OK"); cbn [negb].
  2:{ cbn [Imap.sbind Imap.sret app].
      destruct (Imap.logout srv); exact Hone. }
  destruct messages as [|m messages]; cbn [Imap.first bind].
  { exact Hone. }
  destruct m as [b|]; cbn [Imap.falsy].
  2:{ cbn [Imap.sbind Imap.sret app].
      destruct (Imap.logout srv); exact Hone. }
  destruct (is_empty b).
  { cbn [Imap.sbind Imap.sret app].
    destruct (Imap.logout srv); exact Hone. }
  cbn [Imap.sbind app].
  pose proof (for_email_ids_no_search decode codec_of srv (Imap.split b) [])
    as Hs.
  destruct (Imap.for_email_ids decode codec_of srv (Imap.split b) [])
    as [tr r].
  cbn [fst] in Hs.
  assert (Htail : forall post : list Imap.event,
            Imap.searches post = [] ->
            Imap.searches
              (Imap.ILog INFO "Conectando ao servidor IMAP..."
               :: Imap.Connect IMAP_HOST
               :: Imap.Login (EMAIL_USER cfg) (EMAIL_PASS cfg)
               :: Imap.Select "inbox" false
               :: Imap.Search criterion
               :: Imap.ILog INFO "Encontrado(s) " :: tr ++ post)%list
            = [criterion]).
  { intros post Hpost.
    change (Imap.searches (?x1 :: ?x2 :: ?x3 :: ?x4 :: Imap.Search criterion
                           :: ?x6 :: tr ++ post)%list)
      with (criterion :: Imap.searches (tr ++ post)%list).
    now rewrite searches_app, Hs, Hpost. }
  destruct r as [out|e]; cbn [Imap.sbind Imap.sret app snd].
  - destruct (Imap.logout srv); cbn [snd app].
    + rewrite (Htail [Imap.Logout] eq_refl). exact Hone.
    + rewrite <- app_assoc.
      rewrite (Htail ([Imap.Logout] ++ [Imap.ILog ERROR "Erro ao buscar e-mails: "])%list eq_refl).
      exact Hone.
  - rewrite (Htail [Imap.ILog ERROR "Erro ao buscar e-mails: "] eq_refl).
    exact Hone.
Qed.

(** In both variants a session searches at most once, and the criterion
    is [UNSEEN SINCE] the date of the day before the current one, written
    as day, English month abbreviation and year: the date of the instant 24
    hours before the current one, also across the ends of months and
    years. *)
Theorem search_asks_since_the_day_before (decode : Imap.codecs)
  (cfg : config) (now : datetime) (srv : Imap.server) :
  (let tr := snd (Imap.Agendator.fetch_emails decode cfg now srv) in
   Forall (since_the_day_before now) (Imap.searches tr)
   /\ List.length (Imap.searches tr) <= 1)
  /\ (let tr := snd (Imap.AgendatorActions.fetch_emails decode cfg now srv) in
      Forall (since_the_day_before now) (Imap.searches tr)
      /\ List.length (Imap.searches tr) <= 1).
Proof.
  split.
  - exact (try_except_searches decode (fun _ => "utf-8") cfg now srv).
  - unfold Imap.AgendatorActions.fetch_emails.
    destruct (not_set (EMAIL_USER cfg) || not_set (EMAIL_PASS cfg))%bool.
    + cbn [snd Imap.searches flat_map app List.length]. split; [constructor|lia].
    + exact (try_except_searches decode
               (fun p => Imap.or_utf8 (Imap.get_content_charset p))
               cfg now srv).
Qed.

(** On the first of March the search asks since the last of February. *)
Lemma search_on_the_first_of_march :
  Imap.searches (snd (Imap.Agendator.fetch_emails toy_codecs cfg0 now0
                        (two_ids_server (Raise CollaboratorError))))
  = ["(UNSEEN SINCE " ++ String dquote "28-Feb-2025" ++ String dquote ")"].
Proof. vm_compute. reflexivity. Qed.

(** *** The mailbox of the main functions *)

(** The mailbox that the main functions see is the session on the server:
    the messages that [fetch_emails] returns to them are those of the
    session. *)
Lemma session_is_the_mailbox_of_the_run (decode : Imap.codecs)
  (cfg : config) (now : datetime) (srv : Imap.server) :
  fst (Agendator.fetch_emails cfg
         (as_mailbox decode (fun _ => "utf-8") now srv))
  = fst (Imap.Agendator.fetch_emails decode cfg now srv)
  /\ fst (AgendatorActions.fetch_emails cfg
            (as_mailbox decode
               (fun p => Imap.or_utf8 (Imap.get_content_charset p)) now srv))
     = fst (Imap.AgendatorActions.fetch_emails decode cfg now srv).
Proof.
  assert (H : forall codec_of,
            fst (Agendator.fetch_emails cfg (as_mailbox decode codec_of now srv))
            = fst (Imap.try_except decode codec_of cfg now srv)).
  { intros codec_of.
    unfold Agendator.fetch_emails, as_mailbox, Imap.try_except,
      Imap.try_block, Imap.log, Imap.call.
    cbn [connect session Imap.sbind].
    destruct (Imap.connect srv); [|reflexivity].
    cbn [Imap.sbind].
    destruct (Imap.logged_in decode codec_of _ _ now srv) as [tr r].
    destruct r; reflexivity. }
  split; [apply H|].
  unfold AgendatorActions.fetch_emails, Imap.AgendatorActions.fetch_emails.
  destruct (_ || _)%bool; [reflexivity|].
  rewrite <- H. unfold Agendator.fetch_emails.
  destruct (connect _); [reflexivity|].
  destruct (session _ _ _); reflexivity.
Qed.

Lemma loop_fetch_quiet (cfg : config) (mb : mailbox) :
  posts (snd (Agendator.fetch_emails cfg mb)) = 0
  /\ inserted (snd (Agendator.fetch_emails cfg mb)) = [].
Proof.
  unfold Agendator.fetch_emails.
  destruct (connect mb); [now split|].
  destruct (session mb _ _); now split.
Qed.

Lemma actions_fetch_quiet (cfg : config) (mb : mailbox) :
  posts (snd (AgendatorActions.fetch_emails cfg mb)) = 0
  /\ inserted (snd (AgendatorActions.fetch_emails cfg mb)) = [].
Proof.
  unfold AgendatorActions.fetch_emails.
  destruct (_ || _)%bool; [now split|].
  destruct (connect mb); [now split|].
  destruct (session mb _ _); now split.
Qed.

(** From the server to the calendar. When the session logs an error, be
    it for the last message of many, the run sends no request to the
    inference service and submits no event, and ends without an exception:
    the messages that were marked as seen before the failure are not
    processed in this run. *)
Theorem a_failed_session_stops_the_run (decode : Imap.codecs)
  (cfg : config) (now : datetime) (srv : Imap.server)
  (gemini : nat -> gemini_service) (calendar : nat -> calendar_call)
  (k : nat) :
  (Imap.errors (snd (Imap.Agendator.fetch_emails decode cfg now srv)) = 1 ->
   let '(tr, _, r) :=
     Agendator.main_loop_turn cfg
       (as_mailbox decode (fun _ => "utf-8") now srv) gemini calendar k in
   posts tr = 0 /\ inserted tr = [] /\ r = Ok tt)
  /\ (Imap.errors (snd (Imap.AgendatorActions.fetch_emails decode cfg now srv))
      = 1 ->
      let '(tr, r) :=
        AgendatorActions.main cfg
          (as_mailbox decode
             (fun p => Imap.or_utf8 (Imap.get_content_charset p)) now srv)
          gemini calendar in
      posts tr = 0 /\ inserted tr = [] /\ r = Ok tt).
Proof.
  destruct (session_is_the_mailbox_of_the_run decode cfg now srv) as [El Ea].
  split; intros He.
  - pose proof (try_except_spec decode (fun _ => "utf-8") cfg now srv) as H.
    unfold Imap.Agendator.fetch_emails in El, He.
    destruct (Imap.try_except _ _ cfg now srv) as [emails tr0].
    destruct H as (_ & _ & H1 & _). destruct (H1 He) as [-> _].
    cbn [fst] in El.
    unfold Agendator.main_loop_turn.
    pose proof (loop_fetch_quiet cfg
                  (as_mailbox decode (fun _ => "utf-8") now srv)) as [Hp Hi].
    destruct (Agendator.fetch_emails cfg _) as [emails tr].
    cbn [fst snd] in *. subst emails. cbn [Agendator.for_emails app].
    rewrite posts_app, inserted_app, Hp, Hi. now repeat split.
  - set (codec_of := fun p => Imap.or_utf8 (Imap.get_content_charset p)) in *.
    assert (E : fst (Imap.AgendatorActions.fetch_emails decode cfg now srv) = []).
    { unfold Imap.AgendatorActions.fetch_emails in *.
      destruct (_ || _)%bool; [reflexivity|].
      pose proof (try_except_spec decode codec_of cfg now srv) as H.
      destruct (Imap.try_except _ _ cfg now srv) as [emails tr0].
      destruct H as (_ & _ & H1 & _). now destruct (H1 He) as [-> _]. }
    rewrite E in Ea.
    unfold AgendatorActions.main.
    pose proof (actions_fetch_quiet cfg (as_mailbox decode codec_of now srv))
      as [Hp Hi].
    destruct (AgendatorActions.fetch_emails cfg _) as [emails tr].
    cbn [fst snd] in *. subst emails. cbn [AgendatorActions.for_emails app].
    change (?x :: tr ++ ?l)%list with ([x] ++ tr ++ l)%list.
    rewrite !posts_app, !inserted_app, Hp, Hi. now repeat split.
Qed.

Lemma a_failed_session_witness :
  (let '(tr, _, r) :=
     Agendator.main_loop_turn cfg0
       (as_mailbox toy_codecs (fun _ => "utf-8") now0
          (two_ids_server (Ok ("OK", [Imap.Tuple no_subject]))))
       (fun _ => service_text (text "{'eventos': []}")) (fun _ => calendar_up) 0 in
   posts tr = 0 /\ inserted tr = [] /\ r = Ok tt)
  /\ (let '(tr, r) :=
        AgendatorActions.main cfg0
          (as_mailbox toy_codecs
             (fun p => Imap.or_utf8 (Imap.get_content_charset p)) now0
             (two_ids_server (Ok ("OK", [Imap.Tuple no_subject]))))
          (fun _ => service_text (text "{'eventos': []}")) (fun _ => calendar_up) in
      posts tr = 0 /\ inserted tr = [] /\ r = Ok tt).
Proof.
  destruct (a_failed_session_stops_the_run toy_codecs cfg0 now0
              (two_ids_server (Ok ("OK", [Imap.Tuple no_subject])))
              (fun _ => service_text (text "{'eventos': []}"))
              (fun _ => calendar_up) 0) as [H1 H2].
  split; [apply H1|apply H2]; reflexivity.
Defined.
